(** * Credit-card statement parser: issuer detection, field extraction,
      status classification and the batch runner of [main.py].

    The development has three layers.

    - [Py]: the few Python values the parser touches: [str] as a sequence
      of Unicode code points, truthiness, [str.strip], and exceptions as an
      explicit result type.
    - [Parser]: [CreditCardParser] itself, written over an arbitrary regular
      expression engine, an arbitrary registry, an arbitrary PDF library and
      an arbitrary standard output, so that the general theorems do not
      depend on how [re.search] decides a match, and say which of them need
      [print] to succeed.
    - [Re]: an executable model of the fragment of Python's [re] that the
      registry of [main.py] uses (backtracking search, greedy and lazy
      repetition, character sets, capture groups, [IGNORECASE], [MULTILINE],
      the classes [\d], [\s] and [\w] over all of Unicode), and [Main]: the
      parser instantiated with it and with the [PARSERS] table of the
      source, on which the concrete examples are evaluated and the theorems
      that depend on the patterns are stated. *)

From Stdlib Require Import List NArith Arith Bool String Ascii Lia Permutation.
Import ListNotations.

Set Implicit Arguments.

(* ------------------------------------------------------------------ *)
(** ** Python values *)

Module Py.

(** A Python [str]: its code points, in order. *)
Definition pystr := list N.

(** Decoding of a UTF-8 byte sequence; used only to write literals. *)
Fixpoint utf8_decode (bs : list N) : pystr :=
  match bs with
  | [] => []
  | b0 :: t0 =>
    if (b0 <? 128)%N then b0 :: utf8_decode t0
    else
      match t0 with
      | [] => []
      | b1 :: t1 =>
        if (b0 <? 224)%N
        then ((b0 - 192) * 64 + (b1 - 128))%N :: utf8_decode t1
        else
          match t1 with
          | [] => []
          | b2 :: t2 =>
            if (b0 <? 240)%N
            then ((b0 - 224) * 4096 + (b1 - 128) * 64 + (b2 - 128))%N
                   :: utf8_decode t2
            else
              match t2 with
              | [] => []
              | b3 :: t3 =>
                ((b0 - 240) * 262144 + (b1 - 128) * 4096
                 + (b2 - 128) * 64 + (b3 - 128))%N :: utf8_decode t3
              end
          end
      end
  end.

(** The [str] written by a literal. *)
Definition str (s : string) : pystr :=
  utf8_decode (map N_of_ascii (list_ascii_of_string s)).

Fixpoint eqb (a b : pystr) : bool :=
  match a, b with
  | [], [] => true
  | x :: a', y :: b' => (x =? y)%N && eqb a' b'
  | _, _ => false
  end.

(** [str.isspace] on one character: the code points whose bidirectional
    class is WS, B or S, or whose category is Zs.  [\s] of [re] on a [str]
    pattern is the same set. *)
Definition isspace (c : N) : bool :=
  ((9 <=? c) && (c <=? 13) || (28 <=? c) && (c <=? 32)
   || (c =? 133) || (c =? 160) || (c =? 5760)
   || (8192 <=? c) && (c <=? 8202)
   || (c =? 8232) || (c =? 8233) || (c =? 8239) || (c =? 8287)
   || (c =? 12288))%N.

Fixpoint lstrip (s : pystr) : pystr :=
  match s with
  | c :: s' => if isspace c then lstrip s' else s
  | [] => []
  end.

Definition rstrip (s : pystr) : pystr := rev (lstrip (rev s)).

(** [s.strip()] *)
Definition strip (s : pystr) : pystr := rstrip (lstrip s).

(** Truthiness of an [Optional[str]]: [None] and the empty string are
    false. *)
Definition truthy (v : option pystr) : bool :=
  match v with
  | None | Some [] => false
  | Some (_ :: _) => true
  end.

(** Truthiness of a list. *)
Definition nonempty {A} (l : list A) : bool :=
  match l with [] => false | _ :: _ => true end.

(** A computation that returns or raises [Exception(msg)]; [msg] is what
    [str(e)] gives in the handler. *)
Inductive result (A : Type) : Type :=
| Ok (a : A)
| Raise (msg : pystr).
Arguments Ok {A} a.
Arguments Raise {A} msg.

Definition bind {A B} (c : result A) (f : A -> result B) : result B :=
  match c with
  | Ok a => f a
  | Raise e => Raise e
  end.

(** [try: c  except Exception as e: h(str(e))] *)
Definition try_except {A} (c : result A) (h : pystr -> A) : A :=
  match c with
  | Ok a => a
  | Raise e => h e
  end.

End Py.

Notation "x <- c ;; k" := (Py.bind c (fun x => k))
  (at level 61, c at next level, right associativity).

Import Py.

(** [re.IGNORECASE] and [re.MULTILINE], as the integers they are; flags are
    combined with bitwise or. *)
Definition IGNORECASE : N := 2.
Definition MULTILINE : N := 8.

(** What the parser reads from a match object: [m.group(0)] and
    [m.groups()], where a group that took no part in the match is [None]. *)
Record Match : Type := mkMatch {
  group0 : pystr;
  groups : list (option pystr)
}.

(* ------------------------------------------------------------------ *)
(** ** A model of [re.search] for the registry's pattern language *)

Module Re.

(** Members of a bracketed set. *)
Inductive set_item : Type :=
| IChar (c : N)
| IRange (lo hi : N)
| IClass (neg : bool) (k : N).   (* k: 0 = \d, 1 = \s, 2 = \w *)

Inductive regex : Type :=
| Eps
| Chr (c : N)
| Any
| Cls (neg : bool) (k : N)
| CSet (neg : bool) (items : list set_item)
| Bol
| Eol
| Seq (a b : regex)
| Alt (a b : regex)
| Rep (a : regex) (lo : nat) (hi : option nat) (greedy : bool)
| Grp (i : nat) (a : regex).

(** *** Characters *)

Definition is_upper (c : N) : bool := ((65 <=? c) && (c <=? 90))%N.
Definition is_lower (c : N) : bool := ((97 <=? c) && (c <=? 122))%N.
Definition is_digit (c : N) : bool := ((48 <=? c) && (c <=? 57))%N.

(** The representative of a character's case class under [IGNORECASE], for
    the classes that hold an ASCII letter: the ASCII upper-case letters, and
    the four other characters that [re] equates with [i], [s] and [k]
    (U+0130, U+0131, U+017F, U+212A).  Every other character stands for
    itself, which is exact as long as the pattern's own letters are ASCII,
    as they are in the registry. *)
Definition lower (c : N) : N :=
  if is_upper c then (c + 32)%N
  else
    match c with
    | 304%N | 305%N => 105%N
    | 383%N => 115%N
    | 8490%N => 107%N
    | _ => c
    end.
Definition upper (c : N) : N := if is_lower c then (c - 32)%N else c.

(** The characters [str.isdecimal] accepts (general category Nd), as
    inclusive ranges of code points; Unicode 14.0, as in CPython 3.11. *)
Definition decimal_ranges : list (N * N) :=
  [(48, 57); (1632, 1641); (1776, 1785); (1984, 1993); (2406, 2415);
   (2534, 2543); (2662, 2671); (2790, 2799); (2918, 2927); (3046, 3055);
   (3174, 3183); (3302, 3311); (3430, 3439); (3558, 3567); (3664, 3673);
   (3792, 3801); (3872, 3881); (4160, 4169); (4240, 4249); (6112, 6121);
   (6160, 6169); (6470, 6479); (6608, 6617); (6784, 6793); (6800, 6809);
   (6992, 7001); (7088, 7097); (7232, 7241); (7248, 7257); (42528, 42537);
   (43216, 43225); (43264, 43273); (43472, 43481); (43504, 43513);
   (43600, 43609); (44016, 44025); (65296, 65305); (66720, 66729);
   (68912, 68921); (69734, 69743); (69872, 69881); (69942, 69951);
   (70096, 70105); (70384, 70393); (70736, 70745); (70864, 70873);
   (71248, 71257); (71360, 71369); (71472, 71481); (71904, 71913);
   (72016, 72025); (72784, 72793); (73040, 73049); (73120, 73129);
   (92768, 92777); (92864, 92873); (93008, 93017); (120782, 120831);
   (123200, 123209); (123632, 123641); (125264, 125273); (130032, 130041)]%N.

(** The characters [str.isalnum] accepts, and the underscore; Unicode 14.0,
    as in CPython 3.11. *)
Definition word_ranges : list (N * N) :=
  [(48, 57); (65, 90); (95, 95); (97, 122); (170, 170); (178, 179);
   (181, 181); (185, 186); (188, 190); (192, 214); (216, 246); (248, 705);
   (710, 721); (736, 740); (748, 748); (750, 750); (880, 884); (886, 887);
   (890, 893); (895, 895); (902, 902); (904, 906); (908, 908); (910, 929);
   (931, 1013); (1015, 1153); (1162, 1327); (1329, 1366); (1369, 1369);
   (1376, 1416); (1488, 1514); (1519, 1522); (1568, 1610); (1632, 1641);
   (1646, 1647); (1649, 1747); (1749, 1749); (1765, 1766); (1774, 1788);
   (1791, 1791); (1808, 1808); (1810, 1839); (1869, 1957); (1969, 1969);
   (1984, 2026); (2036, 2037); (2042, 2042); (2048, 2069); (2074, 2074);
   (2084, 2084); (2088, 2088); (2112, 2136); (2144, 2154); (2160, 2183);
   (2185, 2190); (2208, 2249); (2308, 2361); (2365, 2365); (2384, 2384);
   (2392, 2401); (2406, 2415); (2417, 2432); (2437, 2444); (2447, 2448);
   (2451, 2472); (2474, 2480); (2482, 2482); (2486, 2489); (2493, 2493);
   (2510, 2510); (2524, 2525); (2527, 2529); (2534, 2545); (2548, 2553);
   (2556, 2556); (2565, 2570); (2575, 2576); (2579, 2600); (2602, 2608);
   (2610, 2611); (2613, 2614); (2616, 2617); (2649, 2652); (2654, 2654);
   (2662, 2671); (2674, 2676); (2693, 2701); (2703, 2705); (2707, 2728);
   (2730, 2736); (2738, 2739); (2741, 2745); (2749, 2749); (2768, 2768);
   (2784, 2785); (2790, 2799); (2809, 2809); (2821, 2828); (2831, 2832);
   (2835, 2856); (2858, 2864); (2866, 2867); (2869, 2873); (2877, 2877);
   (2908, 2909); (2911, 2913); (2918, 2927); (2929, 2935); (2947, 2947);
   (2949, 2954); (2958, 2960); (2962, 2965); (2969, 2970); (2972, 2972);
   (2974, 2975); (2979, 2980); (2984, 2986); (2990, 3001); (3024, 3024);
   (3046, 3058); (3077, 3084); (3086, 3088); (3090, 3112); (3114, 3129);
   (3133, 3133); (3160, 3162); (3165, 3165); (3168, 3169); (3174, 3183);
   (3192, 3198); (3200, 3200); (3205, 3212); (3214, 3216); (3218, 3240);
   (3242, 3251); (3253, 3257); (3261, 3261); (3293, 3294); (3296, 3297);
   (3302, 3311); (3313, 3314); (3332, 3340); (3342, 3344); (3346, 3386);
   (3389, 3389); (3406, 3406); (3412, 3414); (3416, 3425); (3430, 3448);
   (3450, 3455); (3461, 3478); (3482, 3505); (3507, 3515); (3517, 3517);
   (3520, 3526); (3558, 3567); (3585, 3632); (3634, 3635); (3648, 3654);
   (3664, 3673); (3713, 3714); (3716, 3716); (3718, 3722); (3724, 3747);
   (3749, 3749); (3751, 3760); (3762, 3763); (3773, 3773); (3776, 3780);
   (3782, 3782); (3792, 3801); (3804, 3807); (3840, 3840); (3872, 3891);
   (3904, 3911); (3913, 3948); (3976, 3980); (4096, 4138); (4159, 4169);
   (4176, 4181); (4186, 4189); (4193, 4193); (4197, 4198); (4206, 4208);
   (4213, 4225); (4238, 4238); (4240, 4249); (4256, 4293); (4295, 4295);
   (4301, 4301); (4304, 4346); (4348, 4680); (4682, 4685); (4688, 4694);
   (4696, 4696); (4698, 4701); (4704, 4744); (4746, 4749); (4752, 4784);
   (4786, 4789); (4792, 4798); (4800, 4800); (4802, 4805); (4808, 4822);
   (4824, 4880); (4882, 4885); (4888, 4954); (4969, 4988); (4992, 5007);
   (5024, 5109); (5112, 5117); (5121, 5740); (5743, 5759); (5761, 5786);
   (5792, 5866); (5870, 5880); (5888, 5905); (5919, 5937); (5952, 5969);
   (5984, 5996); (5998, 6000); (6016, 6067); (6103, 6103); (6108, 6108);
   (6112, 6121); (6128, 6137); (6160, 6169); (6176, 6264); (6272, 6276);
   (6279, 6312); (6314, 6314); (6320, 6389); (6400, 6430); (6470, 6509);
   (6512, 6516); (6528, 6571); (6576, 6601); (6608, 6618); (6656, 6678);
   (6688, 6740); (6784, 6793); (6800, 6809); (6823, 6823); (6917, 6963);
   (6981, 6988); (6992, 7001); (7043, 7072); (7086, 7141); (7168, 7203);
   (7232, 7241); (7245, 7293); (7296, 7304); (7312, 7354); (7357, 7359);
   (7401, 7404); (7406, 7411); (7413, 7414); (7418, 7418); (7424, 7615);
   (7680, 7957); (7960, 7965); (7968, 8005); (8008, 8013); (8016, 8023);
   (8025, 8025); (8027, 8027); (8029, 8029); (8031, 8061); (8064, 8116);
   (8118, 8124); (8126, 8126); (8130, 8132); (8134, 8140); (8144, 8147);
   (8150, 8155); (8160, 8172); (8178, 8180); (8182, 8188); (8304, 8305);
   (8308, 8313); (8319, 8329); (8336, 8348); (8450, 8450); (8455, 8455);
   (8458, 8467); (8469, 8469); (8473, 8477); (8484, 8484); (8486, 8486);
   (8488, 8488); (8490, 8493); (8495, 8505); (8508, 8511); (8517, 8521);
   (8526, 8526); (8528, 8585); (9312, 9371); (9450, 9471); (10102, 10131);
   (11264, 11492); (11499, 11502); (11506, 11507); (11517, 11517);
   (11520, 11557); (11559, 11559); (11565, 11565); (11568, 11623);
   (11631, 11631); (11648, 11670); (11680, 11686); (11688, 11694);
   (11696, 11702); (11704, 11710); (11712, 11718); (11720, 11726);
   (11728, 11734); (11736, 11742); (11823, 11823); (12293, 12295);
   (12321, 12329); (12337, 12341); (12344, 12348); (12353, 12438);
   (12445, 12447); (12449, 12538); (12540, 12543); (12549, 12591);
   (12593, 12686); (12690, 12693); (12704, 12735); (12784, 12799);
   (12832, 12841); (12872, 12879); (12881, 12895); (12928, 12937);
   (12977, 12991); (13312, 19903); (19968, 42124); (42192, 42237);
   (42240, 42508); (42512, 42539); (42560, 42606); (42623, 42653);
   (42656, 42735); (42775, 42783); (42786, 42888); (42891, 42954);
   (42960, 42961); (42963, 42963); (42965, 42969); (42994, 43009);
   (43011, 43013); (43015, 43018); (43020, 43042); (43056, 43061);
   (43072, 43123); (43138, 43187); (43216, 43225); (43250, 43255);
   (43259, 43259); (43261, 43262); (43264, 43301); (43312, 43334);
   (43360, 43388); (43396, 43442); (43471, 43481); (43488, 43492);
   (43494, 43518); (43520, 43560); (43584, 43586); (43588, 43595);
   (43600, 43609); (43616, 43638); (43642, 43642); (43646, 43695);
   (43697, 43697); (43701, 43702); (43705, 43709); (43712, 43712);
   (43714, 43714); (43739, 43741); (43744, 43754); (43762, 43764);
   (43777, 43782); (43785, 43790); (43793, 43798); (43808, 43814);
   (43816, 43822); (43824, 43866); (43868, 43881); (43888, 44002);
   (44016, 44025); (44032, 55203); (55216, 55238); (55243, 55291);
   (63744, 64109); (64112, 64217); (64256, 64262); (64275, 64279);
   (64285, 64285); (64287, 64296); (64298, 64310); (64312, 64316);
   (64318, 64318); (64320, 64321); (64323, 64324); (64326, 64433);
   (64467, 64829); (64848, 64911); (64914, 64967); (65008, 65019);
   (65136, 65140); (65142, 65276); (65296, 65305); (65313, 65338);
   (65345, 65370); (65382, 65470); (65474, 65479); (65482, 65487);
   (65490, 65495); (65498, 65500); (65536, 65547); (65549, 65574);
   (65576, 65594); (65596, 65597); (65599, 65613); (65616, 65629);
   (65664, 65786); (65799, 65843); (65856, 65912); (65930, 65931);
   (66176, 66204); (66208, 66256); (66273, 66299); (66304, 66339);
   (66349, 66378); (66384, 66421); (66432, 66461); (66464, 66499);
   (66504, 66511); (66513, 66517); (66560, 66717); (66720, 66729);
   (66736, 66771); (66776, 66811); (66816, 66855); (66864, 66915);
   (66928, 66938); (66940, 66954); (66956, 66962); (66964, 66965);
   (66967, 66977); (66979, 66993); (66995, 67001); (67003, 67004);
   (67072, 67382); (67392, 67413); (67424, 67431); (67456, 67461);
   (67463, 67504); (67506, 67514); (67584, 67589); (67592, 67592);
   (67594, 67637); (67639, 67640); (67644, 67644); (67647, 67669);
   (67672, 67702); (67705, 67742); (67751, 67759); (67808, 67826);
   (67828, 67829); (67835, 67867); (67872, 67897); (67968, 68023);
   (68028, 68047); (68050, 68096); (68112, 68115); (68117, 68119);
   (68121, 68149); (68160, 68168); (68192, 68222); (68224, 68255);
   (68288, 68295); (68297, 68324); (68331, 68335); (68352, 68405);
   (68416, 68437); (68440, 68466); (68472, 68497); (68521, 68527);
   (68608, 68680); (68736, 68786); (68800, 68850); (68858, 68899);
   (68912, 68921); (69216, 69246); (69248, 69289); (69296, 69297);
   (69376, 69415); (69424, 69445); (69457, 69460); (69488, 69505);
   (69552, 69579); (69600, 69622); (69635, 69687); (69714, 69743);
   (69745, 69746); (69749, 69749); (69763, 69807); (69840, 69864);
   (69872, 69881); (69891, 69926); (69942, 69951); (69956, 69956);
   (69959, 69959); (69968, 70002); (70006, 70006); (70019, 70066);
   (70081, 70084); (70096, 70106); (70108, 70108); (70113, 70132);
   (70144, 70161); (70163, 70187); (70272, 70278); (70280, 70280);
   (70282, 70285); (70287, 70301); (70303, 70312); (70320, 70366);
   (70384, 70393); (70405, 70412); (70415, 70416); (70419, 70440);
   (70442, 70448); (70450, 70451); (70453, 70457); (70461, 70461);
   (70480, 70480); (70493, 70497); (70656, 70708); (70727, 70730);
   (70736, 70745); (70751, 70753); (70784, 70831); (70852, 70853);
   (70855, 70855); (70864, 70873); (71040, 71086); (71128, 71131);
   (71168, 71215); (71236, 71236); (71248, 71257); (71296, 71338);
   (71352, 71352); (71360, 71369); (71424, 71450); (71472, 71483);
   (71488, 71494); (71680, 71723); (71840, 71922); (71935, 71942);
   (71945, 71945); (71948, 71955); (71957, 71958); (71960, 71983);
   (71999, 71999); (72001, 72001); (72016, 72025); (72096, 72103);
   (72106, 72144); (72161, 72161); (72163, 72163); (72192, 72192);
   (72203, 72242); (72250, 72250); (72272, 72272); (72284, 72329);
   (72349, 72349); (72368, 72440); (72704, 72712); (72714, 72750);
   (72768, 72768); (72784, 72812); (72818, 72847); (72960, 72966);
   (72968, 72969); (72971, 73008); (73030, 73030); (73040, 73049);
   (73056, 73061); (73063, 73064); (73066, 73097); (73112, 73112);
   (73120, 73129); (73440, 73458); (73648, 73648); (73664, 73684);
   (73728, 74649); (74752, 74862); (74880, 75075); (77712, 77808);
   (77824, 78894); (82944, 83526); (92160, 92728); (92736, 92766);
   (92768, 92777); (92784, 92862); (92864, 92873); (92880, 92909);
   (92928, 92975); (92992, 92995); (93008, 93017); (93019, 93025);
   (93027, 93047); (93053, 93071); (93760, 93846); (93952, 94026);
   (94032, 94032); (94099, 94111); (94176, 94177); (94179, 94179);
   (94208, 100343); (100352, 101589); (101632, 101640); (110576, 110579);
   (110581, 110587); (110589, 110590); (110592, 110882); (110928, 110930);
   (110948, 110951); (110960, 111355); (113664, 113770); (113776, 113788);
   (113792, 113800); (113808, 113817); (119520, 119539); (119648, 119672);
   (119808, 119892); (119894, 119964); (119966, 119967); (119970, 119970);
   (119973, 119974); (119977, 119980); (119982, 119993); (119995, 119995);
   (119997, 120003); (120005, 120069); (120071, 120074); (120077, 120084);
   (120086, 120092); (120094, 120121); (120123, 120126); (120128, 120132);
   (120134, 120134); (120138, 120144); (120146, 120485); (120488, 120512);
   (120514, 120538); (120540, 120570); (120572, 120596); (120598, 120628);
   (120630, 120654); (120656, 120686); (120688, 120712); (120714, 120744);
   (120746, 120770); (120772, 120779); (120782, 120831); (122624, 122654);
   (123136, 123180); (123191, 123197); (123200, 123209); (123214, 123214);
   (123536, 123565); (123584, 123627); (123632, 123641); (124896, 124902);
   (124904, 124907); (124909, 124910); (124912, 124926); (124928, 125124);
   (125127, 125135); (125184, 125251); (125259, 125259); (125264, 125273);
   (126065, 126123); (126125, 126127); (126129, 126132); (126209, 126253);
   (126255, 126269); (126464, 126467); (126469, 126495); (126497, 126498);
   (126500, 126500); (126503, 126503); (126505, 126514); (126516, 126519);
   (126521, 126521); (126523, 126523); (126530, 126530); (126535, 126535);
   (126537, 126537); (126539, 126539); (126541, 126543); (126545, 126546);
   (126548, 126548); (126551, 126551); (126553, 126553); (126555, 126555);
   (126557, 126557); (126559, 126559); (126561, 126562); (126564, 126564);
   (126567, 126570); (126572, 126578); (126580, 126583); (126585, 126588);
   (126590, 126590); (126592, 126601); (126603, 126619); (126625, 126627);
   (126629, 126633); (126635, 126651); (127232, 127244); (130032, 130041);
   (131072, 173791); (173824, 177976); (177984, 178205); (178208, 183969);
   (183984, 191456); (194560, 195101); (196608, 201546)]%N.

Definition in_ranges (ranges : list (N * N)) (c : N) : bool :=
  existsb (fun r => (fst r <=? c) && (c <=? snd r))%N ranges.

(** [\d], [\s] and [\w] of a [str] pattern: [str.isdecimal], [str.isspace],
    and [str.isalnum] or the underscore. *)
Definition in_class (k c : N) : bool :=
  match k with
  | 0%N => in_ranges decimal_ranges c
  | 1%N => isspace c
  | _ => in_ranges word_ranges c
  end.

Definition ignorecase (fl : N) : bool := N.testbit fl 1.
Definition multiline (fl : N) : bool := N.testbit fl 3.

Definition chr_match (fl : N) (c x : N) : bool :=
  if ignorecase fl then (lower c =? lower x)%N else (c =? x)%N.

Definition in_range (lo hi x : N) : bool := ((lo <=? x) && (x <=? hi))%N.

Definition item_match (fl : N) (it : set_item) (x : N) : bool :=
  match it with
  | IChar c => chr_match fl c x
  | IRange lo hi =>
    if ignorecase fl
    then in_range lo hi x || in_range lo hi (lower x)
         || in_range lo hi (upper (lower x))
    else in_range lo hi x
  | IClass neg k => xorb neg (in_class k x)
  end.

Definition set_match (fl : N) (neg : bool) (items : list set_item) (x : N)
  : bool :=
  xorb neg (existsb (fun it => item_match fl it x) items).

(** *** The backtracking matcher

    A matcher state is a position in the subject: how many characters lie
    before it, the character just before it, the characters after it, and
    the groups captured so far (most recent first). *)
Record mstate : Type := mkState {
  pos : nat;
  prev : option N;
  rest : pystr;
  caps : list (nat * pystr)
}.

Definition advance (s : mstate) (x : N) (xs : pystr) : mstate :=
  mkState (S (pos s)) (Some x) xs (caps s).

Definition set_cap (i : nat) (v : pystr) (s : mstate) : mstate :=
  mkState (pos s) (prev s) (rest s) ((i, v) :: caps s).

(** One character, accepted by [p]. *)
Definition one (p : N -> bool) (s : mstate)
           (k : mstate -> option mstate) : option mstate :=
  match rest s with
  | x :: xs => if p x then k (advance s x xs) else None
  | [] => None
  end.

Definition is_nl (c : N) : bool := (c =? 10)%N.

(** [^]: the start of the subject, or with [MULTILINE] just after a newline. *)
Definition at_bol (fl : N) (s : mstate) : bool :=
  match prev s with
  | None => true
  | Some c => multiline fl && is_nl c
  end.

(** [$]: the end of the subject or just before its final newline; with
    [MULTILINE] before any newline. *)
Definition at_eol (fl : N) (s : mstate) : bool :=
  match rest s with
  | [] => true
  | c :: [] => is_nl c
  | c :: _ => multiline fl && is_nl c
  end.

Definition orelse (a b : option mstate) : option mstate :=
  match a with
  | Some x => Some x
  | None => b
  end.

Section Repeat.
(** [step s k]: match the repeated expression once from [s], then [k]. *)
Variable step : mstate -> (mstate -> option mstate) -> option mstate.

(** The [n] compulsory iterations. *)
Fixpoint rep_min (n : nat) (s : mstate) (k : mstate -> option mstate)
  : option mstate :=
  match n with
  | O => k s
  | S n' => step s (fun s' => rep_min n' s' k)
  end.

Definition spent (budget : option nat) : bool :=
  match budget with
  | Some O => true
  | _ => false
  end.

(** The optional iterations, at most [budget] of them.  An iteration that
    consumes nothing ends the loop, so [fuel], the number of characters
    left when the loop is entered, bounds the iterations: when it reaches
    [0] no character is left and no further iteration can advance.  [re]
    ends the loop there as well but keeps the groups that the empty
    iteration set, which are dropped here; the two agree on a repeated
    expression that cannot match the empty string ([consuming_repeats]
    below), as all those of the registry are. *)
Fixpoint rep_opt (greedy : bool) (fuel : nat) (budget : option nat)
         (s : mstate) (k : mstate -> option mstate) : option mstate :=
  match fuel with
  | O => k s
  | S fuel' =>
    if spent budget then k s
    else
      let more :=
        step s (fun s' =>
                  if pos s <? pos s'
                  then rep_opt greedy fuel' (option_map pred budget) s' k
                  else None) in
      if greedy then orelse more (k s) else orelse (k s) more
  end.
End Repeat.

(** Can the expression match the empty string? *)
Fixpoint nullable (r : regex) : bool :=
  match r with
  | Eps | Bol | Eol => true
  | Chr _ | Any | Cls _ _ | CSet _ _ => false
  | Seq a b => nullable a && nullable b
  | Alt a b => nullable a || nullable b
  | Rep a lo _ _ => (lo =? 0) || nullable a
  | Grp _ a => nullable a
  end.

(** No repeated expression of [r] can match the empty string. *)
Fixpoint consuming_repeats (r : regex) : bool :=
  match r with
  | Seq a b | Alt a b => consuming_repeats a && consuming_repeats b
  | Rep a _ _ _ => negb (nullable a) && consuming_repeats a
  | Grp _ a => consuming_repeats a
  | _ => true
  end.

(** [s'] is a position of the same subject at or after [s]. *)
Definition later (s s' : mstate) : Prop :=
  pos s <= pos s'
  /\ pos s' + List.length (rest s') = pos s + List.length (rest s).

(** [step] looks at its continuation on later positions only. *)
Definition local (step : mstate -> (mstate -> option mstate) -> option mstate)
  : Prop :=
  forall s k k',
    (forall s', later s s' -> k s' = k' s') -> step s k = step s k'.

(** [step] fails when its continuation always fails. *)
Definition strict (step : mstate -> (mstate -> option mstate) -> option mstate)
  : Prop :=
  forall s, step s (fun _ => None) = None.

Definition hi_budget (lo : nat) (hi : option nat) : option nat :=
  option_map (fun h => h - lo) hi.

(** [m fl r s k]: the first way, in the engine's priority order, to match
    [r] from [s] such that [k] accepts what follows. *)
Fixpoint m (fl : N) (r : regex) (s : mstate) (k : mstate -> option mstate)
  {struct r} : option mstate :=
  match r with
  | Eps => k s
  | Chr c => one (chr_match fl c) s k
  | Any => one (fun x => negb (is_nl x)) s k
  | Cls neg c => one (fun x => xorb neg (in_class c x)) s k
  | CSet neg items => one (set_match fl neg items) s k
  | Bol => if at_bol fl s then k s else None
  | Eol => if at_eol fl s then k s else None
  | Seq a b => m fl a s (fun s' => m fl b s' k)
  | Alt a b => orelse (m fl a s k) (m fl b s k)
  | Rep a lo hi greedy =>
    rep_min (m fl a) lo s
            (fun s' =>
               rep_opt (m fl a) greedy (List.length (rest s')) (hi_budget lo hi) s' k)
  | Grp i a =>
    m fl a s (fun s' => k (set_cap i (firstn (pos s' - pos s) (rest s)) s'))
  end.

Fixpoint lookup_cap (i : nat) (cs : list (nat * pystr)) : option pystr :=
  match cs with
  | [] => None
  | (j, v) :: cs' => if i =? j then Some v else lookup_cap i cs'
  end.

(** The match object of a successful attempt started at [s]. *)
Definition match_of (ngroups : nat) (s s' : mstate) : Match :=
  mkMatch (firstn (pos s' - pos s) (rest s))
          (map (fun i => lookup_cap i (caps s')) (seq 1 ngroups)).

(** Leftmost match: try every start position in turn. *)
Fixpoint search_from (fl : N) (r : regex) (ngroups : nat)
         (p : nat) (pv : option N) (text : pystr) : option Match :=
  let s := mkState p pv text [] in
  match m fl r s (fun s' => Some s') with
  | Some s' => Some (match_of ngroups s s')
  | None =>
    match text with
    | [] => None
    | x :: xs => search_from fl r ngroups (S p) (Some x) xs
    end
  end.

(** *** Pattern syntax

    The parser follows [sre_parse]: an item, then an optional repetition.
    Constructs outside the fragment (look-around, back-references, named
    groups, [\b], numeric escapes, possessive repetition) and malformed
    patterns give [None]. *)

Definition is_alnum (c : N) : bool := is_digit c || is_upper c || is_lower c.

(** The character written by a letter escape, inside or outside a set. *)
Definition letter_escape (in_set : bool) (c : N) : option N :=
  match c with
  | 97%N => Some 7%N      (* \a *)
  | 98%N => if in_set then Some 8%N else None   (* \b *)
  | 102%N => Some 12%N    (* \f *)
  | 110%N => Some 10%N    (* \n *)
  | 114%N => Some 13%N    (* \r *)
  | 116%N => Some 9%N     (* \t *)
  | 118%N => Some 11%N    (* \v *)
  | _ => if is_alnum c then None else Some c
  end.

(** [\d \D \s \S \w \W] *)
Definition category (c : N) : option (bool * N) :=
  match c with
  | 100%N => Some (false, 0%N)
  | 68%N => Some (true, 0%N)
  | 115%N => Some (false, 1%N)
  | 83%N => Some (true, 1%N)
  | 119%N => Some (false, 2%N)
  | 87%N => Some (true, 2%N)
  | _ => None
  end.

Definition escape (c : N) : option regex :=
  match category c with
  | Some (neg, k) => Some (Cls neg k)
  | None => option_map Chr (letter_escape false c)
  end.

Definition class_escape (c : N) : option set_item :=
  match category c with
  | Some (neg, k) => Some (IClass neg k)
  | None => option_map IChar (letter_escape true c)
  end.

(** One member of a set, before a possible range: the item and what
    follows it. *)
Definition set_code (s : pystr) : option (set_item * pystr) :=
  match s with
  | [] => None
  | 92%N :: [] => None
  | 92%N :: e :: s' => option_map (fun it => (it, s')) (class_escape e)
  | c :: s' => Some (IChar c, s')
  end.

(** A bracket closes the set unless it comes first: [this == "]" and set]. *)
Definition set_end (acc : list set_item) (s : pystr) : option pystr :=
  match s with
  | 93%N :: s' => if nonempty acc then Some s' else None
  | _ => None
  end.

(** The members of a set up to its closing bracket.  A closing bracket
    that comes first is a member like any other, and may start a range. *)
Fixpoint parse_set (fuel : nat) (acc : list set_item) (s : pystr)
  : option (list set_item * pystr) :=
  match fuel with
  | O => None
  | S fuel' =>
    match set_end acc s with
    | Some s' => Some (rev acc, s')
    | None =>
      match set_code s with
      | None => None
      | Some (c1, s1) =>
        match s1 with
        | 45%N :: 93%N :: s2 => Some (rev (IChar 45 :: c1 :: acc), s2)
        | 45%N :: s2 =>
          match set_code s2 with
          | Some (IChar hi, s3) =>
            match c1 with
            | IChar lo =>
              if (hi <? lo)%N then None
              else parse_set fuel' (IRange lo hi :: acc) s3
            | _ => None
            end
          | _ => None
          end
        | _ => parse_set fuel' (c1 :: acc) s1
        end
      end
    end
  end.

(** A run of decimal digits. *)
Fixpoint digits (acc : option nat) (s : pystr) : option nat * pystr :=
  match s with
  | c :: s' =>
    if is_digit c
    then digits (Some (10 * match acc with Some n => n | None => 0 end
                       + N.to_nat (c - 48))) s'
    else (acc, s)
  | [] => (acc, [])
  end.

(** [{lo,hi}] after its opening brace; [None] when the text is not a
    repetition, in which case the brace is an ordinary character. *)
Definition braces (s : pystr) : option (option nat * option nat * pystr) :=
  match s with
  | 125%N :: _ => None
  | _ =>
    let (lo, s1) := digits None s in
    let (hi, s2) :=
      match s1 with
      | 44%N :: s1' => digits None s1'
      | _ => (lo, s1)
      end in
    match s2 with
    | 125%N :: s3 => Some (lo, hi, s3)
    | _ => None
    end
  end.

Inductive quant : Type :=
| QNone
| QBad
| QRep (lo : nat) (hi : option nat) (s : pystr).

Definition parse_quant (s : pystr) : quant :=
  match s with
  | 42%N :: s' => QRep 0 None s'
  | 43%N :: s' => QRep 1 None s'
  | 63%N :: s' => QRep 0 (Some 1) s'
  | 123%N :: s' =>
    match braces s' with
    | None => QNone
    | Some (lo, hi, s'') =>
      let lo' := match lo with Some n => n | None => 0 end in
      match hi with
      | Some h => if h <? lo' then QBad else QRep lo' (Some h) s''
      | None => QRep lo' None s''
      end
    end
  | _ => QNone
  end.

(** The suffix of a repetition: [?] makes it lazy. *)
Definition parse_lazy (s : pystr) : option (bool * pystr) :=
  match s with
  | 63%N :: s' => Some (false, s')
  | 43%N :: _ => None
  | _ => Some (true, s)
  end.

Definition repeatable (a : regex) : bool :=
  match a with
  | Bol | Eol => false
  | _ => true
  end.

(** An item with the repetition that follows it, if any. *)
Definition with_quant (a : regex) (s : pystr) : option (regex * pystr) :=
  match parse_quant s with
  | QNone => Some (a, s)
  | QBad => None
  | QRep lo hi s' =>
    if repeatable a
    then
      match parse_lazy s' with
      | Some (greedy, s'') => Some (Rep a lo hi greedy, s'')
      | None => None
      end
    else None
  end.

(** [parse_alt fuel g s]: alternatives up to a closing parenthesis or the
    end of the pattern; [g] counts the groups opened so far. *)
Fixpoint parse_alt (fuel g : nat) (s : pystr) {struct fuel}
  : option (regex * nat * pystr) :=
  match fuel with
  | O => None
  | S fuel' =>
    match parse_seq fuel' g s with
    | Some (a, g1, 124%N :: s1) =>
      match parse_alt fuel' g1 s1 with
      | Some (b, g2, s2) => Some (Alt a b, g2, s2)
      | None => None
      end
    | other => other
    end
  end
with parse_seq (fuel g : nat) (s : pystr) {struct fuel}
  : option (regex * nat * pystr) :=
  match fuel with
  | O => None
  | S fuel' =>
    let item : option (regex * nat * pystr) :=
      match s with
      | [] => None
      | 40%N :: 63%N :: 58%N :: s1 =>
        match parse_alt fuel' g s1 with
        | Some (a, g1, 41%N :: s2) => Some (a, g1, s2)
        | _ => None
        end
      | 40%N :: 63%N :: _ => None
      | 40%N :: s1 =>
        match parse_alt fuel' (S g) s1 with
        | Some (a, g1, 41%N :: s2) => Some (Grp (S g) a, g1, s2)
        | _ => None
        end
      | 91%N :: 94%N :: s1 =>
        match parse_set (List.length s1) [] s1 with
        | Some (items, s2) => Some (CSet true items, g, s2)
        | None => None
        end
      | 91%N :: s1 =>
        match parse_set (List.length s1) [] s1 with
        | Some (items, s2) => Some (CSet false items, g, s2)
        | None => None
        end
      | 92%N :: e :: s1 =>
        match escape e with
        | Some a => Some (a, g, s1)
        | None => None
        end
      | 92%N :: [] => None
      | 46%N :: s1 => Some (Any, g, s1)
      | 94%N :: s1 => Some (Bol, g, s1)
      | 36%N :: s1 => Some (Eol, g, s1)
      | c :: s1 =>
        match parse_quant s with
        | QNone => Some (Chr c, g, s1)
        | _ => None
        end
      end in
    match s with
    | [] => Some (Eps, g, s)
    | 41%N :: _ => Some (Eps, g, s)
    | 124%N :: _ => Some (Eps, g, s)
    | _ =>
      match item with
      | None => None
      | Some (a, g1, s1) =>
        match with_quant a s1 with
        | None => None
        | Some (a', s2) =>
          match parse_seq fuel' g1 s2 with
          | Some (b, g2, s3) => Some (Seq a' b, g2, s3)
          | None => None
          end
        end
      end
    end
  end.

(** [re.compile]: the expression and its number of groups. *)
Definition compile (pattern : pystr) : option (regex * nat) :=
  match parse_alt (2 * List.length pattern + 2) 0 pattern with
  | Some (r, g, []) => Some (r, g)
  | _ => None
  end.

(** [re.search(pattern, string, flags)].  For a pattern outside the
    fragment the result is [None], which says nothing of what [re] does
    with it; every pattern of the registry is inside
    ([every_pattern_compiles] below), and what is proved of [search] is
    stated for those. *)
Definition search (pattern text : pystr) (flags : N) : option Match :=
  match compile pattern with
  | Some (r, g) => search_from flags r g 0 None text
  | None => None
  end.

End Re.

(* ------------------------------------------------------------------ *)
(** ** [StatementData] and [CreditCardParser] *)

Module Parser.

(** The eight optional attributes of [StatementData]; they are the keys a
    profile's ['patterns'] table may use. *)
Inductive field : Type :=
| CardNumber
| StatementDate
| PaymentDueDate
| TotalAmountDue
| MinimumAmountDue
| CreditLimit
| AvailableCredit
| PreviousBalance.

Definition field_name (f : field) : pystr :=
  match f with
  | CardNumber => str "card_number"
  | StatementDate => str "statement_date"
  | PaymentDueDate => str "payment_due_date"
  | TotalAmountDue => str "total_amount_due"
  | MinimumAmountDue => str "minimum_amount_due"
  | CreditLimit => str "credit_limit"
  | AvailableCredit => str "available_credit"
  | PreviousBalance => str "previous_balance"
  end.

Definition all_fields : list field :=
  [CardNumber; StatementDate; PaymentDueDate; TotalAmountDue;
   MinimumAmountDue; CreditLimit; AvailableCredit; PreviousBalance].

Record StatementData : Type := mkStatementData {
  file_name : pystr;
  issuer : pystr;
  card_number : option pystr;
  statement_date : option pystr;
  payment_due_date : option pystr;
  total_amount_due : option pystr;
  minimum_amount_due : option pystr;
  credit_limit : option pystr;
  available_credit : option pystr;
  previous_balance : option pystr;
  parsing_status : pystr;
  errors : list pystr
}.

(** [StatementData(file_name=.., issuer=.., parsing_status=.., errors=..)]:
    every field attribute defaults to [None]; [__post_init__] replaces a
    missing [errors] by the empty list. *)
Definition StatementData_init (file_name issuer parsing_status : pystr)
           (errors : option (list pystr)) : StatementData :=
  mkStatementData file_name issuer None None None None None None None None
                  parsing_status
                  (match errors with Some l => l | None => [] end).

Definition getattr (d : StatementData) (f : field) : option pystr :=
  match f with
  | CardNumber => card_number d
  | StatementDate => statement_date d
  | PaymentDueDate => payment_due_date d
  | TotalAmountDue => total_amount_due d
  | MinimumAmountDue => minimum_amount_due d
  | CreditLimit => credit_limit d
  | AvailableCredit => available_credit d
  | PreviousBalance => previous_balance d
  end.

Definition setattr (d : StatementData) (f : field) (v : pystr)
  : StatementData :=
  let 'mkStatementData fn iss cn sd pd ta ma cl ac pb st er := d in
  match f with
  | CardNumber => mkStatementData fn iss (Some v) sd pd ta ma cl ac pb st er
  | StatementDate => mkStatementData fn iss cn (Some v) pd ta ma cl ac pb st er
  | PaymentDueDate => mkStatementData fn iss cn sd (Some v) ta ma cl ac pb st er
  | TotalAmountDue => mkStatementData fn iss cn sd pd (Some v) ma cl ac pb st er
  | MinimumAmountDue => mkStatementData fn iss cn sd pd ta (Some v) cl ac pb st er
  | CreditLimit => mkStatementData fn iss cn sd pd ta ma (Some v) ac pb st er
  | AvailableCredit => mkStatementData fn iss cn sd pd ta ma cl (Some v) pb st er
  | PreviousBalance => mkStatementData fn iss cn sd pd ta ma cl ac (Some v) st er
  end.

Definition set_errors (d : StatementData) (er : list pystr) : StatementData :=
  let 'mkStatementData fn iss cn sd pd ta ma cl ac pb st _ := d in
  mkStatementData fn iss cn sd pd ta ma cl ac pb st er.

Definition set_parsing_status (d : StatementData) (st : pystr)
  : StatementData :=
  let 'mkStatementData fn iss cn sd pd ta ma cl ac pb _ er := d in
  mkStatementData fn iss cn sd pd ta ma cl ac pb st er.

(** One entry of [PARSERS]: the ['identifier'] list and the ['patterns']
    table, in the order they are written. *)
Record config : Type := mkConfig {
  identifier : list pystr;
  patterns : list (field * list pystr)
}.

Definition critical_fields : list field :=
  [CardNumber; TotalAmountDue; PaymentDueDate].

Definition is_none {A} (o : option A) : bool :=
  match o with None => true | Some _ => false end.

Section CreditCardParser.

(** [re.search(pattern, string, flags)] *)
Variable re_search : pystr -> pystr -> N -> option Match.

(** The registry: issuer name to configuration, in insertion order. *)
Variable PARSERS : list (pystr * config).

(** The PDF library: [pdfplumber.open(path)] with its [pages], and
    [page.extract_text()], either of which may raise. *)
Variables Path Page : Type.
Variable path_name : Path -> pystr.
Variable pdfplumber_open : Path -> result (list Page).
Variable page_extract_text : Page -> result (option pystr).

(** [text += page.extract_text() or ""] over the pages. *)
Fixpoint read_pages (pages : list Page) (text : pystr) : result pystr :=
  match pages with
  | [] => Ok text
  | page :: pages' =>
    t <- page_extract_text page ;;
    read_pages pages' (text ++ (if truthy t
                                then match t with Some x => x | None => [] end
                                else []))
  end.

Definition extract_text_from_pdf (pdf_path : Path) : result pystr :=
  match (pdf <- pdfplumber_open pdf_path ;; read_pages pdf []) with
  | Ok text => Ok text
  | Raise e => Raise (str "Failed to extract text from PDF: " ++ e)
  end.

(** The inner loop of [identify_issuer]: does one of the identifier
    patterns, tried in order, find a match? *)
Fixpoint any_identifier (idents : list pystr) (text : pystr) : bool :=
  match idents with
  | [] => false
  | pattern :: idents' =>
    if is_none (re_search pattern text IGNORECASE)
    then any_identifier idents' text
    else true
  end.

Fixpoint identify_in (parsers : list (pystr * config)) (text : pystr)
  : option pystr :=
  match parsers with
  | [] => None
  | (issuer, config) :: parsers' =>
    if any_identifier (identifier config) text then Some issuer
    else identify_in parsers' text
  end.

Definition identify_issuer (text : pystr) : option pystr :=
  identify_in PARSERS text.

(** A profile is recognised in [text] when a case-insensitive search
    finds one of its identifier patterns. *)
Definition recognised (c : config) (text : pystr) : Prop :=
  exists p, In p (identifier c) /\ re_search p text IGNORECASE <> None.

(** [groups[-1] if groups else match.group(0)] *)
Definition match_value (m : Match) : option pystr :=
  match groups m with
  | [] => Some (group0 m)
  | g :: gs => last (g :: gs) None
  end.

Fixpoint extract_field (text : pystr) (patterns : list pystr)
  : option pystr :=
  match patterns with
  | [] => None
  | pattern :: patterns' =>
    match re_search pattern text (N.lor IGNORECASE MULTILINE) with
    | Some m => match_value m
    | None => extract_field text patterns'
    end
  end.

(** [self.PARSERS[issuer]] *)
Fixpoint getitem (parsers : list (pystr * config)) (key : pystr)
  : result config :=
  match parsers with
  | [] => Raise (str "'" ++ key ++ str "'")
  | (k, c) :: parsers' => if eqb k key then Ok c else getitem parsers' key
  end.

(** The diagnostic [f"Could not extract {field}"]. *)
Definition diagnostic (f : field) : pystr :=
  str "Could not extract " ++ field_name f.

(** The loop over [config['patterns'].items()]: the record and the
    diagnostics after the given entries. *)
Fixpoint extract_all (text : pystr) (items : list (field * list pystr))
         (data : StatementData) (errs : list pystr)
  : StatementData * list pystr :=
  match items with
  | [] => (data, errs)
  | (f, pats) :: items' =>
    let value := extract_field text pats in
    if truthy value
    then extract_all text items'
                     (setattr data f
                              (strip (match value with
                                      | Some v => v
                                      | None => []
                                      end)))
                     errs
    else extract_all text items' data
                     (errs ++ [diagnostic f])
  end.

(** The entries of a ['patterns'] table for which a diagnostic is
    recorded: those whose extraction gives [None] or the empty string. *)
Definition missing (text : pystr) (fp : field * list pystr) : bool :=
  negb (truthy (extract_field text (snd fp))).

(** [all(getattr(data, f) is None for f in critical_fields)] *)
Definition no_critical (data : StatementData) : bool :=
  forallb (fun f => is_none (getattr data f)) critical_fields.

(** The [if errors:] block that ends [parse_statement]. *)
Definition classify (data : StatementData) (errs : list pystr)
  : StatementData :=
  if nonempty errs
  then
    let data := set_errors data errs in
    if no_critical data
    then set_parsing_status data (str "failed")
    else set_parsing_status data (str "partial")
  else data.

(** The [try] body of [parse_statement] once the text is read. *)
Definition parse_text (file_name text : pystr) : result StatementData :=
  match identify_issuer text with
  | Some (c :: cs) =>
    let issuer := c :: cs in
    config <- getitem PARSERS issuer ;;
    let data := StatementData_init file_name issuer (str "success") None in
    let (data, errs) := extract_all text (patterns config) data [] in
    Ok (classify data errs)
  | _ =>
    Ok (StatementData_init file_name (str "Unknown") (str "failed")
          (Some [str "Could not identify credit card issuer"]))
  end.

Definition parse_body (file_name : pystr) (pdf_path : Path)
  : result StatementData :=
  text <- extract_text_from_pdf pdf_path ;;
  parse_text file_name text.

Definition parse_statement (pdf_path : Path) : StatementData :=
  let file_name := path_name pdf_path in
  try_except (parse_body file_name pdf_path)
             (fun e => StatementData_init file_name (str "Error")
                                          (str "error") (Some [e])).

(** The parser object: [self.results], and what has been printed. *)
Record parser_state : Type := mkParser {
  results : list StatementData;
  stdout : list pystr
}.

(** [sys.stdout.write(line)], given what was printed before: the stream
    takes the line, or raises ([UnicodeEncodeError] when its encoding
    lacks one of the characters, [OSError] when it is closed). *)
Variable write_stdout : list pystr -> pystr -> result unit.

(** [print(line)]: a line the stream refuses is not printed, and the
    exception is the caller's. *)
Definition print (line : pystr) (st : parser_state) : result parser_state :=
  match write_stdout (stdout st) line with
  | Ok _ => Ok (mkParser (results st) (stdout st ++ [line]))
  | Raise e => Raise e
  end.

Definition status_symbol (r : StatementData) : pystr :=
  if eqb (parsing_status r) (str "success") then str "✓"
  else if eqb (parsing_status r) (str "partial") then str "⚠"
       else str "✗".

(** [f"Processing: {pdf_path.name}..."] *)
Definition progress_line (pdf_path : Path) : pystr :=
  str "Processing: " ++ path_name pdf_path ++ str "...".

(** [f"  {status_symbol} {result.issuer} - {result.parsing_status}"] *)
Definition status_line (result : StatementData) : pystr :=
  str "  " ++ status_symbol result ++ str " " ++ issuer result
  ++ str " - " ++ parsing_status result.

(** The two lines printed for each document of a list. *)
Definition batch_lines (pdf_paths : list Path) : list pystr :=
  flat_map (fun p => [progress_line p; status_line (parse_statement p)])
           pdf_paths.

(** How the loop of [parse_multiple] leaves the parser object: at its
    end, or through an exception, which nothing in [parse_multiple]
    catches. *)
Inductive outcome : Type :=
| Completed (st : parser_state)
| Escaped (e : pystr) (st : parser_state).

(** One iteration of the loop of [parse_multiple]: neither [print] is
    inside a [try]; the record is appended before the second one. *)
Definition process (st : parser_state) (pdf_path : Path) : outcome :=
  match print (progress_line pdf_path) st with
  | Raise e => Escaped e st
  | Ok st =>
    let result := parse_statement pdf_path in
    let st := mkParser (results st ++ [result]) (stdout st) in
    match print (status_line result) st with
    | Raise e => Escaped e st
    | Ok st => Completed st
    end
  end.

(** The [for] loop: an exception ends it. *)
Fixpoint process_all (pdf_paths : list Path) (st : parser_state) : outcome :=
  match pdf_paths with
  | [] => Completed st
  | pdf_path :: rest =>
    match process st pdf_path with
    | Completed st => process_all rest st
    | Escaped e st => Escaped e st
    end
  end.

(** [parse_multiple]: the returned list, or the exception that escaped,
    and the parser object afterwards. *)
Definition parse_multiple (pdf_paths : list Path) (st : parser_state)
  : result (list StatementData) * parser_state :=
  let st := mkParser [] (stdout st) in
  match process_all pdf_paths st with
  | Completed st => (Ok (results st), st)
  | Escaped e st => (Raise e, st)
  end.

(** The stream takes every line the loop prints, from the output [out]
    on. *)
Fixpoint prints_accepted (out : list pystr) (pdf_paths : list Path) : Prop :=
  match pdf_paths with
  | [] => True
  | pdf_path :: rest =>
    let l1 := progress_line pdf_path in
    let l2 := status_line (parse_statement pdf_path) in
    write_stdout out l1 = Ok tt
    /\ write_stdout (out ++ [l1]) l2 = Ok tt
    /\ prints_accepted (out ++ [l1; l2]) rest
  end.

End CreditCardParser.

(** The counters at the end of [main]:
    [sum(1 for r in results if r.parsing_status == status)]. *)
Definition count_status (status : pystr) (results : list StatementData)
  : nat :=
  List.length (filter (fun r => eqb (parsing_status r) status) results).

(** [total], [success], [partial] and [failed], as [main] prints them. *)
Definition main_statistics (results : list StatementData)
  : nat * nat * nat * nat :=
  (List.length results,
   count_status (str "success") results,
   count_status (str "partial") results,
   count_status (str "failed") results).

End Parser.

(* ------------------------------------------------------------------ *)
(** ** The registry of [main.py] and the parser run on it *)

Module Main.
Import Parser.

Definition ICICI_Bank : config :=
  mkConfig
    [str "ICICI\s+Bank";
     str "icicibank\.com";
     str "CIN.*L65190GJ1994PLC021012"]
    [(CardNumber,
      [str "(\d{4}[X]{8}\d{4})";
       str "(\d{16})"]);
     (StatementDate,
      [str "STATEMENT\s+DATE[:\s]*(\d{1,2}\s+\w+,?\s+\d{4})";
       str "Statement\s+period\s*:.*to\s+(\w+\s+\d{1,2},\s+\d{4})"]);
     (PaymentDueDate,
      [str "PAYMENT\s+DUE\s+DATE[:\s]*(\d{1,2}\s+\w+,?\s+\d{4})";
       str "Payment\s+Due\s+Date[:\s]*(\w+\s+\d{1,2},\s+\d{4})"]);
     (TotalAmountDue,
      [str "Total\s+Amount\s+due[:\s]*[₹`Rs\.?\s]*([0-9,]+\.?\d{0,2})";
       str "Total\s+Payment\s+Due[:\s]*[₹`Rs\.?\s]*([0-9,]+\.?\d{0,2})"]);
     (MinimumAmountDue,
      [str "Minimum\s+Amount\s+due[:\s]*[₹`Rs\.?\s]*([0-9,]+\.?\d{0,2})";
       str "Minimum\s+Payment\s+Due[:\s]*[₹`Rs\.?\s]*([0-9,]+\.?\d{0,2})"]);
     (CreditLimit,
      [str "Credit\s+Limit\s*\(Including\s+cash\)[:\s]*[₹`Rs\.?\s]*([0-9,]+\.?\d{0,2})";
       str "Credit\s+Limit[:\s]*[₹`Rs\.?\s]*([0-9,]+\.?\d{0,2})"]);
     (AvailableCredit,
      [str "Available\s+Credit\s*\(Including\s+cash\)[:\s]*[₹`Rs\.?\s]*([0-9,]+\.?\d{0,2})"]);
     (PreviousBalance,
      [str "Previous\s+Balance[:\s]*[₹`Rs\.?\s]*([0-9,]+\.?\d{0,2})"])].

Definition Axis_Bank : config :=
  mkConfig
    [str "Axis\s+Bank";
     str "axisbank\.com";
     str "AAACU2414K3ZD"]
    [(CardNumber,
      [str "Card\s+No[:\s]*(\d{8}\*{4}\d{4})";
       str "Card\s+No[:\s]*(\d{14}\*{4}\d{4})";
       str "Credit\s+Card\s+Number[:\s]*(\d{8}\*{4}\d{4})"]);
     (StatementDate,
      [str "Statement\s+Generation\s+Date[:\s]*(\d{2}[\/\-]\d{2}[\/\-]\d{4})";
       str "(\d{2}[\/\-]\d{2}[\/\-]\d{4})\s*-\s*(\d{2}[\/\-]\d{2}[\/\-]\d{4})"]);
     (PaymentDueDate,
      [str "Payment\s+Due\s+Date[:\s]*(\d{2}[\/\-]\d{2}[\/\-]\d{4})"]);
     (TotalAmountDue,
      [str "Total\s+Payment\s+Due[:\s]*([0-9,]+\.?\d{0,2})\s*Dr";
       str "Total\s+Amount\s+Due[:\s]*([0-9,]+\.?\d{0,2})"]);
     (MinimumAmountDue,
      [str "Minimum\s+Payment\s+Due[:\s]*([0-9,]+\.?\d{0,2})\s*Dr";
       str "Minimum\s+Amount\s+Due[:\s]*([0-9,]+\.?\d{0,2})"]);
     (CreditLimit,
      [str "Credit\s+Limit[:\s]*([0-9,]+\.?\d{0,2})"]);
     (AvailableCredit,
      [str "Available\s+Credit\s+Limit[:\s]*([0-9,]+\.?\d{0,2})"]);
     (PreviousBalance,
      [str "Previous\s+Balance[:\s]*-?\s*([0-9,]+\.?\d{0,2})\s*Dr"])].

Definition IDFC_FIRST_Bank : config :=
  mkConfig
    [str "IDFC\s+FIRST\s+Bank";
     str "idfcfirstbank\.com";
     str "IDFB0010225"]
    [(CardNumber,
      [str "Card\s+Number[:\s]*XXXX\s*(\d{4})";
       str "Account\s+Number[:\s]*(\d+)"]);
     (StatementDate,
      [str "(\d{2}\/\d{2}\/\d{4})\s*-\s*(\d{2}\/\d{2}\/\d{4})"]);
     (PaymentDueDate,
      [str "Payment\s+Due\s+Date[:\s]*(\d{2}\/\d{2}\/\d{4})"]);
     (TotalAmountDue,
      [str "Total\s+Amount\s+Due[:\s]*r([0-9,]+\.?\d{0,2})"]);
     (MinimumAmountDue,
      [str "Minimum\s+Amount\s+Due[:\s]*r([0-9,]+\.?\d{0,2})"]);
     (CreditLimit,
      [str "Credit\s+Limit[:\s]*r([0-9,]+\.?\d{0,2})"]);
     (AvailableCredit,
      [str "Available\s+Credit\s+Limit[:\s]*r([0-9,]+\.?\d{0,2})"])].

Definition RBL_Bank : config :=
  mkConfig
    [str "RBL\s+Bank";
     str "rblbank\.com";
     str "L65191PN1943PLC007308"]
    [(CardNumber,
      [str "(\d{4}\s*XXXX\s*XXXX\s*\d{4})";
       str "(\d{4}\s*X{4}\s*X{4}\s*\d{4})"]);
     (StatementDate,
      [str "(\d{2}\/\d{2}\/\d{4})\s*to\s*(\d{2}\/\d{2}\/\d{4})"]);
     (PaymentDueDate,
      [str "Immediate(\d{2}\/\d{2}\/\d{4})"]);
     (TotalAmountDue,
      [str "([0-9,]+\.?\d{0,2})\s*\n\s*([0-9,]+\.?\d{0,2})\s*\n\s*0\.00"]);
     (MinimumAmountDue,
      [str "Minimum[^0-9]*([0-9,]+\.?\d{0,2})"]);
     (CreditLimit,
      [str "([0-9,]+\.?\d{0,2})\s*0\.00\s*0\.00"])].

Definition American_Express : config :=
  mkConfig
    [str "American\s+Express";
     str "americanexpress\.com";
     str "AMEX"]
    [(CardNumber,
      [str "Account\s+Ending\s*(\d-\d{5})";
       str "Card\s+Ending\s*(\d-\d{5})"]);
     (StatementDate,
      [str "Closing\s+Date[:\s]*(\d{2}\/\d{2}\/\d{2,4})"]);
     (PaymentDueDate,
      [str "Payment\s+Due\s+Date[:\s]*(\d{2}\/\d{2}\/\d{2,4})"]);
     (TotalAmountDue,
      [str "New\s+Balance[:\s]*\$([0-9,]+\.?\d{0,2})";
       str "Total[:\s]*\$([0-9,]+\.?\d{0,2})"]);
     (MinimumAmountDue,
      [str "Minimum\s+Payment\s+Due[:\s]*\$([0-9,]+\.?\d{0,2})"]);
     (CreditLimit,
      [str "Pay\s+Over\s+Time\s+Limit[:\s]*\$([0-9,]+\.?\d{0,2})";
       str "Credit\s+Limit[:\s]*\$([0-9,]+\.?\d{0,2})"]);
     (AvailableCredit,
      [str "Available\s+Pay\s+Over\s+Time\s+Limit[:\s]*\$([0-9,]+\.?\d{0,2})"]);
     (PreviousBalance,
      [str "Previous\s+Balance[:\s]*\$([0-9,]+\.?\d{0,2})"])].

Definition PARSERS : list (pystr * config) :=
  [(str "ICICI Bank", ICICI_Bank);
   (str "Axis Bank", Axis_Bank);
   (str "IDFC FIRST Bank", IDFC_FIRST_Bank);
   (str "RBL Bank", RBL_Bank);
   (str "American Express", American_Express)].

(** A document as the PDF library presents it: its name, and either the
    reason it cannot be opened or its pages, each of which gives text, gives
    nothing, or fails. *)
Record document : Type := mkDocument {
  doc_name : pystr;
  doc_pages : result (list (result (option pystr)))
}.

Definition page_text (page : result (option pystr)) : result (option pystr) :=
  page.

(** A readable one-page document. *)
Definition text_document (name text : pystr) : document :=
  mkDocument name (Ok [Ok (Some text)]).

(** A document the PDF library refuses with the given message. *)
Definition broken_document (name msg : pystr) : document :=
  mkDocument name (Raise msg).

Definition identify_issuer : pystr -> option pystr :=
  Parser.identify_issuer Re.search PARSERS.

Definition extract_field : pystr -> list pystr -> option pystr :=
  Parser.extract_field Re.search.

Definition extract_text_from_pdf : document -> result pystr :=
  Parser.extract_text_from_pdf doc_pages page_text.

Definition parse_statement : document -> StatementData :=
  Parser.parse_statement Re.search PARSERS doc_name doc_pages page_text.

(** Decimal digits of a position, as [%d] prints it. *)
Fixpoint decimal (fuel : nat) (n : N) : pystr :=
  match fuel with
  | O => []
  | S fuel' =>
    (if (n <? 10)%N then [] else decimal fuel' (n / 10)%N)
    ++ [(48 + n mod 10)%N]
  end.

(** [width] lower-case hexadecimal digits, as [%0*x] prints them. *)
Fixpoint hex (width : nat) (n : N) : pystr :=
  match width with
  | O => []
  | S width' =>
    hex width' (n / 16)%N
    ++ [let d := (n mod 16)%N in if (d <? 10)%N then (48 + d)%N else (87 + d)%N]
  end.

(** The escape of a character in the message of a [UnicodeEncodeError]. *)
Definition escaped_char (c : N) : pystr :=
  if (c <=? 255)%N then str "\x" ++ hex 2 c
  else if (c <=? 65535)%N then str "\u" ++ hex 4 c
       else str "\U" ++ hex 8 c.

(** The text before the first character the codec refuses, and the text
    from it on. *)
Fixpoint encodable_prefix (bad : N -> bool) (line : pystr) : pystr * pystr :=
  match line with
  | [] => ([], [])
  | c :: rest =>
    if bad c then ([], line)
    else let (a, b) := encodable_prefix bad rest in (c :: a, b)
  end.

(** The characters refused in a row, from the first one. *)
Fixpoint refused_run (bad : N -> bool) (line : pystr) : pystr :=
  match line with
  | c :: rest => if bad c then c :: refused_run bad rest else []
  | [] => []
  end.

(** A text stream of the given encoding with [errors="strict"]:
    [str(e)] of the [UnicodeEncodeError] for the first run of
    characters the codec refuses. *)
Definition strict_stream (codec reason : pystr) (bad : N -> bool)
  : list pystr -> pystr -> result unit :=
  fun _ line =>
    let (before, rest) := encodable_prefix bad line in
    let start := N.of_nat (List.length before) in
    match refused_run bad rest with
    | [] => Ok tt
    | [c] =>
      Raise (str "'" ++ codec ++ str "' codec can't encode character '"
             ++ escaped_char c ++ str "' in position "
             ++ decimal 20 start ++ str ": " ++ reason)
    | run =>
      Raise (str "'" ++ codec ++ str "' codec can't encode characters"
             ++ str " in position " ++ decimal 20 start ++ str "-"
             ++ decimal 20 (start + N.of_nat (List.length run) - 1)%N
             ++ str ": " ++ reason)
    end.

(** Standard output encoded as UTF-8: only surrogates are refused. *)
Definition utf8_stdout : list pystr -> pystr -> result unit :=
  strict_stream (str "utf-8") (str "surrogates not allowed")
                (fun c => (55296 <=? c)%N && (c <=? 57343)%N).

(** Standard output encoded as ASCII, as under [PYTHONIOENCODING=ascii]. *)
Definition ascii_stdout : list pystr -> pystr -> result unit :=
  strict_stream (str "ascii") (str "ordinal not in range(128)")
                (fun c => (128 <=? c)%N).

Definition parse_multiple (write_stdout : list pystr -> pystr -> result unit)
  : list document -> parser_state
    -> result (list StatementData) * parser_state :=
  Parser.parse_multiple Re.search PARSERS doc_name doc_pages page_text
                        write_stdout.

Definition nl : pystr := [10%N].

(** The statement text of the end-to-end example. *)
Definition icici_text : pystr :=
  str "ICICI Bank" ++ nl
  ++ str "Total Amount due: Rs. 12,345.67" ++ nl
  ++ str "Payment Due Date: 05 Jan, 2025" ++ nl.

(** The three phrases of the end-to-end example inside a letter. *)
Definition icici_letter_text : pystr :=
  str "Dear customer, thank you for banking with "
  ++ str "ICICI Bank" ++ str "." ++ nl ++ str "Please note: "
  ++ str "Payment Due Date: 05 Jan, 2025" ++ str " | "
  ++ str "Total Amount due: Rs. 12,345.67" ++ str " (incl. taxes)" ++ nl.

(** A statement in which every ICICI field is present. *)
Definition icici_full_text : pystr :=
  str "ICICI Bank Credit Card Statement" ++ nl
  ++ str "4321XXXXXXXX1234" ++ nl
  ++ str "STATEMENT DATE: 12 Dec, 2024" ++ nl
  ++ str "PAYMENT DUE DATE: 05 Jan, 2025" ++ nl
  ++ str "Total Amount due: Rs. 12,345.67" ++ nl
  ++ str "Minimum Amount due: Rs. 620.00" ++ nl
  ++ str "Credit Limit (Including cash): Rs. 1,00,000.00" ++ nl
  ++ str "Available Credit (Including cash): Rs. 87,654.33" ++ nl
  ++ str "Previous Balance: Rs. 2,000.00" ++ nl.

(** A statement with the card number and nothing else. *)
Definition icici_card_only_text : pystr :=
  str "ICICI Bank" ++ nl ++ str "Card 4321XXXXXXXX1234" ++ nl.

(** A statement with the issuer's name and nothing else. *)
Definition icici_bare_text : pystr := str "www.icicibank.com" ++ nl.

Definition every_pattern : list pystr :=
  flat_map (fun e => identifier (snd e)
                     ++ flat_map (fun fp => snd fp) (patterns (snd e)))
           PARSERS.

End Main.

(* ------------------------------------------------------------------ *)
(** ** The streak counter of [app.py] *)

From Stdlib Require Import ZArith Sorted.

Module App.

(** A [datetime.date]. *)
Record date : Type := mkDate {
  year : Z;
  month : Z;
  day : Z
}.

(** [calendar.isleap] *)
Definition isleap (y : Z) : bool :=
  ((y mod 4 =? 0) && (negb (y mod 100 =? 0) || (y mod 400 =? 0)))%Z.

(** The number of days of a month: [calendar.monthrange(y, m)[1]] and the
    bound [date] checks a day against. *)
Definition days_in_month (y m : Z) : Z :=
  (match m with
   | 4 | 6 | 9 | 11 => 30
   | 2 => if isleap y then 29 else 28
   | _ => 31
   end)%Z.

(** [calendar.monthrange(y, m)[1]]; [None] stands for [IllegalMonthError]. *)
Definition monthrange_days (y m : Z) : option Z :=
  if ((1 <=? m) && (m <=? 12))%Z then Some (days_in_month y m) else None.

(** [date(y, m, d)]; [None] stands for [ValueError]. *)
Definition new_date (y m d : Z) : option date :=
  if ((1 <=? y) && (y <=? 9999) && (1 <=? m) && (m <=? 12)
      && (1 <=? d) && (d <=? days_in_month y m))%Z
  then Some (mkDate y m d)
  else None.

(** [a == b] and [a < b] on dates: year, then month, then day. *)
Definition date_eqb (a b : date) : bool :=
  ((year a =? year b) && (month a =? month b) && (day a =? day b))%Z.

Definition date_ltb (a b : date) : bool :=
  ((year a <? year b)
   || (year a =? year b)
      && ((month a <? month b)
          || (month a =? month b) && (day a <? day b)))%Z.

(** The date assigned to [current] after a day is counted: the day before
    inside a month; from the first of a month, the last day of the month
    before in the same year, December when the month is January. *)
Definition step_back (current : date) : option date :=
  if (day current >? 1)%Z
  then new_date (year current) (month current) (day current - 1)
  else
    let pm := if (month current >? 1)%Z then (month current - 1)%Z else 12%Z in
    match monthrange_days (year current) pm with
    | Some n => new_date (year current) pm n
    | None => None
    end.

(** The [for d in dates] loop. *)
Fixpoint streak_loop (dates : list date) (current : date) (streak : nat)
  : option nat :=
  match dates with
  | [] => Some streak
  | d :: dates' =>
    if date_eqb d current
    then
      match step_back current with
      | Some c => streak_loop dates' c (S streak)
      | None => None
      end
    else if date_ltb d current then Some streak
         else streak_loop dates' current streak
  end.

(** [sorted(..., reverse=True)]: latest date first. *)
Fixpoint insert_desc (x : date) (l : list date) : list date :=
  match l with
  | [] => [x]
  | y :: l' => if date_ltb y x then x :: l else y :: insert_desc x l'
  end.

Fixpoint sorted_desc (l : list date) : list date :=
  match l with
  | [] => []
  | x :: l' => insert_desc x (sorted_desc l')
  end.

Section CalculateStreak.

(** [datetime.strptime(d, "%Y-%m-%d").date()]; [None] stands for the
    [ValueError] of a key that is not a date. *)
Variable strptime_date : pystr -> option date.

(** The list comprehension over the keys. *)
Fixpoint parse_keys (keys : list pystr) : option (list date) :=
  match keys with
  | [] => Some []
  | k :: keys' =>
    match strptime_date k with
    | Some d =>
      match parse_keys keys' with
      | Some ds => Some (d :: ds)
      | None => None
      end
    | None => None
    end
  end.

(** [calculate_streak(habit_data, end_date)], given the keys of
    [habit_data['count']]; [None] stands for an exception. *)
Definition calculate_streak (keys : list pystr) (end_date : date)
  : option nat :=
  match parse_keys keys with
  | None => None
  | Some parsed =>
    let dates := sorted_desc parsed in
    if negb (nonempty dates) then Some 0
    else streak_loop dates end_date 0
  end.

End CalculateStreak.

(** For the examples only: the date written by a zero-padded key
    [YYYY-MM-DD] in ASCII digits.  [strptime] also reads a month or a day
    of one digit; this reader refuses them, and no theorem depends on it:
    they are stated for any [strptime_date]. *)
Definition digit (c : N) : option Z :=
  if Re.is_digit c then Some (Z.of_N (c - 48)) else None.

Definition iso_date (k : pystr) : option date :=
  match map digit k with
  | [Some a; Some b; Some c; Some d; None; Some e; Some f; None;
     Some g; Some h] =>
    match k with
    | [_; _; _; _; 45%N; _; _; 45%N; _; _] =>
      new_date (1000 * a + 100 * b + 10 * c + d) (10 * e + f) (10 * g + h)
    | _ => None
    end
  | _ => None
  end.

(** A date the [date] constructor accepts. *)
Definition valid (d : date) : Prop :=
  new_date (year d) (month d) (day d) = Some d.

(** [a < b] on dates. *)
Definition date_lt (a b : date) : Prop := date_ltb a b = true.

(** Latest first: no element is earlier than one that follows it. *)
Definition descending (l : list date) : Prop :=
  StronglySorted (fun a b => date_ltb a b = false) l.

End App.

(* ------------------------------------------------------------------ *)
(** ** Vocabulary of the further properties *)

(** What a page contributes to the text: [page.extract_text() or ""]. *)
Definition text_of (t : option pystr) : pystr :=
  match t with
  | Some x => x
  | None => []
  end.

(** [v] occurs in [whole] as a run of consecutive characters. *)
Definition infix (v whole : pystr) : Prop :=
  exists a b, whole = a ++ v ++ b.

(** [s] does not start with a whitespace character. *)
Definition no_lead (s : pystr) : Prop :=
  match s with
  | c :: _ => isspace c = false
  | [] => True
  end.

(** [s] neither starts nor ends with a whitespace character. *)
Definition trimmed (s : pystr) : Prop := no_lead s /\ no_lead (rev s).

(** [s] is a position of the subject [whole], and the groups captured so
    far all occur in [whole]. *)
Definition position_of (whole : pystr) (s : Re.mstate) : Prop :=
  (exists pre, whole = pre ++ Re.rest s /\ List.length pre = Re.pos s)
  /\ forall i v, In (i, v) (Re.caps s) -> infix v whole.

(** Two characters that differ at most in the case of an ASCII letter, and
    two texts that do so character by character. *)
Definition same_letter (x y : N) : Prop :=
  x = y
  \/ (Re.is_upper x = true /\ y = (x + 32)%N)
  \/ (Re.is_upper y = true /\ x = (y + 32)%N).

Definition same_ignoring_case (a b : pystr) : Prop := Forall2 same_letter a b.

(** A test on one character that the engine makes under [IGNORECASE]
    cannot tell two such characters apart. *)
Definition blind (p : N -> bool) : Prop :=
  forall x y, same_letter x y -> p x = p y.

(** Two matcher states at the same position of two such texts. *)
Definition same_position (s s' : Re.mstate) : Prop :=
  Re.pos s = Re.pos s'
  /\ match Re.prev s, Re.prev s' with
     | Some x, Some y => same_letter x y
     | None, None => True
     | _, _ => False
     end
  /\ same_ignoring_case (Re.rest s) (Re.rest s').

(** Two continuations that fail together on such states, and two steps that
    do so when their continuations do. *)
Definition fail_together (k k' : Re.mstate -> option Re.mstate) : Prop :=
  forall t t', same_position t t'
               -> Parser.is_none (k t) = Parser.is_none (k' t').

Definition steps_together
           (step step' : Re.mstate -> (Re.mstate -> option Re.mstate)
                         -> option Re.mstate) : Prop :=
  forall s s' k k',
    same_position s s' -> fail_together k k' ->
    Parser.is_none (step s k) = Parser.is_none (step' s' k').

(** Every state a matcher run can end in is a position of [whole]. *)
Definition ends_in (whole : pystr) (o : option Re.mstate) : Prop :=
  forall s, o = Some s -> position_of whole s.

(** [step] only ever hands positions of [whole] to its continuation. *)
Definition keeps_positions (whole : pystr)
           (step : Re.mstate -> (Re.mstate -> option Re.mstate)
                   -> option Re.mstate) : Prop :=
  forall s k,
    position_of whole s ->
    (forall s', position_of whole s' -> ends_in whole (k s')) ->
    ends_in whole (step s k).

(** The same position of a subject that has [d] more characters before
    it, and a step that runs alike on both. *)
Definition shift (d : nat) (s : Re.mstate) : Re.mstate :=
  Re.mkState (d + Re.pos s) (Re.prev s) (Re.rest s) (Re.caps s).

Definition shifts
           (step : Re.mstate -> (Re.mstate -> option Re.mstate)
                   -> option Re.mstate) : Prop :=
  forall d s k k',
    (forall s', k (shift d s') = option_map (shift d) (k' s')) ->
    step (shift d s) k = option_map (shift d) (step s k').

(** The loop of [Re.search_from] over the characters of [before]: no
    attempt started there succeeds. *)
Fixpoint none_starts_in (fl : N) (r : Re.regex) (p : nat) (pv : option N)
         (before rest : pystr) : bool :=
  match before with
  | [] => true
  | x :: xs =>
    Parser.is_none (Re.m fl r (Re.mkState p pv (before ++ rest) [])
                         (fun s' => Some s'))
    && none_starts_in fl r (S p) (Some x) xs rest
  end.

(** In the subject [before ++ rest], no match of [pattern] starts at a
    character of [before]. *)
Definition unmatched_before (pattern : pystr) (flags : N)
           (before rest : pystr) : bool :=
  match Re.compile pattern with
  | Some (r, _) => none_starts_in flags r 0 None before rest
  | None => false
  end.

(** The character before the position that follows [before]. *)
Definition prev_after (pv : option N) (before : pystr) : option N :=
  last (map Some before) pv.


(* ------------------------------------------------------------------ *)
(** ** Properties *)

Import Parser.

Lemma pystr_eqb_eq (a b : pystr) : eqb a b = true <-> a = b.
Proof.
  revert b; induction a as [|x a IH]; intros [|y b]; simpl;
    try (split; discriminate); try tauto.
  rewrite andb_true_iff, N.eqb_eq, IH.
  split; [intros [-> ->]; reflexivity | intros E; inversion E; auto].
Qed.

Lemma pystr_eqb_refl (a : pystr) : eqb a a = true.
Proof. apply pystr_eqb_eq; reflexivity. Qed.

Lemma is_none_true {A} (o : option A) : is_none o = true <-> o = None.
Proof. destruct o; simpl; split; congruence. Qed.

Lemma is_none_false {A} (o : option A) : is_none o = false <-> o <> None.
Proof. destruct o; simpl; split; congruence. Qed.

Lemma nonempty_false {A} (l : list A) : nonempty l = false <-> l = [].
Proof. destruct l; simpl; split; congruence. Qed.

Lemma nonempty_app_r {A} (l : list A) (x : A) : nonempty (l ++ [x]) = true.
Proof. destruct l; reflexivity. Qed.

Lemma field_eq_dec (a b : field) : {a = b} + {a <> b}.
Proof. decide equality. Defined.

Lemma getattr_setattr (d : StatementData) (f g : field) (v : pystr) :
  getattr (setattr d f v) g
  = if field_eq_dec f g then Some v else getattr d g.
Proof. destruct d, f, g; reflexivity. Qed.

Lemma getattr_set_errors (d : StatementData) (er : list pystr) (f : field) :
  getattr (set_errors d er) f = getattr d f.
Proof. destruct d, f; reflexivity. Qed.

Lemma getattr_set_parsing_status (d : StatementData) (st : pystr) (f : field) :
  getattr (set_parsing_status d st) f = getattr d f.
Proof. destruct d, f; reflexivity. Qed.

(** *** The matcher's iteration bound

    A matcher only hands later positions of the same subject to its
    continuation, so the bound given to [rep_opt], the number of characters
    left, is never the reason a repetition stops: any larger bound gives the
    same result. *)

Section MatcherBound.

Import Re.

Lemma later_refl (s : mstate) : later s s.
Proof. unfold later. lia. Qed.

Lemma later_trans (a b c : mstate) : later a b -> later b c -> later a c.
Proof. unfold later. lia. Qed.

Lemma later_advance (s : mstate) (x : N) (xs : pystr) :
  rest s = x :: xs -> later s (advance s x xs).
Proof. unfold later, advance. intros ->. simpl. lia. Qed.

Lemma later_set_cap (s s' : mstate) (i : nat) (v : pystr) :
  later s s' -> later s (set_cap i v s').
Proof. unfold later, set_cap. simpl. auto. Qed.

Lemma orelse_none_r (a : option mstate) : orelse a None = a.
Proof. destruct a; reflexivity. Qed.

Lemma one_local (p : N -> bool) : local (one p).
Proof.
  intros s k k' H. unfold one. destruct (rest s) as [|x xs] eqn:E; auto.
  destruct (p x); auto. apply H, later_advance, E.
Qed.

Lemma one_strict (p : N -> bool) : strict (one p).
Proof.
  intros s. unfold one. destruct (rest s) as [|x xs]; auto.
  destruct (p x); auto.
Qed.

Section Step.
Variable step : mstate -> (mstate -> option mstate) -> option mstate.
Hypothesis step_local : local step.
Hypothesis step_strict : strict step.

Lemma rep_min_local (n : nat) : local (rep_min step n).
Proof.
  induction n as [|n IH]; intros s k k' H; simpl.
  - apply H, later_refl.
  - apply step_local. intros s' L. apply IH. intros s'' L'.
    apply H. eapply later_trans; eauto.
Qed.

Lemma rep_min_strict (n : nat) : strict (rep_min step n).
Proof.
  induction n as [|n IH]; intros s; simpl; [reflexivity|].
  transitivity (step s (fun _ => None)); [|apply step_strict].
  apply step_local. intros s' _. apply IH.
Qed.

Lemma rep_opt_local (greedy : bool) (fuel : nat) (budget : option nat) :
  local (rep_opt step greedy fuel budget).
Proof.
  revert budget. induction fuel as [|fuel IH]; intros budget s k k' H; simpl.
  - apply H, later_refl.
  - rewrite (H s (later_refl s)).
    destruct (spent budget); [reflexivity|].
    assert (E : step s (fun s' => if pos s <? pos s'
                                  then rep_opt step greedy fuel
                                               (option_map pred budget) s' k
                                  else None)
                = step s (fun s' => if pos s <? pos s'
                                    then rep_opt step greedy fuel
                                                 (option_map pred budget) s' k'
                                    else None)).
    { apply step_local. intros s' L. destruct (pos s <? pos s'); auto.
      apply IH. intros s'' L'. apply H. eapply later_trans; eauto. }
    now rewrite E.
Qed.

Lemma rep_opt_strict (greedy : bool) (fuel : nat) (budget : option nat) :
  strict (rep_opt step greedy fuel budget).
Proof.
  revert budget. induction fuel as [|fuel IH]; intros budget s; simpl.
  - reflexivity.
  - destruct (spent budget); [reflexivity|].
    assert (E : step s (fun s' => if pos s <? pos s'
                                  then rep_opt step greedy fuel
                                               (option_map pred budget) s'
                                               (fun _ => None)
                                  else None) = None).
    { transitivity (step s (fun _ => None)); [|apply step_strict].
      apply step_local. intros s' _.
      destruct (pos s <? pos s'); auto. apply IH. }
    rewrite E. now destruct greedy.
Qed.

(** Any two bounds that cover the characters left give the same result. *)
Lemma rep_opt_bound (greedy : bool) (f1 f2 : nat) (budget : option nat)
      (s : mstate) (k : mstate -> option mstate) :
  List.length (rest s) <= f1 -> List.length (rest s) <= f2 ->
  rep_opt step greedy f1 budget s k = rep_opt step greedy f2 budget s k.
Proof.
  revert f2 budget s.
  assert (Hend : forall f budget s,
             List.length (rest s) = 0 ->
             rep_opt step greedy f budget s k = k s).
  { intros [|f] budget s Hs; simpl; [reflexivity|].
    destruct (spent budget); [reflexivity|].
    assert (E : step s (fun s' => if pos s <? pos s'
                                  then rep_opt step greedy f
                                               (option_map pred budget) s' k
                                  else None) = None).
    { transitivity (step s (fun _ => None)); [|apply step_strict].
      apply step_local. intros s' [L1 L2].
      destruct (pos s <? pos s') eqn:P; auto.
      apply Nat.ltb_lt in P. lia. }
    rewrite E. destruct greedy; simpl; [reflexivity | apply orelse_none_r]. }
  induction f1 as [|f1 IH]; intros f2 budget s H1 H2.
  - rewrite !Hend by lia. reflexivity.
  - destruct f2 as [|f2]; [rewrite !Hend by lia; reflexivity|].
    simpl. destruct (spent budget); [reflexivity|].
    assert (E : step s (fun s' => if pos s <? pos s'
                                  then rep_opt step greedy f1
                                               (option_map pred budget) s' k
                                  else None)
                = step s (fun s' => if pos s <? pos s'
                                    then rep_opt step greedy f2
                                                 (option_map pred budget) s' k
                                    else None)).
    { apply step_local. intros s' [L1 L2].
      destruct (pos s <? pos s') eqn:P; auto.
      apply Nat.ltb_lt in P. apply IH; lia. }
    now rewrite E.
Qed.

End Step.

Lemma m_local_strict (fl : N) (r : regex) : local (m fl r) /\ strict (m fl r).
Proof.
  induction r as [| c | | neg c | neg items | | | a [La Sa] b [Lb Sb]
                  | a [La Sa] b [Lb Sb] | a [La Sa] lo hi greedy
                  | i a [La Sa]]; simpl;
    try (split; [apply one_local | apply one_strict]).
  - split; [intros s k k' H; apply H, later_refl | intros s; reflexivity].
  - split; [intros s k k' H | intros s]; destruct (at_bol fl s); auto.
    apply H, later_refl.
  - split; [intros s k k' H | intros s]; destruct (at_eol fl s); auto.
    apply H, later_refl.
  - split.
    + intros s k k' H. apply La. intros s' L. apply Lb. intros s'' L'.
      apply H. eapply later_trans; eauto.
    + intros s. transitivity (m fl a s (fun _ => None)); [|apply Sa].
      apply La. intros s' _. apply Sb.
  - split.
    + intros s k k' H. now rewrite (La s k k' H), (Lb s k k' H).
    + intros s. now rewrite Sa, Sb.
  - split.
    + intros s k k' H. apply rep_min_local; [exact La|].
      intros s' L. apply rep_opt_local; [exact La|].
      intros s'' L'. apply H. eapply later_trans; eauto.
    + intros s.
      transitivity (rep_min (m fl a) lo s (fun _ => None));
        [|now apply rep_min_strict].
      apply rep_min_local; [exact La|]. intros s' _.
      now apply rep_opt_strict.
  - split.
    + intros s k k' H. apply La. intros s' L. apply H, later_set_cap, L.
    + intros s. apply Sa.
Qed.

(** The bound used by [m] for a repetition can be replaced by any larger
    one. *)
Lemma m_rep_bound (fl : N) (a : regex) (greedy : bool) (fuel : nat)
      (budget : option nat) (s : mstate) (k : mstate -> option mstate) :
  List.length (rest s) <= fuel ->
  rep_opt (m fl a) greedy fuel budget s k
  = rep_opt (m fl a) greedy (List.length (rest s)) budget s k.
Proof.
  intros H. destruct (m_local_strict fl a) as [L S].
  apply rep_opt_bound; auto.
Qed.

End MatcherBound.

Section Properties.

Variable re_search : pystr -> pystr -> N -> option Match.
Variable PARSERS : list (pystr * config).
Variables Path Page : Type.
Variable path_name : Path -> pystr.
Variable pdfplumber_open : Path -> result (list Page).
Variable page_extract_text : Page -> result (option pystr).

Local Abbreviation any_identifier := (Parser.any_identifier re_search).
Local Abbreviation identify_in := (Parser.identify_in re_search).
Local Abbreviation identify_issuer := (Parser.identify_issuer re_search PARSERS).
Local Abbreviation extract_field := (Parser.extract_field re_search).
Local Abbreviation extract_all := (Parser.extract_all re_search).
Local Abbreviation missing := (Parser.missing re_search).
Local Abbreviation getitem := Parser.getitem.
Local Abbreviation extract_text_from_pdf :=
  (Parser.extract_text_from_pdf pdfplumber_open page_extract_text).
Local Abbreviation parse_text := (Parser.parse_text re_search PARSERS).
Local Abbreviation parse_statement :=
  (Parser.parse_statement re_search PARSERS path_name pdfplumber_open
                          page_extract_text).

Local Abbreviation recognised := (Parser.recognised re_search).
Local Abbreviation flags := (N.lor IGNORECASE MULTILINE).

(** *** Issuer detection *)

Lemma any_identifier_true (idents : list pystr) (text : pystr) :
  any_identifier idents text = true <->
  exists p, In p idents /\ re_search p text IGNORECASE <> None.
Proof.
  induction idents as [|q idents IH]; simpl.
  - split; [discriminate | intros (p & [] & _)].
  - destruct (re_search q text IGNORECASE) as [mt|] eqn:E; simpl.
    + split; auto. intros _. exists q. split; [now left | congruence].
    + rewrite IH. split.
      * intros (p & Hin & Hp). exists p. split; [now right | exact Hp].
      * intros (p & [<- | Hin] & Hp); [congruence | eauto].
Qed.

Lemma any_identifier_false (idents : list pystr) (text : pystr) :
  any_identifier idents text = false <->
  forall p, In p idents -> re_search p text IGNORECASE = None.
Proof.
  split.
  - intros H p Hin.
    destruct (re_search p text IGNORECASE) eqn:E; [|reflexivity].
    assert (T : any_identifier idents text = true)
      by (apply any_identifier_true; exists p; split; [assumption|congruence]).
    congruence.
  - intros H. destruct (any_identifier idents text) eqn:E; [|reflexivity].
    apply any_identifier_true in E. destruct E as (p & Hin & Hp).
    elim Hp. auto.
Qed.

Lemma identify_in_skip (pre rest : list (pystr * config)) (text : pystr) :
  (forall e, In e pre -> any_identifier (identifier (snd e)) text = false) ->
  identify_in (pre ++ rest) text = identify_in rest text.
Proof.
  induction pre as [|[k c] pre IH]; simpl; intros H; [reflexivity|].
  pose proof (H (k, c) (or_introl eq_refl)) as Hk. simpl in Hk.
  rewrite Hk. apply IH. intros e He. apply H. now right.
Qed.

Lemma identify_in_key (parsers : list (pystr * config)) (text k : pystr) :
  identify_in parsers text = Some k ->
  exists c, In (k, c) parsers /\ any_identifier (identifier c) text = true.
Proof.
  induction parsers as [|[k' c'] parsers IH]; simpl; [discriminate|].
  destruct (any_identifier (identifier c') text) eqn:E.
  - intros [= <-]. exists c'. auto.
  - intros H. destruct (IH H) as (c & Hin & Hc). exists c. auto.
Qed.

Lemma unrecognised_no_identifier (c : config) (text : pystr) :
  ~ recognised c text -> any_identifier (identifier c) text = false.
Proof.
  intros H. destruct (any_identifier (identifier c) text) eqn:E; auto.
  elim H. now apply any_identifier_true.
Qed.

Lemma identify_in_none (parsers : list (pystr * config)) (text : pystr) :
  (forall e, In e parsers -> ~ recognised (snd e) text) ->
  identify_in parsers text = None.
Proof.
  intros H. rewrite <- (app_nil_r parsers).
  rewrite identify_in_skip; [reflexivity|].
  intros e He. apply unrecognised_no_identifier, H, He.
Qed.

Lemma identify_in_none_inv (parsers : list (pystr * config)) (text : pystr) :
  identify_in parsers text = None ->
  forall e, In e parsers -> ~ recognised (snd e) text.
Proof.
  induction parsers as [|[k c] parsers IH]; simpl; [tauto|].
  destruct (any_identifier (identifier c) text) eqn:E; [discriminate|].
  intros H e [<-|Hin]; [|now apply IH].
  simpl. intros R. apply any_identifier_true in R. congruence.
Qed.

(** *** Field extraction *)

Lemma extract_field_skip (text : pystr) (pre rest : list pystr) :
  (forall p, In p pre -> re_search p text flags = None) ->
  extract_field text (pre ++ rest) = extract_field text rest.
Proof.
  induction pre as [|q pre IH]; intros H; [reflexivity|].
  cbn [app Parser.extract_field].
  rewrite (H q) by now left. apply IH. intros p Hp. apply H.
  now right.
Qed.

Lemma match_value_groups (mt : Match) :
  groups mt <> [] -> match_value mt = last (groups mt) None.
Proof. unfold match_value. destruct (groups mt); [congruence | reflexivity]. Qed.

Lemma match_value_whole (mt : Match) :
  groups mt = [] -> match_value mt = Some (group0 mt).
Proof. unfold match_value. now intros ->. Qed.

Lemma extract_field_hit (text p : pystr) (rest : list pystr) (mt : Match) :
  re_search p text flags = Some mt ->
  extract_field text (p :: rest) = match_value mt.
Proof. intros H. cbn [Parser.extract_field]. rewrite H. reflexivity. Qed.

(** *** The field loop *)

Lemma extract_all_errors (text : pystr) (items : list (field * list pystr))
      (data : StatementData) (errs : list pystr) :
  snd (extract_all text items data errs)
  = errs ++ map (fun fp => diagnostic (fst fp)) (filter (missing text) items).
Proof.
  revert data errs.
  induction items as [|[f pats] items IH]; intros data errs; simpl.
  - now rewrite app_nil_r.
  - unfold missing at 1. simpl.
    destruct (truthy (extract_field text pats)); simpl.
    + apply IH.
    + rewrite IH, <- app_assoc. reflexivity.
Qed.

Lemma extract_all_frame (text : pystr) (items : list (field * list pystr))
      (data : StatementData) (errs : list pystr) :
  let d := fst (extract_all text items data errs) in
  file_name d = file_name data /\ issuer d = issuer data
  /\ parsing_status d = parsing_status data /\ errors d = errors data.
Proof.
  revert data errs.
  induction items as [|[f pats] items IH]; intros data errs; simpl.
  - auto.
  - destruct (truthy (extract_field text pats)).
    + destruct (IH (setattr data f
                      (strip match extract_field text pats with
                             | Some v => v
                             | None => []
                             end)) errs) as (A & B & C & D).
      simpl in *. rewrite A, B, C, D. destruct data, f; auto.
    + apply IH.
Qed.

Lemma extract_all_attr (text : pystr) (items : list (field * list pystr))
      (data : StatementData) (errs : list pystr) (f : field) :
  getattr (fst (extract_all text items data errs)) f = None <->
  getattr data f = None
  /\ forall pats, In (f, pats) items -> missing text (f, pats) = true.
Proof.
  revert data errs.
  induction items as [|[g pats] items IH]; intros data errs; simpl.
  - split; [intros H; split; [exact H | intros ? []] | tauto].
  - unfold missing in *. simpl in *.
    destruct (truthy (extract_field text pats)) eqn:T.
    + rewrite IH, getattr_setattr. destruct (field_eq_dec g f) as [->|N].
      * split; [intros [? _]; discriminate|].
        intros [_ H]. specialize (H pats (or_introl eq_refl)).
        rewrite T in H. discriminate.
      * split; intros [A B]; split; auto.
        intros pats' [E|Hin]; [congruence | auto].
    + rewrite IH. split; intros [A B]; split; auto.
      intros pats' [E|Hin]; [|auto]. inversion E; subst. now rewrite T.
Qed.

(** *** Classification *)

Lemma no_critical_true (d : StatementData) :
  no_critical d = true <->
  forall f, In f critical_fields -> getattr d f = None.
Proof.
  unfold no_critical. rewrite forallb_forall.
  split; intros H f Hf; apply is_none_true, H, Hf.
Qed.

Lemma classify_clean (d : StatementData) : classify d [] = d.
Proof. reflexivity. Qed.

Lemma classify_errors (d : StatementData) (errs : list pystr) :
  errors d = [] -> errors (classify d errs) = errs.
Proof.
  unfold classify. destruct errs as [|e errs]; simpl; [auto|].
  intros _. destruct (no_critical _); destruct d; reflexivity.
Qed.

Lemma classify_attr (d : StatementData) (errs : list pystr) (f : field) :
  getattr (classify d errs) f = getattr d f.
Proof.
  unfold classify. destruct (nonempty errs); [|reflexivity].
  destruct (no_critical _);
    now rewrite getattr_set_parsing_status, getattr_set_errors.
Qed.

Lemma classify_frame (d : StatementData) (errs : list pystr) :
  file_name (classify d errs) = file_name d
  /\ issuer (classify d errs) = issuer d.
Proof.
  unfold classify. destruct (nonempty errs); [|auto].
  destruct (no_critical _); destruct d; auto.
Qed.

Lemma classify_status (d : StatementData) (errs : list pystr) :
  errs <> [] ->
  parsing_status (classify d errs)
  = if no_critical d then str "failed" else str "partial".
Proof.
  unfold classify. destruct errs as [|e errs]; [congruence|]. intros _.
  simpl nonempty. cbv iota.
  assert (E : no_critical (set_errors d (e :: errs)) = no_critical d).
  { unfold no_critical, critical_fields. cbn [forallb].
    now rewrite !getattr_set_errors. }
  rewrite E. destruct (no_critical d); destruct d; reflexivity.
Qed.

(** *** One statement *)

Lemma getitem_in (parsers : list (pystr * config)) (k : pystr) (c : config) :
  In (k, c) parsers -> exists c', getitem parsers k = Ok c'.
Proof.
  induction parsers as [|[k' c'] parsers IH]; simpl; [tauto|].
  intros [E|Hin].
  - inversion E; subst. rewrite pystr_eqb_refl. eauto.
  - destruct (eqb k' k); eauto.
Qed.

Lemma getitem_identified (text name : pystr) :
  identify_issuer text = Some name ->
  exists c, getitem PARSERS name = Ok c.
Proof.
  intros H. apply identify_in_key in H. destruct H as (c & Hin & _).
  eapply getitem_in; eauto.
Qed.

(** The record of an identified statement, before classification. *)
Lemma parse_text_identified (file_name text name : pystr) :
  identify_issuer text = Some name -> name <> [] ->
  exists cfg,
    getitem PARSERS name = Ok cfg /\
    parse_text file_name text
    = Ok (classify
            (fst (extract_all text (patterns cfg)
                    (StatementData_init file_name name (str "success") None)
                    []))
            (snd (extract_all text (patterns cfg)
                    (StatementData_init file_name name (str "success") None)
                    []))).
Proof.
  intros Hid Hne. destruct (getitem_identified _ Hid) as (cfg & Hc).
  exists cfg. split; [exact Hc|].
  unfold Parser.parse_text. rewrite Hid.
  destruct name as [|c cs]; [congruence|].
  rewrite Hc. simpl bind.
  destruct (extract_all _ _ _ _); reflexivity.
Qed.

Lemma parse_text_unidentified (file_name text : pystr) :
  identify_issuer text = None ->
  parse_text file_name text
  = Ok (StatementData_init file_name (str "Unknown") (str "failed")
          (Some [str "Could not identify credit card issuer"])).
Proof. intros H. unfold Parser.parse_text. now rewrite H. Qed.

Lemma parse_statement_read (pdf_path : Path) (text : pystr) :
  extract_text_from_pdf pdf_path = Ok text ->
  parse_statement pdf_path
  = try_except (parse_text (path_name pdf_path) text)
               (fun e => StatementData_init (path_name pdf_path) (str "Error")
                                            (str "error") (Some [e])).
Proof.
  intros H. unfold Parser.parse_statement, Parser.parse_body.
  now rewrite H.
Qed.

Lemma parse_statement_raise (pdf_path : Path) (msg : pystr) :
  extract_text_from_pdf pdf_path = Raise msg ->
  parse_statement pdf_path
  = StatementData_init (path_name pdf_path) (str "Error") (str "error")
                       (Some [msg]).
Proof.
  intros H. unfold Parser.parse_statement, Parser.parse_body.
  now rewrite H.
Qed.

(** The three shapes a record can have. *)
Lemma parse_statement_cases (pdf_path : Path) :
  let r := parse_statement pdf_path in
  (exists msg, extract_text_from_pdf pdf_path = Raise msg
               /\ r = StatementData_init (path_name pdf_path) (str "Error")
                                         (str "error") (Some [msg]))
  \/ (exists text, extract_text_from_pdf pdf_path = Ok text
                   /\ r = StatementData_init (path_name pdf_path)
                            (str "Unknown") (str "failed")
                            (Some [str "Could not identify credit card issuer"]))
  \/ (exists text name cfg d errs,
         extract_text_from_pdf pdf_path = Ok text
         /\ identify_issuer text = Some name /\ name <> []
         /\ getitem PARSERS name = Ok cfg
         /\ extract_all text (patterns cfg)
               (StatementData_init (path_name pdf_path) name (str "success")
                                   None) []
            = (d, errs)
         /\ r = classify d errs).
Proof.
  intros r. subst r.
  destruct (extract_text_from_pdf pdf_path) as [text|msg] eqn:E.
  - right. rewrite (parse_statement_read _ E).
    destruct (identify_issuer text) as [[|c cs]|] eqn:Hid.
    + left. exists text. split; [reflexivity|].
      unfold Parser.parse_text. now rewrite Hid.
    + right.
      destruct (@parse_text_identified (path_name pdf_path) text (c :: cs) Hid)
        as (cfg & Hc & Hp); [discriminate|].
      rewrite Hp. simpl try_except.
      destruct (extract_all text (patterns cfg) _ []) as [d errs] eqn:Ha.
      exists text, (c :: cs), cfg, d, errs.
      repeat split; auto; discriminate.
    + left. exists text. split; [reflexivity|].
      now rewrite parse_text_unidentified.
  - left. exists msg. split; [reflexivity|].
    apply parse_statement_raise, E.
Qed.

Lemma identified_record (pdf_path : Path) (text name : pystr)
      (cfg : config) :
  extract_text_from_pdf pdf_path = Ok text ->
  identify_issuer text = Some name -> name <> [] ->
  getitem PARSERS name = Ok cfg ->
  exists d,
    parse_statement pdf_path
    = classify d (map (fun fp => diagnostic (fst fp))
                      (filter (missing text) (patterns cfg)))
    /\ file_name d = path_name pdf_path /\ issuer d = name
    /\ parsing_status d = str "success" /\ errors d = []
    /\ forall f, getattr d f = None <->
                 forall pats, In (f, pats) (patterns cfg) ->
                              missing text (f, pats) = true.
Proof.
  intros Ht Hid Hne Hc.
  destruct (@parse_text_identified (path_name pdf_path) text name Hid Hne)
    as (cfg' & Hc' & Hp).
  assert (cfg' = cfg) by congruence. subst cfg'.
  rewrite (parse_statement_read _ Ht), Hp. simpl try_except.
  set (d0 := StatementData_init (path_name pdf_path) name (str "success") None)
    in *.
  exists (fst (extract_all text (patterns cfg) d0 [])).
  rewrite extract_all_errors. simpl app.
  destruct (extract_all_frame text (patterns cfg) d0 []) as (A & B & C & D).
  repeat split; auto.
  - apply extract_all_attr.
  - intros H. apply extract_all_attr. split; [destruct f; reflexivity | exact H].
Qed.

Lemma status_values_distinct :
  str "success" <> str "partial" /\ str "success" <> str "failed"
  /\ str "success" <> str "error" /\ str "partial" <> str "error"
  /\ str "failed" <> str "error" /\ str "partial" <> str "failed".
Proof. repeat split; intros H; vm_compute in H; discriminate. Qed.

Lemma critical_none (d : StatementData) :
  no_critical d = true <->
  card_number d = None /\ total_amount_due d = None
  /\ payment_due_date d = None.
Proof.
  rewrite no_critical_true. unfold critical_fields. split.
  - intros H. repeat split.
    + apply (H CardNumber). simpl; auto.
    + apply (H TotalAmountDue). simpl; auto.
    + apply (H PaymentDueDate). simpl; auto.
  - intros (A & B & C) f [<-|[<-|[<-|[]]]]; assumption.
Qed.

Lemma classify_critical (d : StatementData) (errs : list pystr) :
  no_critical (classify d errs) = no_critical d.
Proof.
  unfold no_critical, critical_fields. cbn [forallb].
  now rewrite !classify_attr.
Qed.

Lemma parse_statement_file_name (pdf_path : Path) :
  file_name (parse_statement pdf_path) = path_name pdf_path.
Proof.
  destruct (parse_statement_cases pdf_path)
    as [(msg & _ & ->) | [(text & _ & ->) | (text & name & cfg & d & errs
                                            & _ & _ & _ & _ & Ha & ->)]];
    try reflexivity.
  destruct (classify_frame d errs) as [-> _].
  pose proof (extract_all_frame text (patterns cfg)
                (StatementData_init (path_name pdf_path) name (str "success")
                                    None) []) as F.
  rewrite Ha in F. simpl in F. tauto.
Qed.

(** *** The claims that hold for every engine, registry and PDF library *)

(** C1.  For a document whose text is read and whose issuer is identified,
    with [cfg] the issuer's profile: the diagnostics are exactly those of
    the profile's fields whose extraction gave nothing, in table order;
    no diagnostic gives status "success"; otherwise the status is "failed"
    when [card_number], [total_amount_due] and [payment_due_date] are all
    [None], and "partial" when one of them is set.  For a profile that
    defines the eight fields (three critical, five optional): every field
    missing gives "failed"; one critical field extracted and every other
    field missing gives "partial"; every field extracted gives
    "success". *)
Theorem status_classification (pdf_path : Path) (text name : pystr)
        (cfg : config) :
  extract_text_from_pdf pdf_path = Ok text ->
  identify_issuer text = Some name -> name <> [] ->
  getitem PARSERS name = Ok cfg ->
  let r := parse_statement pdf_path in
  let critical_empty :=
    card_number r = None /\ total_amount_due r = None
    /\ payment_due_date r = None in
  errors r = map (fun fp => diagnostic (fst fp))
                 (filter (missing text) (patterns cfg))
  /\ (errors r = [] -> parsing_status r = str "success")
  /\ (errors r <> [] -> critical_empty -> parsing_status r = str "failed")
  /\ (errors r <> [] -> ~ critical_empty -> parsing_status r = str "partial")
  /\ (Permutation (map fst (patterns cfg)) all_fields ->
      ((forall fp, In fp (patterns cfg) -> missing text fp = true) ->
       parsing_status r = str "failed")
      /\ (forall l1 f pats l2,
             patterns cfg = l1 ++ (f, pats) :: l2 ->
             In f critical_fields ->
             missing text (f, pats) = false ->
             (forall fp, In fp (l1 ++ l2) -> missing text fp = true) ->
             parsing_status r = str "partial")
      /\ ((forall fp, In fp (patterns cfg) -> missing text fp = false) ->
          parsing_status r = str "success")).
Proof.
  intros Ht Hid Hne Hc r critical_empty.
  destruct (identified_record _ Ht Hid Hne Hc)
    as (d & Hr & _ & _ & Hs & He & Hattr).
  set (errs := map (fun fp => diagnostic (fst fp))
                   (filter (missing text) (patterns cfg))) in *.
  assert (Herr : errors r = errs)
    by (subst r; rewrite Hr; apply classify_errors, He).
  assert (Hclean : errs = [] -> parsing_status r = str "success")
    by (intros E; subst r; rewrite Hr, E, classify_clean; exact Hs).
  assert (Hcrit : critical_empty <-> no_critical d = true).
  { subst critical_empty r. rewrite Hr, <- critical_none.
    now rewrite classify_critical. }
  assert (Hdirty : errs <> [] ->
                   parsing_status r
                   = if no_critical d then str "failed" else str "partial")
    by (intros E; subst r; rewrite Hr; apply classify_status, E).
  split; [exact Herr|].
  split; [intros E; apply Hclean; congruence|].
  split.
  { intros E C. rewrite Hdirty by congruence.
    apply Hcrit in C. now rewrite C. }
  split.
  { intros E C. rewrite Hdirty by congruence.
    destruct (no_critical d) eqn:N; [|reflexivity].
    elim C. now apply Hcrit. }
  intros Hperm.
  assert (Hlen : List.length (patterns cfg) = 8)
    by (rewrite <- (length_map fst), (Permutation_length Hperm); reflexivity).
  assert (Hall : forall l, (forall fp, In fp l -> missing text fp = true) ->
                           filter (missing text) l = l).
  { induction l as [|x l IH]; intros H; [reflexivity|]. simpl.
    rewrite (H x) by now left. f_equal. apply IH. intros; apply H; now right. }
  assert (Hnone : forall l, (forall fp, In fp l -> missing text fp = false) ->
                            filter (missing text) l = []).
  { induction l as [|x l IH]; intros H; [reflexivity|]. simpl.
    rewrite (H x) by now left. apply IH. intros; apply H; now right. }
  split; [|split].
  - intros Hmiss.
    assert (E : errs <> []).
    { subst errs. rewrite (Hall _ Hmiss).
      destruct (patterns cfg); [discriminate Hlen | discriminate]. }
    rewrite (Hdirty E).
    assert (N : no_critical d = true).
    { apply no_critical_true. intros f _. apply Hattr.
      intros pats Hin. apply Hmiss, Hin. }
    now rewrite N.
  - intros l1 f pats l2 Hsplit Hf Hhit Hothers.
    assert (E : errs <> []).
    { subst errs. rewrite Hsplit, filter_app. cbn [filter]. rewrite Hhit.
      rewrite <- filter_app, (Hall _ Hothers).
      rewrite Hsplit, length_app in Hlen. simpl in Hlen.
      destruct l1; [destruct l2; [discriminate Hlen | discriminate]
                   | discriminate]. }
    rewrite (Hdirty E).
    destruct (no_critical d) eqn:N; [|reflexivity].
    rewrite no_critical_true in N. specialize (N f Hf).
    pose proof (proj1 (Hattr f) N pats) as M.
    rewrite Hsplit in M. rewrite M in Hhit; [discriminate|].
    apply in_or_app. right. now left.
  - intros Hhit. apply Hclean. subst errs. now rewrite (Hnone _ Hhit).
Qed.

(** C2.  [identify_issuer] scans the registry in order, each profile's
    identifier patterns in order, with a case-insensitive search: when a
    profile is recognised in the text and no profile registered before it
    is, the result is that profile's name; when no profile is recognised
    the result is [None]. *)
Theorem identify_issuer_registry_order (text : pystr) :
  (forall pre name cfg post,
      PARSERS = pre ++ (name, cfg) :: post ->
      recognised cfg text ->
      (forall e, In e pre -> ~ recognised (snd e) text) ->
      identify_issuer text = Some name)
  /\ ((forall e, In e PARSERS -> ~ recognised (snd e) text) ->
      identify_issuer text = None).
Proof.
  split.
  - intros pre name cfg post Hsplit Hrec Hpre.
    unfold Parser.identify_issuer. rewrite Hsplit.
    rewrite identify_in_skip
      by (intros e He; apply unrecognised_no_identifier, Hpre, He).
    simpl. apply any_identifier_true in Hrec. now rewrite Hrec.
  - intros Hnone. now apply identify_in_none.
Qed.

(** C6, as the code has it.  When the text is read and no profile is
    recognised in it, the record has issuer "Unknown", status "failed",
    the single diagnostic "Could not identify credit card issuer", and
    none of the eight fields. *)
Theorem unidentified_record (pdf_path : Path) (text : pystr) :
  extract_text_from_pdf pdf_path = Ok text ->
  (forall e, In e PARSERS -> ~ recognised (snd e) text) ->
  let r := parse_statement pdf_path in
  issuer r = str "Unknown"
  /\ parsing_status r = str "failed"
  /\ errors r = [str "Could not identify credit card issuer"]
  /\ forall f, getattr r f = None.
Proof.
  intros Ht Hnone r. subst r.
  rewrite (parse_statement_read _ Ht).
  rewrite parse_text_unidentified by now apply identify_in_none.
  repeat split. intros f; destruct f; reflexivity.
Qed.

Lemma extract_text_from_pdf_message (pdf_path : Path) (msg : pystr) :
  extract_text_from_pdf pdf_path = Raise msg ->
  exists e,
    msg = str "Failed to extract text from PDF: " ++ e
    /\ (pdfplumber_open pdf_path = Raise e
        \/ exists pages, pdfplumber_open pdf_path = Ok pages
                         /\ read_pages page_extract_text pages [] = Raise e).
Proof.
  unfold Parser.extract_text_from_pdf.
  destruct (pdfplumber_open pdf_path) as [pages|e] eqn:E; simpl.
  - destruct (read_pages page_extract_text pages []) as [t|e] eqn:R;
      [discriminate|].
    intros [= <-]. exists e. split; [reflexivity|]. right. eauto.
  - intros [= <-]. exists e. auto.
Qed.

(** *** The batch *)

Section Batch.

Variable write_stdout : list pystr -> pystr -> result unit.

Local Abbreviation progress_line := (Parser.progress_line path_name).
Local Abbreviation process :=
  (Parser.process re_search PARSERS path_name pdfplumber_open
                  page_extract_text write_stdout).
Local Abbreviation process_all :=
  (Parser.process_all re_search PARSERS path_name pdfplumber_open
                      page_extract_text write_stdout).
Local Abbreviation parse_multiple :=
  (Parser.parse_multiple re_search PARSERS path_name pdfplumber_open
                         page_extract_text write_stdout).
Local Abbreviation prints_accepted :=
  (Parser.prints_accepted re_search PARSERS path_name pdfplumber_open
                          page_extract_text write_stdout).
Local Abbreviation batch_lines :=
  (Parser.batch_lines re_search PARSERS path_name pdfplumber_open
                      page_extract_text).

(** An iteration runs to its end exactly when both lines are taken. *)
Lemma process_completed (st st' : parser_state) (pdf_path : Path) :
  process st pdf_path = Completed st'
  <-> (write_stdout (stdout st) (progress_line pdf_path) = Ok tt
       /\ write_stdout (stdout st ++ [progress_line pdf_path])
                       (status_line (parse_statement pdf_path)) = Ok tt
       /\ st' = mkParser (results st ++ [parse_statement pdf_path])
                         (stdout st ++ [progress_line pdf_path;
                                        status_line (parse_statement pdf_path)])).
Proof.
  unfold Parser.process, print. cbn [stdout results].
  destruct (write_stdout (stdout st) (progress_line pdf_path)) as [[]|e];
    [|split; [discriminate | intros (H & _); discriminate]].
  cbn [stdout results].
  destruct (write_stdout (stdout st ++ [progress_line pdf_path])
                         (status_line (parse_statement pdf_path))) as [[]|e];
    [|split; [discriminate | intros (_ & H & _); discriminate]].
  cbn [stdout results]. rewrite <- app_assoc. cbn [app].
  split.
  - intros [= <-]. auto.
  - intros (_ & _ & ->). reflexivity.
Qed.

Lemma process_all_completed (pdf_paths : list Path) (st st' : parser_state) :
  process_all pdf_paths st = Completed st'
  <-> (prints_accepted (stdout st) pdf_paths
       /\ st' = mkParser (results st ++ map parse_statement pdf_paths)
                         (stdout st ++ batch_lines pdf_paths)).
Proof.
  revert st. induction pdf_paths as [|p ps IH]; intros st.
  - cbn. rewrite !app_nil_r. destruct st as [rs out]. cbn. split.
    + intros [= <-]. auto.
    + intros (_ & ->). reflexivity.
  - cbn [Parser.process_all Parser.prints_accepted map batch_lines flat_map].
    fold (batch_lines ps).
    destruct (process st p) as [st1|e st1] eqn:E.
    + apply process_completed in E. destruct E as (W1 & W2 & ->).
      rewrite IH. cbn [stdout results]. rewrite <- !app_assoc. cbn [app].
      split.
      * intros (A & ->). auto.
      * intros ((_ & _ & A) & ->). auto.
    + split; [discriminate|]. intros ((W1 & W2 & _) & _). exfalso.
      assert (C : process st p
                  = Completed
                      (mkParser (results st ++ [parse_statement p])
                                (stdout st ++ [progress_line p;
                                               status_line (parse_statement p)])))
        by (apply process_completed; auto).
      congruence.
Qed.

(** [parse_multiple] returns exactly when every line is taken, and then
    returns the records of [parse_statement], which [self.results] holds,
    having printed two lines per document. *)
Lemma parse_multiple_returns
      (pdf_paths : list Path) (st : parser_state)
      (rs : list StatementData) (st' : parser_state) :
  parse_multiple pdf_paths st = (Ok rs, st')
  <-> (prints_accepted (stdout st) pdf_paths
       /\ rs = map parse_statement pdf_paths
       /\ st' = mkParser (map parse_statement pdf_paths)
                         (stdout st ++ batch_lines pdf_paths)).
Proof.
  unfold Parser.parse_multiple.
  destruct (process_all pdf_paths (mkParser [] (stdout st)))
    as [st1|e st1] eqn:E.
  - apply process_all_completed in E. cbn [stdout results app] in E.
    destruct E as (A & ->). cbn [results]. split.
    + intros [= <- <-]. auto.
    + intros (_ & -> & ->). reflexivity.
  - split; [discriminate|]. intros (A & _). exfalso.
    assert (C : process_all pdf_paths (mkParser [] (stdout st))
                = Completed (mkParser ([] ++ map parse_statement pdf_paths)
                                      (stdout st ++ batch_lines pdf_paths)))
      by (apply process_all_completed; auto).
    congruence.
Qed.

(** The loop stops at the first iteration that raises. *)
Lemma process_all_escapes (before after : list Path) (pdf_path : Path)
      (st st' : parser_state) (e : pystr) :
  prints_accepted (stdout st) before ->
  process (mkParser (results st ++ map parse_statement before)
                    (stdout st ++ batch_lines before)) pdf_path
  = Escaped e st' ->
  process_all (before ++ pdf_path :: after) st = Escaped e st'.
Proof.
  revert st. induction before as [|p ps IH]; intros st A E.
  - cbn in E. rewrite !app_nil_r in E. destruct st as [rs out].
    cbn [app Parser.process_all]. cbn [stdout results] in E. now rewrite E.
  - cbn [app Parser.process_all]. destruct A as (W1 & W2 & A).
    assert (C : process st p
                = Completed
                    (mkParser (results st ++ [parse_statement p])
                              (stdout st ++ [progress_line p;
                                             status_line (parse_statement p)])))
      by (apply process_completed; auto).
    rewrite C. apply IH; cbn [stdout results]; [exact A|].
    cbn [map batch_lines flat_map] in E. fold (batch_lines ps) in E.
    rewrite <- !app_assoc. exact E.
Qed.

(** C4, as the code has it.  When standard output takes every line the
    batch prints, [parse_multiple] returns one record per input document,
    in input order: the list of the records of [parse_statement], which
    always yields a record, carrying the document's name, whether or not
    the text could be read; the list is also what [self.results] then
    holds, whatever it held before.  (A line that standard output refuses
    ends the batch with the exception of [print].) *)
Theorem parse_multiple_one_record_per_document
        (pdf_paths : list Path) (st : parser_state) :
  prints_accepted (stdout st) pdf_paths ->
  let rs := map parse_statement pdf_paths in
  exists st',
    parse_multiple pdf_paths st = (Ok rs, st')
    /\ List.length rs = List.length pdf_paths
    /\ map file_name rs = map path_name pdf_paths
    /\ results st' = rs
    /\ forall i p, nth_error pdf_paths i = Some p ->
                   nth_error rs i = Some (parse_statement p).
Proof.
  intros A rs. subst rs.
  exists (mkParser (map parse_statement pdf_paths)
                   (stdout st ++ batch_lines pdf_paths)).
  split; [apply parse_multiple_returns; auto|].
  split; [apply length_map|]. split.
  - rewrite map_map. apply map_ext. intros p.
    apply parse_statement_file_name.
  - split; [reflexivity|].
    intros i p H. now apply map_nth_error.
Qed.

(** C7.  A record has status "error" exactly when reading the document's
    text failed.  The record then has issuer "Error", none of the eight
    fields, and as its only diagnostic the message of the failure of
    [extract_text_from_pdf], which is the PDF library's message after the
    prefix "Failed to extract text from PDF: ".  In a batch whose lines
    standard output takes, the documents after the failing one get the
    records they get on their own. *)
Theorem error_status_only_on_extraction_failure (pdf_path : Path) :
  let r := parse_statement pdf_path in
  (parsing_status r = str "error" <->
   exists msg, extract_text_from_pdf pdf_path = Raise msg)
  /\ (forall msg,
         extract_text_from_pdf pdf_path = Raise msg ->
         issuer r = str "Error" /\ parsing_status r = str "error"
         /\ errors r = [msg] /\ In msg (errors r)
         /\ (forall f, getattr r f = None)
         /\ exists e, msg = str "Failed to extract text from PDF: " ++ e)
  /\ (forall before after st,
         prints_accepted (stdout st) (before ++ pdf_path :: after) ->
         fst (parse_multiple (before ++ pdf_path :: after) st)
         = Ok (map parse_statement before ++ r :: map parse_statement after)).
Proof.
  intros r.
  destruct status_values_distinct as (_ & _ & SE & PE & FE & _).
  split; [|split].
  - split.
    + intros Hs. subst r.
      destruct (parse_statement_cases pdf_path)
        as [(msg & E & _) | [(text & _ & Hr) | (text & name & cfg & d & errs
                                           & _ & _ & _ & _ & Ha & Hr)]].
      * eauto.
      * rewrite Hr in Hs. simpl in Hs. congruence.
      * exfalso. rewrite Hr in Hs.
        pose proof (extract_all_frame text (patterns cfg)
                      (StatementData_init (path_name pdf_path) name
                                          (str "success") None) []) as F.
        rewrite Ha in F. simpl in F. destruct F as (_ & _ & Fs & _).
        destruct errs as [|e errs].
        -- rewrite classify_clean in Hs. congruence.
        -- rewrite classify_status in Hs by discriminate.
           destruct (no_critical d); congruence.
    + intros (msg & E). subst r. now rewrite (parse_statement_raise _ E).
  - intros msg E. subst r. rewrite (parse_statement_raise _ E).
    repeat split; try (now left).
    + intros f; destruct f; reflexivity.
    + destruct (extract_text_from_pdf_message _ E) as (e & -> & _). eauto.
  - intros before after st A.
    assert (R : parse_multiple (before ++ pdf_path :: after) st
                = (Ok (map parse_statement (before ++ pdf_path :: after)),
                   mkParser (map parse_statement (before ++ pdf_path :: after))
                            (stdout st
                             ++ batch_lines (before ++ pdf_path :: after))))
      by (apply parse_multiple_returns; auto).
    rewrite R, map_app. reflexivity.
Qed.

End Batch.

(** C8.  When [p1] and [p2] are both found in the text, [extract_field] on
    [[p1; p2]] returns the value of [p1]'s match; more generally the
    value of the first pattern that is found is returned whatever patterns
    follow it in the list. *)
Theorem extract_field_first_match_wins
        (text p1 p2 : pystr) (m1 m2 : Match) :
  re_search p1 text flags = Some m1 ->
  re_search p2 text flags = Some m2 ->
  extract_field text [p1; p2] = match_value m1
  /\ (forall rest, extract_field text (p1 :: rest) = match_value m1)
  /\ (forall pre rest,
         (forall p, In p pre -> re_search p text flags = None) ->
         extract_field text (pre ++ p1 :: rest) = match_value m1).
Proof.
  intros H1 _. split; [|split].
  - now apply extract_field_hit.
  - intros rest. now apply extract_field_hit.
  - intros pre rest Hpre. rewrite extract_field_skip by exact Hpre.
    now apply extract_field_hit.
Qed.

(** C10.  The status of a record made by [parse_statement] is "success"
    exactly when its errors list is empty; a record with any other status
    carries at least one diagnostic. *)
Theorem success_iff_no_errors (pdf_path : Path) :
  let r := parse_statement pdf_path in
  (parsing_status r = str "success" <-> errors r = [])
  /\ (parsing_status r <> str "success" -> 1 <= List.length (errors r)).
Proof.
  intros r.
  destruct status_values_distinct as (SP & SF & SE & _).
  assert (H : parsing_status r = str "success" <-> errors r = []).
  { subst r.
    destruct (parse_statement_cases pdf_path)
      as [(msg & _ & ->) | [(text & _ & ->) | (text & name & cfg & d & errs
                                              & _ & _ & _ & _ & Ha & ->)]].
    - simpl. split; [congruence | discriminate].
    - simpl. split; [congruence | discriminate].
    - pose proof (extract_all_frame text (patterns cfg)
                    (StatementData_init (path_name pdf_path) name
                                        (str "success") None) []) as F.
      rewrite Ha in F. simpl in F. destruct F as (_ & _ & Fs & Fe).
      rewrite (classify_errors d errs Fe).
      destruct errs as [|e errs].
      + rewrite classify_clean. tauto.
      + rewrite classify_status by discriminate.
        split; [|discriminate].
        destruct (no_critical d); congruence. }
  split; [exact H|].
  intros N. destruct (errors r) as [|e l]; [|simpl; lia].
  elim N. now apply H.
Qed.

End Properties.

(* ------------------------------------------------------------------ *)
(** ** The parser of [main.py] on concrete statements *)

Lemma every_pattern_compiles :
  forallb (fun p => negb (is_none (Re.compile p))) Main.every_pattern = true.
Proof. vm_compute. reflexivity. Qed.

(** No pattern of the registry repeats an expression that can match the
    empty string. *)
Lemma every_pattern_repeats_consume :
  forallb (fun p => match Re.compile p with
                    | Some (r, _) => Re.consuming_repeats r
                    | None => false
                    end)
          Main.every_pattern = true.
Proof. vm_compute. reflexivity. Qed.

Example search_backtracks :
  Re.search (str "(\d+)\d-") (str "a1234-") 0
  = Some (mkMatch (str "1234-") [Some (str "123")]).
Proof. vm_compute. reflexivity. Qed.

Example search_lazy_and_greedy :
  Re.search (str "<(.+?)>(.*)>") (str "<a><b>") 0
  = Some (mkMatch (str "<a><b>") [Some (str "a"); Some (str "<b")]).
Proof. vm_compute. reflexivity. Qed.

Example search_unset_group :
  Re.search (str "(a)|(b)") (str "b") 0
  = Some (mkMatch (str "b") [None; Some (str "b")]).
Proof. vm_compute. reflexivity. Qed.

Example search_multiline_anchor :
  Re.search (str "^b$") (str "a" ++ Main.nl ++ str "b") 0 = None
  /\ Re.search (str "^B$") (str "a" ++ Main.nl ++ str "b")
                (N.lor IGNORECASE MULTILINE)
     = Some (mkMatch (str "b") []).
Proof. split; vm_compute; reflexivity. Qed.

Example search_is_leftmost :
  Re.search (str "[0-9,]+\.?\d{0,2}") (str "pay 1,250.755 or 9") 0
  = Some (mkMatch (str "1,250.75") []).
Proof. vm_compute. reflexivity. Qed.

Example identify_ignores_case :
  Main.identify_issuer (str "statement of your icici   BANK card")
  = Some (str "ICICI Bank").
Proof. vm_compute. reflexivity. Qed.

Example identify_prefers_registry_order :
  Main.identify_issuer (str "AMEX card, billed through axisbank.com")
  = Some (str "Axis Bank").
Proof. vm_compute. reflexivity. Qed.

Example icici_bare_failed :
  parsing_status
    (Main.parse_statement (Main.text_document (str "a.pdf") Main.icici_bare_text))
  = str "failed".
Proof. vm_compute. reflexivity. Qed.

Example icici_card_only_partial :
  parsing_status
    (Main.parse_statement
       (Main.text_document (str "a.pdf") Main.icici_card_only_text))
  = str "partial".
Proof. vm_compute. reflexivity. Qed.

Example icici_full_success :
  Main.parse_statement (Main.text_document (str "a.pdf") Main.icici_full_text)
  = mkStatementData (str "a.pdf") (str "ICICI Bank")
      (Some (str "4321XXXXXXXX1234")) (Some (str "12 Dec, 2024"))
      (Some (str "05 Jan, 2025")) (Some (str "12,345.67"))
      (Some (str "620.00")) (Some (str "1,00,000.00"))
      (Some (str "87,654.33")) (Some (str "2,000.00"))
      (str "success") [].
Proof. vm_compute. reflexivity. Qed.

(* ------------------------------------------------------------------ *)
(** ** The claims that involve the engine or concrete statements *)

(** C3.  When the first pattern that is found defines capture groups,
    [extract_field] returns what the last group captured ([None] when that
    group took no part in the match); the pattern [(\d{2})-(\d{2})-(\d{4})]
    on "01-02-2024" gives "2024", where the first group holds "01". *)
Theorem extract_field_last_group :
  (forall (re_search : pystr -> pystr -> N -> option Match)
          (text : pystr) (pre : list pystr) (p : pystr) (rest : list pystr)
          (mt : Match),
      (forall q, In q pre ->
                 re_search q text (N.lor IGNORECASE MULTILINE) = None) ->
      re_search p text (N.lor IGNORECASE MULTILINE) = Some mt ->
      groups mt <> [] ->
      Parser.extract_field re_search text (pre ++ p :: rest)
      = last (groups mt) None)
  /\ Re.search (str "(\d{2})-(\d{2})-(\d{4})") (str "01-02-2024")
               (N.lor IGNORECASE MULTILINE)
     = Some (mkMatch (str "01-02-2024")
                     [Some (str "01"); Some (str "02"); Some (str "2024")])
  /\ Main.extract_field (str "01-02-2024") [str "(\d{2})-(\d{2})-(\d{4})"]
     = Some (str "2024").
Proof.
  split; [|split; vm_compute; reflexivity].
  intros re_search text pre p rest mt Hpre Hp Hg.
  rewrite extract_field_skip by exact Hpre.
  rewrite extract_field_hit with (mt := mt) by exact Hp.
  now apply match_value_groups.
Qed.

Lemma extract_field_last_group_witness :
  Main.extract_field (str "due 01-02-2024")
                     [str "(\d{4})/(\d{2})"; str "(\d{2})-(\d{2})-(\d{4})"]
  = Some (str "2024").
Proof.
  refine (eq_trans
            (proj1 extract_field_last_group Re.search (str "due 01-02-2024")
                   [str "(\d{4})/(\d{2})"] (str "(\d{2})-(\d{2})-(\d{4})") []
                   (mkMatch (str "01-02-2024")
                            [Some (str "01"); Some (str "02");
                             Some (str "2024")])
                   _ _ _) _).
  - intros q [<-|[]]. vm_compute. reflexivity.
  - vm_compute. reflexivity.
  - discriminate.
  - vm_compute. reflexivity.
Defined.

(** The record of the end-to-end statement, for any file name. *)
Lemma icici_parse_text (file_name : pystr) :
  Parser.parse_text Re.search Main.PARSERS file_name Main.icici_text
  = Ok (mkStatementData file_name (str "ICICI Bank")
          None None (Some (str "05 Jan, 2025")) (Some (str "12,345.67"))
          None None None None
          (str "partial")
          [str "Could not extract card_number";
           str "Could not extract statement_date";
           str "Could not extract minimum_amount_due";
           str "Could not extract credit_limit";
           str "Could not extract available_credit";
           str "Could not extract previous_balance"]).
Proof. vm_compute. reflexivity. Qed.

(** *** A phrase inside a longer text

    The engine runs alike wherever in the subject the attempt starts, so
    what a search finds at a phrase can be computed on the phrase and what
    follows it. *)

Section Occurrences.

Import Re.

Variable fl : N.

Lemma shift_advance (d : nat) (s : mstate) (x : N) (xs : pystr) :
  advance (shift d s) x xs = shift d (advance s x xs).
Proof. unfold advance, shift. simpl. f_equal. lia. Qed.

Lemma shift_set_cap (d i : nat) (v : pystr) (s : mstate) :
  set_cap i v (shift d s) = shift d (set_cap i v s).
Proof. reflexivity. Qed.

Lemma orelse_map (f : mstate -> mstate) (a b : option mstate) :
  orelse (option_map f a) (option_map f b) = option_map f (orelse a b).
Proof. destruct a; reflexivity. Qed.

Lemma one_shifts (p : N -> bool) : shifts (one p).
Proof.
  intros d s k k' K. unfold one. cbn [rest shift].
  destruct (rest s) as [|x xs]; [reflexivity|].
  destruct (p x); [|reflexivity].
  rewrite shift_advance. apply K.
Qed.

Section Step.
Variable step : mstate -> (mstate -> option mstate) -> option mstate.
Hypothesis step_shifts : shifts step.

Lemma rep_min_shifts (n : nat) : shifts (rep_min step n).
Proof.
  induction n as [|n IH]; intros d s k k' K; simpl.
  - apply K.
  - apply step_shifts. intros s'. now apply IH.
Qed.

Lemma rep_opt_shifts (greedy : bool) (fuel : nat) (budget : option nat) :
  shifts (rep_opt step greedy fuel budget).
Proof.
  revert budget. induction fuel as [|fuel IH]; intros budget d s k k' K; simpl.
  - apply K.
  - destruct (spent budget); [apply K|].
    assert (E : step (shift d s)
                     (fun s' => if d + pos s <? pos s'
                                then rep_opt step greedy fuel
                                             (option_map pred budget) s' k
                                else None)
                = option_map (shift d)
                    (step s (fun s' => if pos s <? pos s'
                                       then rep_opt step greedy fuel
                                                    (option_map pred budget) s' k'
                                       else None))).
    { apply step_shifts. intros s'. cbn [pos shift].
      replace (d + pos s <? d + pos s') with (pos s <? pos s')
        by (destruct (Nat.ltb_spec (pos s) (pos s')),
                     (Nat.ltb_spec (d + pos s) (d + pos s'));
            try reflexivity; lia).
      destruct (pos s <? pos s'); [|reflexivity].
      now apply IH. }
    rewrite E, (K s). destruct greedy; apply orelse_map.
Qed.

End Step.

Lemma m_shifts (r : regex) : shifts (m fl r).
Proof.
  induction r as [| c | | neg c | neg items | | | a IHa b IHb
                  | a IHa b IHb | a IHa lo hi greedy | i a IHa];
    cbn [m]; try apply one_shifts.
  - intros d s k k' K. apply K.
  - intros d s k k' K. change (at_bol fl (shift d s)) with (at_bol fl s).
    destruct (at_bol fl s); [apply K | reflexivity].
  - intros d s k k' K. change (at_eol fl (shift d s)) with (at_eol fl s).
    destruct (at_eol fl s); [apply K | reflexivity].
  - intros d s k k' K. apply IHa. intros s'. now apply IHb.
  - intros d s k k' K.
    rewrite (IHa d s k k' K), (IHb d s k k' K). apply orelse_map.
  - intros d s k k' K. apply rep_min_shifts; [exact IHa|].
    intros s'. cbn [rest shift]. now apply rep_opt_shifts.
  - intros d s k k' K. apply IHa. intros s'. cbn [pos rest shift].
    replace (d + pos s' - (d + pos s)) with (pos s' - pos s) by lia.
    rewrite shift_set_cap. apply K.
Qed.

Lemma match_of_shift (n d : nat) (s s' : mstate) :
  match_of n (shift d s) (shift d s') = match_of n s s'.
Proof.
  unfold match_of. cbn [pos rest caps shift].
  now replace (d + pos s' - (d + pos s)) with (pos s' - pos s) by lia.
Qed.

(** A search finds the same match whatever the number of characters
    before the part it runs over. *)
Lemma search_from_shift (r : regex) (n d : nat) (text : pystr) :
  forall (p : nat) (pv : option N),
    search_from fl r n (d + p) pv text = search_from fl r n p pv text.
Proof.
  induction text as [|x xs IH]; intros p pv; cbn [search_from];
    change (mkState (d + p) pv ?t []) with (shift d (mkState p pv t []));
    rewrite (@m_shifts r d _ (fun s' => Some s') (fun s' => Some s')
               (fun _ => eq_refl)).
  - destruct (m fl r (mkState p pv [] []) (fun s' => Some s')) as [s'|];
      cbn [option_map]; [|reflexivity].
    now rewrite match_of_shift.
  - destruct (m fl r (mkState p pv (x :: xs) []) (fun s' => Some s'))
      as [s'|]; cbn [option_map].
    + now rewrite match_of_shift.
    + rewrite <- (IH (S p) (Some x)). f_equal. lia.
Qed.

Lemma search_from_origin (r : regex) (n p : nat) (pv : option N)
      (text : pystr) :
  search_from fl r n p pv text = search_from fl r n 0 pv text.
Proof.
  rewrite <- (search_from_shift r n p text 0 pv). f_equal. lia.
Qed.

Lemma prev_after_cons (pv : option N) (x : N) (xs : pystr) :
  prev_after pv (x :: xs) = prev_after (Some x) xs.
Proof.
  unfold prev_after. cbn [map].
  assert (L : forall (l : list (option N)) a d, last (a :: l) d = last l a).
  { induction l as [|b l IH]; intros a d; [reflexivity|].
    change (last (a :: b :: l) d) with (last (b :: l) d).
    now rewrite !IH. }
  apply L.
Qed.

(** When no match starts in [before], the search returns what it finds
    from the end of [before] on. *)
Lemma search_from_unmatched (r : regex) (n : nat) (before rest : pystr) :
  forall (p : nat) (pv : option N),
    none_starts_in fl r p pv before rest = true ->
    search_from fl r n p pv (before ++ rest)
    = search_from fl r n 0 (prev_after pv before) rest.
Proof.
  induction before as [|x xs IH]; intros p pv H.
  - apply search_from_origin.
  - cbn [none_starts_in] in H. apply andb_true_iff in H. destruct H as [H1 H2].
    apply is_none_true in H1.
    cbn [app search_from]. cbn [app] in H1. rewrite H1.
    rewrite (IH _ _ H2). now rewrite prev_after_cons.
Qed.

(** When a match starts at the end of [before], the search finds one, there
    or earlier. *)
Lemma search_from_finds (r : regex) (n : nat) (before rest : pystr) :
  (forall pv, search_from fl r n 0 pv rest <> None) ->
  forall (p : nat) (pv : option N),
    search_from fl r n p pv (before ++ rest) <> None.
Proof.
  intros H. induction before as [|x xs IH]; intros p pv.
  - cbn [app]. rewrite search_from_origin. apply H.
  - cbn [app search_from].
    destruct (m fl r (mkState p pv (x :: xs ++ rest) []) (fun s' => Some s'));
      [discriminate | apply IH].
Qed.

End Occurrences.

Lemma search_unmatched_before (pattern : pystr) (flags : N)
      (before rest : pystr) :
  unmatched_before pattern flags before rest = true ->
  exists r n,
    Re.compile pattern = Some (r, n)
    /\ Re.search pattern (before ++ rest) flags
       = Re.search_from flags r n 0 (prev_after None before) rest.
Proof.
  unfold unmatched_before, Re.search.
  destruct (Re.compile pattern) as [[r n]|]; [|discriminate].
  intros H. exists r, n. split; [reflexivity|].
  now apply search_from_unmatched.
Qed.

(** The name of the bank, wherever it stands, identifies the issuer: its
    profile is the first of the registry. *)
Lemma icici_identified (a a' : pystr) :
  Main.identify_issuer (a ++ str "ICICI Bank" ++ a') = Some (str "ICICI Bank").
Proof.
  unfold Main.identify_issuer, Parser.identify_issuer, Main.PARSERS.
  cbn [Parser.identify_in]. unfold Main.ICICI_Bank at 1.
  cbn [identifier Parser.any_identifier].
  assert (F : Re.search (str "ICICI\s+Bank") (a ++ str "ICICI Bank" ++ a')
                        IGNORECASE <> None).
  { unfold Re.search.
    assert (C : exists r n, Re.compile (str "ICICI\s+Bank") = Some (r, n)
                            /\ forall pv, Parser.is_none
                                            (Re.search_from IGNORECASE r n 0 pv
                                               (str "ICICI Bank" ++ a'))
                                          = false).
    { eexists. eexists. split; [vm_compute; reflexivity|].
      intros pv. vm_compute. reflexivity. }
    destruct C as (r & n & -> & C).
    apply search_from_finds. intros pv. apply is_none_false, C. }
  destruct (Re.search (str "ICICI\s+Bank") (a ++ str "ICICI Bank" ++ a')
                      IGNORECASE); [reflexivity | congruence].
Qed.

(** What the first pattern of [total_amount_due] finds at the phrase,
    whatever precedes and follows it. *)
Lemma icici_total_found (pv : option N) (b' : pystr) :
  exists r n,
    Re.compile (str "Total\s+Amount\s+due[:\s]*[₹`Rs\.?\s]*([0-9,]+\.?\d{0,2})")
    = Some (r, n)
    /\ Re.search_from (N.lor IGNORECASE MULTILINE) r n 0 pv
         (str "Total Amount due: Rs. 12,345.67" ++ b')
       = Some (mkMatch (str "Total Amount due: Rs. 12,345.67")
                       [Some (str "12,345.67")]).
Proof.
  eexists. eexists. split; [vm_compute; reflexivity|].
  destruct b' as [|x b']; vm_compute; reflexivity.
Qed.

(** What the first pattern of [payment_due_date] finds at the phrase. *)
Lemma icici_due_date_found (pv : option N) (c' : pystr) :
  exists r n,
    Re.compile (str "PAYMENT\s+DUE\s+DATE[:\s]*(\d{1,2}\s+\w+,?\s+\d{4})")
    = Some (r, n)
    /\ Re.search_from (N.lor IGNORECASE MULTILINE) r n 0 pv
         (str "Payment Due Date: 05 Jan, 2025" ++ c')
       = Some (mkMatch (str "Payment Due Date: 05 Jan, 2025")
                       [Some (str "05 Jan, 2025")]).
Proof.
  eexists. eexists. split; [vm_compute; reflexivity|].
  destruct c' as [|x c']; vm_compute; reflexivity.
Qed.

(** C5, as the code has it.  A document whose text contains "ICICI Bank",
    "Total Amount due: Rs. 12,345.67" and "Payment Due Date: 05 Jan, 2025",
    anywhere and in any order, and no other recognizable field (the search
    for the total and the one for the due date match nowhere before these
    phrases, and the patterns of the six other fields find nothing in the
    text), gives issuer "ICICI Bank", total_amount_due "12,345.67",
    payment_due_date "05 Jan, 2025", no card_number, status "partial", and
    an errors list that contains "Could not extract card_number"; the list
    holds one such diagnostic for each of the six fields not found. *)
Theorem icici_end_to_end
        (Path Page : Type) (path_name : Path -> pystr)
        (pdfplumber_open : Path -> result (list Page))
        (page_extract_text : Page -> result (option pystr))
        (pdf_path : Path) (text a a' b b' c c' : pystr) :
  Parser.extract_text_from_pdf pdfplumber_open page_extract_text pdf_path
  = Ok text ->
  text = a ++ str "ICICI Bank" ++ a' ->
  text = b ++ str "Total Amount due: Rs. 12,345.67" ++ b' ->
  text = c ++ str "Payment Due Date: 05 Jan, 2025" ++ c' ->
  unmatched_before
    (str "Total\s+Amount\s+due[:\s]*[₹`Rs\.?\s]*([0-9,]+\.?\d{0,2})")
    (N.lor IGNORECASE MULTILINE)
    b (str "Total Amount due: Rs. 12,345.67" ++ b') = true ->
  unmatched_before
    (str "PAYMENT\s+DUE\s+DATE[:\s]*(\d{1,2}\s+\w+,?\s+\d{4})")
    (N.lor IGNORECASE MULTILINE)
    c (str "Payment Due Date: 05 Jan, 2025" ++ c') = true ->
  (forall f pats,
      In (f, pats) (patterns Main.ICICI_Bank) ->
      f <> TotalAmountDue -> f <> PaymentDueDate ->
      Main.extract_field text pats = None) ->
  let r := Parser.parse_statement Re.search Main.PARSERS path_name
                                  pdfplumber_open page_extract_text pdf_path in
  issuer r = str "ICICI Bank"
  /\ total_amount_due r = Some (str "12,345.67")
  /\ payment_due_date r = Some (str "05 Jan, 2025")
  /\ card_number r = None
  /\ parsing_status r = str "partial"
  /\ In (str "Could not extract card_number") (errors r)
  /\ errors r = map diagnostic
                    [CardNumber; StatementDate; MinimumAmountDue; CreditLimit;
                     AvailableCredit; PreviousBalance]
  /\ file_name r = path_name pdf_path.
Proof.
  intros Ht Ha Hb Hc Ub Uc Hnone r. subst r.
  rewrite parse_statement_read with (text := text) by exact Ht.
  assert (Hid : Parser.identify_issuer Re.search Main.PARSERS text
                = Some (str "ICICI Bank"))
    by (rewrite Ha; apply icici_identified).
  assert (Htot : Parser.extract_field Re.search text
                   [str "Total\s+Amount\s+due[:\s]*[₹`Rs\.?\s]*([0-9,]+\.?\d{0,2})";
                    str "Total\s+Payment\s+Due[:\s]*[₹`Rs\.?\s]*([0-9,]+\.?\d{0,2})"]
                 = Some (str "12,345.67")).
  { destruct (search_unmatched_before _ _ _ _ Ub) as (r & n & C & S).
    destruct (icici_total_found (prev_after None b) b') as (r' & n' & C' & F).
    rewrite C in C'. injection C' as <- <-.
    cbn [Parser.extract_field]. rewrite Hb, S, F. reflexivity. }
  assert (Hdue : Parser.extract_field Re.search text
                   [str "PAYMENT\s+DUE\s+DATE[:\s]*(\d{1,2}\s+\w+,?\s+\d{4})";
                    str "Payment\s+Due\s+Date[:\s]*(\w+\s+\d{1,2},\s+\d{4})"]
                 = Some (str "05 Jan, 2025")).
  { destruct (search_unmatched_before _ _ _ _ Uc) as (r & n & C & S).
    destruct (icici_due_date_found (prev_after None c) c') as (r' & n' & C' & F).
    rewrite C in C'. injection C' as <- <-.
    cbn [Parser.extract_field]. rewrite Hc, S, F. reflexivity. }
  assert (Hrest : forall f pats,
             In (f, pats) (patterns Main.ICICI_Bank) ->
             f <> TotalAmountDue -> f <> PaymentDueDate ->
             Parser.extract_field Re.search text pats = None)
    by exact Hnone.
  assert (G : Parser.getitem Main.PARSERS (str "ICICI Bank")
              = Ok Main.ICICI_Bank) by (vm_compute; reflexivity).
  unfold Parser.parse_text. rewrite Hid.
  remember (str "ICICI Bank") as name eqn:En.
  destruct name as [|ch name]; [vm_compute in En; discriminate|].
  rewrite G, En. cbn [bind]. unfold Main.ICICI_Bank.
  cbn [patterns Parser.extract_all].
  rewrite Htot, Hdue.
  rewrite (Hrest CardNumber _ (or_introl eq_refl)) by discriminate.
  rewrite (Hrest StatementDate _ (or_intror (or_introl eq_refl)))
    by discriminate.
  rewrite (Hrest MinimumAmountDue _
             (or_intror (or_intror (or_intror (or_intror (or_introl eq_refl))))))
    by discriminate.
  rewrite (Hrest CreditLimit _
             (or_intror (or_intror (or_intror (or_intror
                (or_intror (or_introl eq_refl)))))))
    by discriminate.
  rewrite (Hrest AvailableCredit _
             (or_intror (or_intror (or_intror (or_intror
                (or_intror (or_intror (or_introl eq_refl))))))))
    by discriminate.
  rewrite (Hrest PreviousBalance _
             (or_intror (or_intror (or_intror (or_intror
                (or_intror (or_intror (or_intror (or_introl eq_refl)))))))))
    by discriminate.
  vm_compute. repeat split. now left.
Qed.

Example icici_end_to_end_other_layout :
  let r := Main.parse_statement
             (Main.text_document
                (str "jan.pdf")
                (str "Payment Due Date: 05 Jan, 2025  Total Amount due: Rs. 12,345.67"
                 ++ str "  (ICICI Bank)")) in
  issuer r = str "ICICI Bank"
  /\ total_amount_due r = Some (str "12,345.67")
  /\ payment_due_date r = Some (str "05 Jan, 2025")
  /\ card_number r = None
  /\ parsing_status r = str "partial".
Proof. vm_compute. repeat split. Qed.

Lemma icici_end_to_end_witness :
  let r := Main.parse_statement
             (Main.text_document (str "january.pdf") Main.icici_letter_text) in
  issuer r = str "ICICI Bank"
  /\ total_amount_due r = Some (str "12,345.67")
  /\ payment_due_date r = Some (str "05 Jan, 2025")
  /\ card_number r = None
  /\ parsing_status r = str "partial"
  /\ In (str "Could not extract card_number") (errors r)
  /\ errors r = map diagnostic
                    [CardNumber; StatementDate; MinimumAmountDue; CreditLimit;
                     AvailableCredit; PreviousBalance]
  /\ file_name r = str "january.pdf".
Proof.
  refine (@icici_end_to_end
            _ _ Main.doc_name Main.doc_pages Main.page_text
            (Main.text_document (str "january.pdf") Main.icici_letter_text)
            Main.icici_letter_text
            (str "Dear customer, thank you for banking with ")
            (str "." ++ Main.nl ++ str "Please note: "
             ++ str "Payment Due Date: 05 Jan, 2025" ++ str " | "
             ++ str "Total Amount due: Rs. 12,345.67"
             ++ str " (incl. taxes)" ++ Main.nl)
            (str "Dear customer, thank you for banking with "
             ++ str "ICICI Bank" ++ str "." ++ Main.nl ++ str "Please note: "
             ++ str "Payment Due Date: 05 Jan, 2025" ++ str " | ")
            (str " (incl. taxes)" ++ Main.nl)
            (str "Dear customer, thank you for banking with "
             ++ str "ICICI Bank" ++ str "." ++ Main.nl ++ str "Please note: ")
            (str " | " ++ str "Total Amount due: Rs. 12,345.67"
             ++ str " (incl. taxes)" ++ Main.nl)
            _ _ _ _ _ _ _).
  - vm_compute. reflexivity.
  - vm_compute. reflexivity.
  - vm_compute. reflexivity.
  - vm_compute. reflexivity.
  - vm_compute. reflexivity.
  - vm_compute. reflexivity.
  - intros f pats Hin N1 N2. unfold Main.ICICI_Bank in Hin.
    cbn [patterns In] in Hin.
    repeat (destruct Hin as [Hin|Hin];
            [injection Hin as <- <-; try congruence; vm_compute; reflexivity|]).
    destruct Hin.
Defined.

(** The diagnostic of the end-to-end statement starts with a capital: the
    lower-case string is not in the errors list. *)
Lemma icici_diagnostic_not_lowercase :
  Main.extract_text_from_pdf
    (Main.text_document (str "december.pdf") Main.icici_text)
  = Ok Main.icici_text
  /\ ~ In (str "could not extract card_number")
          (errors (Main.parse_statement
                     (Main.text_document (str "december.pdf")
                                         Main.icici_text))).
Proof.
  split; [vm_compute; reflexivity|].
  vm_compute. intuition discriminate.
Qed.

(** C9, as the code has it.  When the first pattern that is found defines no
    capture group, [extract_field] returns the whole matched substring as it
    stands; surrounding whitespace is removed afterwards, by the loop of
    [parse_statement], when the value is stored in the record. *)
Theorem extract_field_whole_match
        (re_search : pystr -> pystr -> N -> option Match)
        (text : pystr) (pre : list pystr) (p : pystr) (rest : list pystr)
        (mt : Match) :
  (forall q, In q pre -> re_search q text (N.lor IGNORECASE MULTILINE) = None) ->
  re_search p text (N.lor IGNORECASE MULTILINE) = Some mt ->
  groups mt = [] ->
  Parser.extract_field re_search text (pre ++ p :: rest) = Some (group0 mt)
  /\ forall f data errs,
      group0 mt <> [] ->
      Parser.extract_all re_search text [(f, pre ++ p :: rest)] data errs
      = (setattr data f (strip (group0 mt)), errs).
Proof.
  intros Hpre Hp Hg.
  assert (E : Parser.extract_field re_search text (pre ++ p :: rest)
              = Some (group0 mt)).
  { rewrite extract_field_skip by exact Hpre.
    rewrite extract_field_hit with (mt := mt) by exact Hp.
    now apply match_value_whole. }
  split; [exact E|].
  intros f data errs Hne. cbn [Parser.extract_all]. rewrite E.
  destruct (group0 mt); [congruence | reflexivity].
Qed.

Lemma extract_field_whole_match_witness :
  Main.extract_field (str "Due Rs 100") [str "\s+Rs\s+"] = Some (str " Rs ").
Proof.
  refine (proj1 (@extract_field_whole_match Re.search (str "Due Rs 100") []
                   (str "\s+Rs\s+") [] (mkMatch (str " Rs ") []) _ _ _)).
  - intros q [].
  - vm_compute. reflexivity.
  - reflexivity.
Defined.

(** A pattern without groups whose match begins and ends with a space: the
    value returned keeps the spaces. *)
Lemma extract_field_whole_match_not_trimmed :
  Re.search (str "\s+Rs\s+") (str "Due Rs 100") (N.lor IGNORECASE MULTILINE)
  = Some (mkMatch (str " Rs ") [])
  /\ strip (str " Rs ") = str "Rs"
  /\ Main.extract_field (str "Due Rs 100") [str "\s+Rs\s+"]
     <> Some (strip (str " Rs ")).
Proof.
  split; [vm_compute; reflexivity|].
  split; [vm_compute; reflexivity|].
  vm_compute. discriminate.
Qed.

(** A text in which no profile is recognised: the diagnostic is not the
    string "could not identify issuer". *)
Lemma unidentified_diagnostic_differs :
  Main.extract_text_from_pdf
    (Main.text_document (str "note.pdf") (str "grocery list"))
  = Ok (str "grocery list")
  /\ Main.identify_issuer (str "grocery list") = None
  /\ errors (Main.parse_statement
               (Main.text_document (str "note.pdf") (str "grocery list")))
     <> [str "could not identify issuer"].
Proof.
  split; [vm_compute; reflexivity|].
  split; [vm_compute; reflexivity|].
  vm_compute. discriminate.
Qed.

Lemma unidentified_record_witness :
  let r := Main.parse_statement
             (Main.text_document (str "note.pdf") (str "grocery list")) in
  issuer r = str "Unknown"
  /\ parsing_status r = str "failed"
  /\ errors r = [str "Could not identify credit card issuer"]
  /\ forall f, getattr r f = None.
Proof.
  refine (@unidentified_record Re.search Main.PARSERS _ _ Main.doc_name
            Main.doc_pages Main.page_text
            (Main.text_document (str "note.pdf") (str "grocery list"))
            (str "grocery list") _ _).
  - vm_compute. reflexivity.
  - apply identify_in_none_inv. vm_compute. reflexivity.
Defined.

Lemma status_classification_witness :
  parsing_status
    (Main.parse_statement
       (Main.text_document (str "a.pdf") Main.icici_card_only_text))
  = str "partial".
Proof.
  assert (Ht : Main.extract_text_from_pdf
                 (Main.text_document (str "a.pdf") Main.icici_card_only_text)
               = Ok Main.icici_card_only_text) by (vm_compute; reflexivity).
  assert (Hid : Main.identify_issuer Main.icici_card_only_text
                = Some (str "ICICI Bank")) by (vm_compute; reflexivity).
  assert (Hne : str "ICICI Bank" <> []) by (vm_compute; discriminate).
  assert (Hc : getitem Main.PARSERS (str "ICICI Bank") = Ok Main.ICICI_Bank)
    by (vm_compute; reflexivity).
  destruct (@status_classification Re.search Main.PARSERS _ _ Main.doc_name
              Main.doc_pages Main.page_text _ _ _ _ Ht Hid Hne Hc)
    as (_ & _ & _ & _ & Hex).
  destruct (Hex (Permutation_refl _)) as (_ & Hone & _).
  apply (Hone [] CardNumber
              [str "(\d{4}[X]{8}\d{4})"; str "(\d{16})"]
              (tl (patterns Main.ICICI_Bank))).
  - reflexivity.
  - now left.
  - vm_compute. reflexivity.
  - intros fp Hin. simpl in Hin.
    repeat (destruct Hin as [<-|Hin]; [vm_compute; reflexivity|]).
    destruct Hin.
Defined.

Lemma identify_issuer_registry_order_witness :
  Main.identify_issuer (str "AMEX card, billed through axisbank.com")
  = Some (str "Axis Bank").
Proof.
  refine (proj1 (@identify_issuer_registry_order Re.search Main.PARSERS
                   (str "AMEX card, billed through axisbank.com"))
                [(str "ICICI Bank", Main.ICICI_Bank)]
                (str "Axis Bank") Main.Axis_Bank
                (tl (tl Main.PARSERS)) _ _ _).
  - reflexivity.
  - exists (str "axisbank\.com"). split; [right; now left|].
    vm_compute. discriminate.
  - apply identify_in_none_inv. vm_compute. reflexivity.
Defined.

Lemma error_status_witness :
  let r := Main.parse_statement
             (Main.broken_document (str "torn.pdf") (str "No /Root object")) in
  parsing_status r = str "error"
  /\ errors r = [str "Failed to extract text from PDF: No /Root object"]
  /\ fst (Main.parse_multiple
            Main.utf8_stdout
            [Main.broken_document (str "torn.pdf") (str "No /Root object");
             Main.text_document (str "december.pdf") Main.icici_text]
            (mkParser [] []))
     = Ok [r; Main.parse_statement
                (Main.text_document (str "december.pdf") Main.icici_text)].
Proof.
  pose proof (@error_status_only_on_extraction_failure
                Re.search Main.PARSERS _ _ Main.doc_name Main.doc_pages
                Main.page_text Main.utf8_stdout
                (Main.broken_document (str "torn.pdf") (str "No /Root object")))
    as (_ & Hrec & Hbatch).
  assert (Hraise : Main.extract_text_from_pdf
                     (Main.broken_document (str "torn.pdf")
                                           (str "No /Root object"))
                   = Raise (str "Failed to extract text from PDF: No /Root object"))
    by (vm_compute; reflexivity).
  destruct (Hrec _ Hraise) as (_ & Hs & He & _).
  split; [exact Hs|]. split; [exact He|].
  refine (Hbatch [] [Main.text_document (str "december.pdf") Main.icici_text]
                 (mkParser [] []) _).
  vm_compute. repeat split.
Defined.

(** Standard output encoded as ASCII, one document, a statement read in
    full: its status line begins with the check mark, [print] raises
    [UnicodeEncodeError], and [parse_multiple] returns no list. *)
Lemma parse_multiple_raises_on_ascii_stdout :
  let december :=
    Main.text_document (str "december.pdf") Main.icici_full_text in
  parsing_status (Main.parse_statement december) = str "success"
  /\ Main.parse_multiple Main.ascii_stdout [december] (mkParser [] [])
     = (Raise (str "'ascii' codec can't encode character '\u2713' in position 2: ordinal not in range(128)"),
        mkParser [Main.parse_statement december]
                 [str "Processing: december.pdf..."])
  /\ forall rs, fst (Main.parse_multiple Main.ascii_stdout [december]
                                         (mkParser [] []))
                <> Ok rs.
Proof.
  split; [vm_compute; reflexivity|].
  split; [vm_compute; reflexivity|].
  intros rs. vm_compute. discriminate.
Qed.

Lemma parse_multiple_one_record_per_document_witness :
  let docs := [Main.broken_document (str "torn.pdf") (str "No /Root object");
               Main.text_document (str "december.pdf") Main.icici_text] in
  exists st',
    Main.parse_multiple Main.utf8_stdout docs (mkParser [] [])
    = (Ok (map Main.parse_statement docs), st')
    /\ List.length (map Main.parse_statement docs) = List.length docs
    /\ map file_name (map Main.parse_statement docs) = map Main.doc_name docs
    /\ results st' = map Main.parse_statement docs
    /\ forall i p, nth_error docs i = Some p ->
                   nth_error (map Main.parse_statement docs) i
                   = Some (Main.parse_statement p).
Proof.
  refine (@parse_multiple_one_record_per_document
            Re.search Main.PARSERS _ _ Main.doc_name Main.doc_pages
            Main.page_text Main.utf8_stdout
            [Main.broken_document (str "torn.pdf") (str "No /Root object");
             Main.text_document (str "december.pdf") Main.icici_text]
            (mkParser [] []) _).
  vm_compute. repeat split.
Defined.

(** Standard output encoded as ASCII, a document the PDF library refuses
    and a readable one after it: the status line of the first begins with
    the cross, [print] raises, and the second document is never parsed. *)
Lemma extraction_failure_ends_batch_on_ascii_stdout :
  let torn := Main.broken_document (str "torn.pdf") (str "No /Root object") in
  let december := Main.text_document (str "december.pdf") Main.icici_text in
  Main.extract_text_from_pdf torn
  = Raise (str "Failed to extract text from PDF: No /Root object")
  /\ Main.parse_multiple Main.ascii_stdout [torn; december] (mkParser [] [])
     = (Raise (str "'ascii' codec can't encode character '\u2717' in position 2: ordinal not in range(128)"),
        mkParser [Main.parse_statement torn] [str "Processing: torn.pdf..."])
  /\ forall rs, fst (Main.parse_multiple Main.ascii_stdout [torn; december]
                                         (mkParser [] []))
                <> Ok rs.
Proof.
  split; [vm_compute; reflexivity|].
  split; [vm_compute; reflexivity|].
  intros rs. vm_compute. discriminate.
Qed.

Lemma extract_field_first_match_wins_witness :
  Main.extract_field (str "12-34") [str "(\d+)-"; str "-(\d+)"]
  = Some (str "12")
  /\ Main.extract_field (str "12-34") [str "-(\d+)"] = Some (str "34").
Proof.
  split; [|vm_compute; reflexivity].
  refine (eq_trans
            (proj1 (@extract_field_first_match_wins Re.search (str "12-34")
                      (str "(\d+)-") (str "-(\d+)")
                      (mkMatch (str "12-") [Some (str "12")])
                      (mkMatch (str "-34") [Some (str "34")]) _ _)) _).
  - vm_compute. reflexivity.
  - vm_compute. reflexivity.
  - vm_compute. reflexivity.
Defined.

(* ------------------------------------------------------------------ *)
(** ** Further properties of the parser *)

(** *** [str.strip] *)

Lemma lstrip_no_lead (s : pystr) : no_lead (lstrip s).
Proof.
  induction s as [|c s IH]; simpl; [exact I|].
  destruct (isspace c) eqn:E; [exact IH | exact E].
Qed.

Lemma lstrip_fixed (s : pystr) : no_lead s -> lstrip s = s.
Proof. destruct s as [|c s]; simpl; [reflexivity|]. now intros ->. Qed.

Lemma lstrip_suffix (s : pystr) : exists a, s = a ++ lstrip s.
Proof.
  induction s as [|c s (a & IH)]; simpl; [now exists []|].
  destruct (isspace c).
  - exists (c :: a). simpl. now f_equal.
  - now exists [].
Qed.

Lemma rstrip_prefix (s : pystr) : exists b, s = rstrip s ++ b.
Proof.
  unfold rstrip. destruct (lstrip_suffix (rev s)) as (a & E).
  exists (rev a). rewrite <- rev_app_distr, <- E. now rewrite rev_involutive.
Qed.

Lemma no_lead_prefix (u b : pystr) : no_lead (u ++ b) -> no_lead u.
Proof. destruct u; simpl; auto. Qed.

Lemma strip_trimmed (s : pystr) : trimmed (strip s).
Proof.
  unfold trimmed, strip. split.
  - destruct (rstrip_prefix (lstrip s)) as (b & E).
    apply no_lead_prefix with (b := b). rewrite <- E. apply lstrip_no_lead.
  - unfold rstrip. rewrite rev_involutive. apply lstrip_no_lead.
Qed.

Lemma trimmed_strip (s : pystr) : trimmed s -> strip s = s.
Proof.
  intros [A B]. unfold strip, rstrip.
  rewrite (lstrip_fixed _ A), (lstrip_fixed _ B). apply rev_involutive.
Qed.

Lemma strip_infix (s : pystr) : infix (strip s) s.
Proof.
  unfold strip. destruct (lstrip_suffix s) as (a & Ea).
  destruct (rstrip_prefix (lstrip s)) as (b & Eb).
  exists a, b. now rewrite <- Eb.
Qed.

Lemma infix_trans (a b c : pystr) : infix a b -> infix b c -> infix a c.
Proof.
  intros (x & y & ->) (u & v & ->). exists (u ++ x), (y ++ v).
  now rewrite !app_assoc.
Qed.

Lemma diagnostic_inj (f g : field) : diagnostic f = diagnostic g -> f = g.
Proof.
  destruct f, g; intros H; try reflexivity; vm_compute in H; discriminate.
Qed.

Section Further.

Variable re_search : pystr -> pystr -> N -> option Match.
Variable PARSERS : list (pystr * config).
Variables Path Page : Type.
Variable path_name : Path -> pystr.
Variable pdfplumber_open : Path -> result (list Page).
Variable page_extract_text : Page -> result (option pystr).

Local Abbreviation identify_issuer := (Parser.identify_issuer re_search PARSERS).
Local Abbreviation identify_in := (Parser.identify_in re_search).
Local Abbreviation recognised := (Parser.recognised re_search).
Local Abbreviation extract_field := (Parser.extract_field re_search).
Local Abbreviation extract_all := (Parser.extract_all re_search).
Local Abbreviation missing := (Parser.missing re_search).
Local Abbreviation read_pages := (Parser.read_pages page_extract_text).
Local Abbreviation extract_text_from_pdf :=
  (Parser.extract_text_from_pdf pdfplumber_open page_extract_text).
Local Abbreviation parse_text := (Parser.parse_text re_search PARSERS).
Local Abbreviation parse_statement :=
  (Parser.parse_statement re_search PARSERS path_name pdfplumber_open
                          page_extract_text).
Local Abbreviation flags := (N.lor IGNORECASE MULTILINE).

(** *** Reading the text *)

Lemma truthy_text_of (t : option pystr) :
  (if truthy t then match t with Some x => x | None => [] end else [])
  = text_of t.
Proof. destruct t as [[|c x]|]; reflexivity. Qed.

Lemma read_pages_ok (pages : list Page) (ts : list (option pystr))
      (acc : pystr) :
  map page_extract_text pages = map Ok ts ->
  read_pages pages acc = Ok (acc ++ List.concat (map text_of ts)).
Proof.
  revert ts acc. induction pages as [|pg pages IH]; intros [|t ts] acc H;
    simpl in H; try discriminate; simpl.
  - now rewrite app_nil_r.
  - injection H as Hpg Hrest. rewrite Hpg. simpl.
    rewrite truthy_text_of, (IH ts) by exact Hrest.
    now rewrite app_assoc.
Qed.

Lemma read_pages_ok_inv (pages : list Page) (acc text : pystr) :
  read_pages pages acc = Ok text ->
  exists ts, map page_extract_text pages = map Ok ts.
Proof.
  revert acc. induction pages as [|pg pages IH]; intros acc H; simpl in *.
  - now exists [].
  - destruct (page_extract_text pg) as [t|e] eqn:E; simpl in H; [|discriminate].
    destruct (IH _ H) as (ts & Hts). exists (t :: ts). simpl. now rewrite Hts.
Qed.

Lemma read_pages_raise (before : list Page) (page : Page) (after : list Page)
      (ts : list (option pystr)) (e acc : pystr) :
  map page_extract_text before = map Ok ts ->
  page_extract_text page = Raise e ->
  read_pages (before ++ page :: after) acc = Raise e.
Proof.
  revert ts acc. induction before as [|pg before IH]; intros [|t ts] acc H He;
    simpl in H; try discriminate; simpl.
  - now rewrite He.
  - injection H as Hpg Hrest. rewrite Hpg. simpl. now apply IH with (ts := ts).
Qed.

(** X1.  [extract_text_from_pdf] succeeds exactly when the document opens
    and every page gives its text without raising; the text is then the
    pages' texts joined in page order with nothing between them, a page
    without text ([None] or the empty string) contributing nothing. *)
Theorem extract_text_is_page_concatenation (pdf_path : Path) (text : pystr) :
  extract_text_from_pdf pdf_path = Ok text <->
  exists pages ts,
    pdfplumber_open pdf_path = Ok pages
    /\ map page_extract_text pages = map Ok ts
    /\ text = List.concat (map text_of ts).
Proof.
  unfold Parser.extract_text_from_pdf. split.
  - destruct (pdfplumber_open pdf_path) as [pages|e]; simpl; [|discriminate].
    destruct (read_pages pages []) as [t|e] eqn:R; [|discriminate].
    intros [= <-]. destruct (@read_pages_ok_inv pages [] t R) as (ts & Hts).
    exists pages, ts. repeat split; auto.
    rewrite (@read_pages_ok pages ts [] Hts) in R. simpl in R. congruence.
  - intros (pages & ts & Ho & Hts & ->). rewrite Ho. simpl.
    now rewrite (@read_pages_ok pages ts [] Hts).
Qed.

(** X2.  When a page raises after the pages before it were read, reading
    stops there: whatever the later pages hold, and whatever text was
    already collected, the record is the error record whose only diagnostic
    is "Failed to extract text from PDF: " followed by that page's
    message. *)
Theorem first_failing_page_decides (pdf_path : Path)
        (before : list Page) (page : Page) (after : list Page)
        (ts : list (option pystr)) (e : pystr) :
  pdfplumber_open pdf_path = Ok (before ++ page :: after) ->
  map page_extract_text before = map Ok ts ->
  page_extract_text page = Raise e ->
  extract_text_from_pdf pdf_path
  = Raise (str "Failed to extract text from PDF: " ++ e)
  /\ parse_statement pdf_path
     = StatementData_init (path_name pdf_path) (str "Error") (str "error")
         (Some [str "Failed to extract text from PDF: " ++ e]).
Proof.
  intros Ho Hts He.
  assert (E : extract_text_from_pdf pdf_path
              = Raise (str "Failed to extract text from PDF: " ++ e)).
  { unfold Parser.extract_text_from_pdf. rewrite Ho. simpl bind.
    now rewrite (@read_pages_raise before page after ts e [] Hts He). }
  split; [exact E|].
  now apply parse_statement_raise.
Qed.

(** *** Shapes of a record *)

Lemma record_shape (pdf_path : Path) :
  let r := parse_statement pdf_path in
  (exists msg, extract_text_from_pdf pdf_path = Raise msg
               /\ issuer r = str "Error" /\ parsing_status r = str "error"
               /\ errors r = [msg] /\ forall f, getattr r f = None)
  \/ (exists text, extract_text_from_pdf pdf_path = Ok text
                   /\ issuer r = str "Unknown"
                   /\ parsing_status r = str "failed"
                   /\ errors r = [str "Could not identify credit card issuer"]
                   /\ forall f, getattr r f = None)
  \/ (exists text cfg,
         extract_text_from_pdf pdf_path = Ok text
         /\ identify_issuer text = Some (issuer r) /\ issuer r <> []
         /\ getitem PARSERS (issuer r) = Ok cfg
         /\ errors r = map (fun fp => diagnostic (fst fp))
                           (filter (missing text) (patterns cfg))
         /\ (forall f, getattr r f = None <->
                       forall pats, In (f, pats) (patterns cfg) ->
                                    missing text (f, pats) = true)
         /\ parsing_status r
            = if nonempty (errors r)
              then if no_critical r then str "failed" else str "partial"
              else str "success").
Proof.
  intros r. subst r.
  destruct (@parse_statement_cases re_search PARSERS Path Page path_name
              pdfplumber_open page_extract_text pdf_path)
    as [(msg & Ht & Hr) | [(text & Ht & Hr) | (text & name & cfg & d & errs
                                              & Ht & Hid & Hne & Hc & Ha & Hr)]].
  - left. exists msg. rewrite Hr. repeat split; auto.
    intros f; destruct f; reflexivity.
  - right. left. exists text. rewrite Hr. repeat split; auto.
    intros f; destruct f; reflexivity.
  - right. right. exists text, cfg.
    destruct (@identified_record re_search PARSERS Path Page path_name
                pdfplumber_open page_extract_text pdf_path text name cfg
                Ht Hid Hne Hc)
      as (d' & Hr' & _ & Hi & Hs & He & Hattr).
    rewrite Hr'.
    set (es := map (fun fp => diagnostic (fst fp))
                   (filter (missing text) (patterns cfg))) in *.
    assert (Hiss : issuer (classify d' es) = name)
      by (destruct (classify_frame d' es) as [_ ->]; exact Hi).
    rewrite Hiss, (classify_errors d' es He), classify_critical.
    repeat split; auto.
    + rewrite classify_attr. apply Hattr.
    + rewrite classify_attr. apply Hattr.
    + destruct es as [|e es']; [rewrite classify_clean; exact Hs|].
      now rewrite classify_status by discriminate.
Qed.

Lemma record_status_shape (pdf_path : Path) :
  parsing_status (parse_statement pdf_path) = str "success"
  \/ parsing_status (parse_statement pdf_path) = str "partial"
  \/ parsing_status (parse_statement pdf_path) = str "failed"
  \/ parsing_status (parse_statement pdf_path) = str "error".
Proof.
  destruct (record_shape pdf_path)
    as [(msg & _ & _ & Hs & _) | [(text & _ & _ & Hs & _)
       | (text & cfg & _ & _ & _ & _ & _ & _ & Hs)]]; rewrite Hs; auto.
  destruct (nonempty _); [destruct (no_critical _)|]; auto.
Qed.

Lemma success_iff_no_errors_aux (pdf_path : Path) :
  parsing_status (parse_statement pdf_path) = str "success"
  <-> errors (parse_statement pdf_path) = [].
Proof.
  destruct status_values_distinct as (SP & SF & SE & _).
  destruct (record_shape pdf_path)
    as [(msg & _ & _ & Hs & He & _) | [(text & _ & _ & Hs & He & _)
       | (text & cfg & _ & _ & _ & _ & _ & _ & Hs)]].
  - rewrite Hs, He. split; [congruence | discriminate].
  - rewrite Hs, He. split; [congruence | discriminate].
  - rewrite Hs. destruct (errors (parse_statement pdf_path)); simpl.
    + tauto.
    + split; [|discriminate]. destruct (no_critical _); congruence.
Qed.

(** *** The fallback chain *)

Lemma extract_field_cases (text : pystr) (pats : list pystr) :
  ((forall p, In p pats -> re_search p text flags = None)
   /\ extract_field text pats = None)
  \/ exists pre p post mt,
      pats = pre ++ p :: post
      /\ (forall q, In q pre -> re_search q text flags = None)
      /\ re_search p text flags = Some mt
      /\ extract_field text pats = match_value mt.
Proof.
  induction pats as [|p pats IH].
  - left. split; [intros p [] | reflexivity].
  - cbn [Parser.extract_field].
    destruct (re_search p text flags) as [mt|] eqn:E.
    + right. exists [], p, pats, mt. repeat split; auto. intros q [].
    + destruct IH as [[Hnone Hv] | (pre & q & post & mt & -> & Hpre & Hq & Hv)].
      * left. split; [|exact Hv]. intros q [<-|Hin]; auto.
      * right. exists (p :: pre), q, post, mt. repeat split; auto.
        intros r [<-|Hin]; auto.
Qed.

Lemma match_value_none (mt : Match) :
  match_value mt = None <-> groups mt <> [] /\ last (groups mt) None = None.
Proof.
  unfold match_value. destruct (groups mt) as [|g gs].
  - split; [discriminate | intros [H _]; congruence].
  - split; [intros H; split; [discriminate | exact H] | tauto].
Qed.

(** X3.  [extract_field] gives [None] in exactly two cases: no pattern of
    the list is found, or the first pattern that is found has capture
    groups and its last group took no part in the match.  In the second
    case the patterns after it are not tried. *)
Theorem extract_field_none_iff (text : pystr) (pats : list pystr) :
  extract_field text pats = None <->
  (forall p, In p pats -> re_search p text flags = None)
  \/ exists pre p post mt,
      pats = pre ++ p :: post
      /\ (forall q, In q pre -> re_search q text flags = None)
      /\ re_search p text flags = Some mt
      /\ groups mt <> [] /\ last (groups mt) None = None.
Proof.
  split.
  - intros H.
    destruct (extract_field_cases text pats)
      as [[Hnone _] | (pre & p & post & mt & E & Hpre & Hp & Hv)].
    + now left.
    + right. exists pre, p, post, mt. repeat split; auto;
        apply match_value_none; congruence.
  - intros [Hnone | (pre & p & post & mt & -> & Hpre & Hp & Hg & Hl)].
    + rewrite <- (app_nil_r pats).
      now rewrite (@extract_field_skip re_search text pats [] Hnone).
    + rewrite (@extract_field_skip re_search text pre (p :: post) Hpre).
      rewrite (@extract_field_hit re_search text p post mt Hp).
      apply match_value_none. auto.
Qed.

(** *** Where a stored value comes from *)

Lemma extract_all_source (text : pystr) (items : list (field * list pystr))
      (data : StatementData) (errs : list pystr) (f : field) (v : pystr) :
  getattr (fst (extract_all text items data errs)) f = Some v ->
  getattr data f = Some v
  \/ exists pats raw,
      In (f, pats) items /\ extract_field text pats = Some raw
      /\ raw <> [] /\ v = strip raw.
Proof.
  revert data errs.
  induction items as [|[g pats] items IH]; intros data errs; simpl.
  - auto.
  - destruct (extract_field text pats) as [[|c raw]|] eqn:E; simpl.
    + intros H. destruct (IH _ _ H) as [A | (ps & r & Hin & B)]; auto.
      right. exists ps, r. auto.
    + intros H. destruct (IH _ _ H) as [A | (ps & r & Hin & B)].
      * rewrite getattr_setattr in A.
        destruct (field_eq_dec g f) as [->|N]; auto.
        right. exists pats, (c :: raw). repeat split; auto; congruence.
      * right. exists ps, r. auto.
    + intros H. destruct (IH _ _ H) as [A | (ps & r & Hin & B)]; auto.
      right. exists ps, r. auto.
Qed.

Lemma record_value_source (pdf_path : Path) (f : field) (v : pystr) :
  getattr (parse_statement pdf_path) f = Some v ->
  exists text name cfg pats raw,
    extract_text_from_pdf pdf_path = Ok text
    /\ identify_issuer text = Some name
    /\ getitem PARSERS name = Ok cfg
    /\ In (f, pats) (patterns cfg)
    /\ extract_field text pats = Some raw
    /\ raw <> [] /\ v = strip raw.
Proof.
  intros H.
  destruct (@parse_statement_cases re_search PARSERS Path Page path_name
              pdfplumber_open page_extract_text pdf_path)
    as [(msg & _ & Hr) | [(text & _ & Hr) | (text & name & cfg & d & errs
                                             & Ht & Hid & _ & Hc & Ha & Hr)]];
    rewrite Hr in H.
  - destruct f; discriminate.
  - destruct f; discriminate.
  - rewrite classify_attr in H.
    replace d with (fst (extract_all text (patterns cfg)
                           (StatementData_init (path_name pdf_path) name
                                               (str "success") None) []))
      in H by now rewrite Ha.
    apply extract_all_source in H.
    destruct H as [H | (pats & raw & Hin & He & Hne & ->)];
      [destruct f; discriminate|].
    exists text, name, cfg, pats, raw. repeat split; auto.
Qed.

(** X4.  Every field value of a record made by [parse_statement] is the
    value that [extract_field] returned for one of the issuer's pattern
    lists for that field, with surrounding whitespace removed: it neither
    starts nor ends with a whitespace character, and stripping it again
    changes nothing. *)
Theorem stored_value_is_stripped_extraction
        (pdf_path : Path) (f : field) (v : pystr) :
  getattr (parse_statement pdf_path) f = Some v ->
  (exists text name cfg pats raw,
      extract_text_from_pdf pdf_path = Ok text
      /\ identify_issuer text = Some name
      /\ getitem PARSERS name = Ok cfg
      /\ In (f, pats) (patterns cfg)
      /\ extract_field text pats = Some raw
      /\ raw <> [] /\ v = strip raw)
  /\ trimmed v /\ strip v = v.
Proof.
  intros H. split; [now apply record_value_source|].
  apply record_value_source in H.
  destruct H as (text & name & cfg & pats & raw & _ & _ & _ & _ & _ & _ & ->).
  split; [apply strip_trimmed | apply trimmed_strip, strip_trimmed].
Qed.

(** *** Fields and diagnostics *)

Lemma unique_entry (items : list (field * list pystr)) (f : field)
      (p1 p2 : list pystr) :
  NoDup (map fst items) -> In (f, p1) items -> In (f, p2) items -> p1 = p2.
Proof.
  induction items as [|[g q] items IH]; simpl; [tauto|].
  intros N. inversion N as [|? ? Hnot N']; subst.
  intros [E1|H1] [E2|H2].
  - congruence.
  - inversion E1; subst. elim Hnot. apply (in_map fst _ _ H2).
  - inversion E2; subst. elim Hnot. apply (in_map fst _ _ H1).
  - now apply IH.
Qed.

Lemma in_diagnostics (text : pystr) (items : list (field * list pystr))
      (f : field) :
  In (diagnostic f)
     (map (fun fp => diagnostic (fst fp)) (filter (missing text) items))
  <-> exists pats, In (f, pats) items /\ missing text (f, pats) = true.
Proof.
  rewrite in_map_iff. split.
  - intros ([g pats] & E & Hin). simpl in E. apply diagnostic_inj in E.
    subst g. apply filter_In in Hin. now exists pats.
  - intros (pats & Hin & Hm). exists (f, pats). split; [reflexivity|].
    apply filter_In. auto.
Qed.

(** X5.  For an identified statement whose profile lists each field once:
    a field the profile does not define is never set and never reported; a
    field it defines is either set or reported by its diagnostic
    "Could not extract <field>", never both and never neither.  A record
    with status "success" has every field of the profile set. *)
Theorem field_set_or_reported (pdf_path : Path) (text name : pystr)
        (cfg : config) :
  extract_text_from_pdf pdf_path = Ok text ->
  identify_issuer text = Some name -> name <> [] ->
  getitem PARSERS name = Ok cfg ->
  NoDup (map fst (patterns cfg)) ->
  let r := parse_statement pdf_path in
  forall f,
    (~ In f (map fst (patterns cfg)) ->
     getattr r f = None /\ ~ In (diagnostic f) (errors r))
    /\ (In f (map fst (patterns cfg)) ->
        (getattr r f = None <-> In (diagnostic f) (errors r))
        /\ (parsing_status r = str "success" -> getattr r f <> None)).
Proof.
  intros Ht Hid Hne Hc Hnd r f.
  destruct (@identified_record re_search PARSERS Path Page path_name
              pdfplumber_open page_extract_text pdf_path text name cfg
              Ht Hid Hne Hc)
    as (d & Hr & _ & _ & Hs & He & Hattr).
  assert (Herr : errors r
                 = map (fun fp => diagnostic (fst fp))
                       (filter (missing text) (patterns cfg)))
    by (subst r; rewrite Hr; apply classify_errors, He).
  assert (Hget : getattr r f = getattr d f)
    by (subst r; rewrite Hr; apply classify_attr).
  rewrite Herr, Hget, in_diagnostics, Hattr.
  split.
  - intros Hnot. split.
    + intros pats Hin. elim Hnot. apply (in_map fst _ _ Hin).
    + intros (pats & Hin & _). elim Hnot. apply (in_map fst _ _ Hin).
  - intros Hin. apply in_map_iff in Hin.
    destruct Hin as ([g pats] & E & Hin). simpl in E. subst g.
    assert (Hiff : (forall ps, In (f, ps) (patterns cfg) ->
                               missing text (f, ps) = true)
                   <-> exists ps, In (f, ps) (patterns cfg)
                                  /\ missing text (f, ps) = true).
    { split.
      - intros H. exists pats. auto.
      - intros (ps & Hps & Hm) ps' Hps'.
        now rewrite (@unique_entry (patterns cfg) f ps' ps Hnd Hps' Hps). }
    split; [exact Hiff|].
    intros Hok Hall.
    assert (Hbad : errors r <> []).
    { rewrite Herr. intros Hnil.
      assert (Hd : In (diagnostic f)
                      (map (fun fp => diagnostic (fst fp))
                           (filter (missing text) (patterns cfg))))
        by (apply in_diagnostics, Hiff, Hall).
      rewrite Hnil in Hd. destruct Hd. }
    destruct (@success_iff_no_errors_aux pdf_path) as [Hsucc _].
    apply Hbad, Hsucc, Hok.
Qed.

(** *** What the status and the issuer tell *)

(** X6.  The status of a record bounds what it holds: a "failed" record has
    no card number, no total amount due and no payment due date; a
    "partial" record has at least one of the three and names a registered
    issuer; an "error" record has no field at all, and neither has a record
    whose issuer is not a registered name. *)
Theorem status_bounds_fields (pdf_path : Path) :
  let r := parse_statement pdf_path in
  (parsing_status r = str "failed" ->
   card_number r = None /\ total_amount_due r = None
   /\ payment_due_date r = None)
  /\ (parsing_status r = str "partial" ->
      ~ (card_number r = None /\ total_amount_due r = None
         /\ payment_due_date r = None)
      /\ In (issuer r) (map fst PARSERS))
  /\ (parsing_status r = str "error" -> forall f, getattr r f = None)
  /\ (~ In (issuer r) (map fst PARSERS) -> forall f, getattr r f = None).
Proof.
  intros r. subst r.
  destruct status_values_distinct as (SP & SF & SE & PE & FE & PF).
  destruct (record_shape pdf_path)
    as [(msg & _ & _ & Hs & He & Hf) | [(text & _ & _ & Hs & He & Hf)
       | (text & cfg & _ & Hid & _ & _ & _ & _ & Hs)]].
  - rewrite Hs. repeat split; try congruence; auto;
      try apply (Hf CardNumber); try apply (Hf TotalAmountDue);
      try apply (Hf PaymentDueDate).
  - rewrite Hs. repeat split; try congruence; auto;
      try apply (Hf CardNumber); try apply (Hf TotalAmountDue);
      try apply (Hf PaymentDueDate).
  - assert (Hkey : In (issuer (parse_statement pdf_path)) (map fst PARSERS)).
    { apply identify_in_key in Hid. destruct Hid as (c & Hin & _).
      apply (in_map fst _ _ Hin). }
    rewrite Hs.
    destruct (nonempty (errors (parse_statement pdf_path)));
      [destruct (no_critical (parse_statement pdf_path)) eqn:N|].
    + apply critical_none in N. repeat split; try congruence; tauto.
    + repeat split; try congruence; try tauto.
      intros C. apply critical_none in C. congruence.
    + repeat split; try congruence; tauto.
Qed.

(** X7.  Every record carries one of the four statuses, and its issuer is
    "Error", "Unknown" or a name of the registry: "Error" goes with status
    "error", "Unknown" with "failed", and a registered name with "success",
    "partial" or "failed". *)
Theorem record_status_and_issuer_domain (pdf_path : Path) :
  let r := parse_statement pdf_path in
  (issuer r = str "Error" /\ parsing_status r = str "error")
  \/ (issuer r = str "Unknown" /\ parsing_status r = str "failed")
  \/ (In (issuer r) (map fst PARSERS) /\ issuer r <> []
      /\ (parsing_status r = str "success"
          \/ parsing_status r = str "partial"
          \/ parsing_status r = str "failed")).
Proof.
  intros r. subst r.
  destruct (record_shape pdf_path)
    as [(msg & _ & Hi & Hs & _) | [(text & _ & Hi & Hs & _)
       | (text & cfg & _ & Hid & Hne & _ & _ & _ & Hs)]].
  - now left.
  - right. now left.
  - right. right. split; [|split; [exact Hne|]].
    + apply identify_in_key in Hid. destruct Hid as (c & Hin & _).
      apply (in_map fst _ _ Hin).
    + rewrite Hs. destruct (nonempty _); [destruct (no_critical _)|]; auto.
Qed.

(** *** The profile used for extraction *)

Lemma identify_in_split (parsers : list (pystr * config)) (text name : pystr) :
  identify_in parsers text = Some name ->
  exists pre cfg post,
    parsers = pre ++ (name, cfg) :: post
    /\ recognised cfg text
    /\ forall e, In e pre -> ~ recognised (snd e) text.
Proof.
  induction parsers as [|[k c] parsers IH]; simpl; [discriminate|].
  destruct (Parser.any_identifier re_search (identifier c) text) eqn:E.
  - intros [= <-]. exists [], c, parsers. repeat split.
    + now apply any_identifier_true.
    + intros e [].
  - intros H. destruct (IH H) as (pre & cfg & post & -> & Hrec & Hpre).
    exists ((k, c) :: pre), cfg, post. repeat split; auto.
    intros e [<-|Hin]; [|now apply Hpre].
    simpl. intros R. apply any_identifier_true in R. congruence.
Qed.

Lemma getitem_skip (pre rest : list (pystr * config)) (key : pystr) :
  ~ In key (map fst pre) -> getitem (pre ++ rest) key = getitem rest key.
Proof.
  induction pre as [|[k c] pre IH]; simpl; intros H; [reflexivity|].
  destruct (eqb k key) eqn:E.
  - apply pystr_eqb_eq in E. elim H. now left.
  - apply IH. intros Hin. apply H. now right.
Qed.

(** X8.  In a registry whose issuer names are distinct, the profile that
    [parse_statement] looks up under the identified name is the profile
    whose identifier pattern was found, the first recognised one in
    registry order. *)
Theorem lookup_returns_recognised_profile (text name : pystr) :
  NoDup (map fst PARSERS) ->
  identify_issuer text = Some name ->
  exists pre cfg post,
    PARSERS = pre ++ (name, cfg) :: post
    /\ getitem PARSERS name = Ok cfg
    /\ recognised cfg text
    /\ forall e, In e pre -> ~ recognised (snd e) text.
Proof.
  intros Hnd Hid. apply identify_in_split in Hid.
  destruct Hid as (pre & cfg & post & E & Hrec & Hpre).
  exists pre, cfg, post. repeat split; auto.
  rewrite E in *. rewrite getitem_skip.
  - simpl. now rewrite pystr_eqb_refl.
  - rewrite map_app in Hnd. simpl in Hnd.
    apply NoDup_remove_2 in Hnd. intros Hin. apply Hnd.
    apply in_or_app. now left.
Qed.

(** *** The batch: output and counters *)

(** Evaluates the comparisons of two literal statuses in the goal. *)
Ltac eval_status_eqb :=
  repeat match goal with
         | |- context [eqb (str ?a) (str ?b)] =>
           let v := eval vm_compute in (eqb (str a) (str b)) in
           change (eqb (str a) (str b)) with v
         end.

Lemma count_status_cons (status : pystr) (r : StatementData)
      (rs : list StatementData) :
  count_status status (r :: rs)
  = (if eqb (parsing_status r) status then 1 else 0) + count_status status rs.
Proof.
  unfold count_status. simpl. now destruct (eqb (parsing_status r) status).
Qed.

Lemma status_error_iff_raise (pdf_path : Path) :
  parsing_status (parse_statement pdf_path) = str "error"
  <-> exists msg, extract_text_from_pdf pdf_path = Raise msg.
Proof.
  destruct status_values_distinct as (SP & SF & SE & PE & FE & PF).
  destruct (record_shape pdf_path)
    as [(msg & Ht & _ & Hs & _) | [(text & Ht & _ & Hs & _)
       | (text & cfg & Ht & _ & _ & _ & _ & _ & Hs)]].
  - split; eauto.
  - rewrite Hs, Ht. split; [congruence | intros (m & ?); discriminate].
  - rewrite Hs, Ht. split; [|intros (m & ?); discriminate].
    destruct (nonempty _); [destruct (no_critical _)|]; congruence.
Qed.

Section BatchOutput.

Variable write_stdout : list pystr -> pystr -> result unit.

Local Abbreviation progress_line := (Parser.progress_line path_name).
Local Abbreviation parse_multiple :=
  (Parser.parse_multiple re_search PARSERS path_name pdfplumber_open
                         page_extract_text write_stdout).
Local Abbreviation prints_accepted :=
  (Parser.prints_accepted re_search PARSERS path_name pdfplumber_open
                          page_extract_text write_stdout).
Local Abbreviation batch_lines :=
  (Parser.batch_lines re_search PARSERS path_name pdfplumber_open
                      page_extract_text).

(** X9.  [parse_multiple] ends at the first line standard output
    refuses, with the exception of that [print]: no later document is
    announced or parsed, what was printed is the two lines of each
    document before and nothing of the refused line, and [self.results]
    holds the records of the documents before, and that of the document
    itself when it is its status line that was refused. *)
Theorem parse_multiple_ends_at_refused_line
        (before after : list Path) (pdf_path : Path) (st : parser_state)
        (e : pystr) :
  prints_accepted (stdout st) before ->
  let out := stdout st ++ batch_lines before in
  let r := parse_statement pdf_path in
  (write_stdout out (progress_line pdf_path) = Raise e ->
   parse_multiple (before ++ pdf_path :: after) st
   = (Raise e, mkParser (map parse_statement before) out))
  /\ (write_stdout out (progress_line pdf_path) = Ok tt ->
      write_stdout (out ++ [progress_line pdf_path]) (status_line r)
      = Raise e ->
      parse_multiple (before ++ pdf_path :: after) st
      = (Raise e, mkParser (map parse_statement before ++ [r])
                           (out ++ [progress_line pdf_path]))).
Proof.
  intros A out r. subst out r.
  assert (B : prints_accepted (stdout (mkParser [] (stdout st))) before)
    by exact A.
  split.
  - intros W. unfold Parser.parse_multiple.
    rewrite (@process_all_escapes
               re_search PARSERS Path Page path_name pdfplumber_open
               page_extract_text write_stdout before after pdf_path
               (mkParser [] (stdout st))
               (mkParser (map parse_statement before)
                         (stdout st ++ batch_lines before)) e B);
      [reflexivity|].
    cbn [stdout results app]. unfold Parser.process, print.
    cbn [stdout results]. now rewrite W.
  - intros W1 W2. unfold Parser.parse_multiple.
    rewrite (@process_all_escapes
               re_search PARSERS Path Page path_name pdfplumber_open
               page_extract_text write_stdout before after pdf_path
               (mkParser [] (stdout st))
               (mkParser (map parse_statement before
                          ++ [parse_statement pdf_path])
                         (stdout st ++ batch_lines before
                          ++ [progress_line pdf_path])) e B);
      [now rewrite app_assoc|].
    cbn [stdout results app]. unfold Parser.process, print.
    cbn [stdout results]. rewrite W1. cbn [stdout results].
    rewrite <- app_assoc in W2. rewrite <- app_assoc. now rewrite W2.
Qed.

(** X10.  The three counters that [main] prints after a batch that
    [parse_multiple] returned leave out the documents whose text could
    not be read: "success", "partial" and "failed" add up to the total
    minus the number of records with status "error", so they add up to
    the total exactly when every document's text was read; the list
    returned is the [self.results] that [main] counts. *)
Theorem main_counters_omit_error_records
        (pdf_paths : list Path) (st st' : parser_state)
        (results : list StatementData) :
  parse_multiple pdf_paths st = (Ok results, st') ->
  let '(total, success, partial, failed) := main_statistics results in
  total = List.length pdf_paths
  /\ success + partial + failed + count_status (str "error") results = total
  /\ (success + partial + failed = total <->
      forall p, In p pdf_paths ->
                exists text, extract_text_from_pdf p = Ok text)
  /\ Parser.results st' = results.
Proof.
  intros Hret.
  apply (@parse_multiple_returns
           re_search PARSERS Path Page path_name pdfplumber_open
           page_extract_text write_stdout) in Hret.
  destruct Hret as (_ & -> & ->). unfold main_statistics.
  cbn [Parser.results].
  split; [apply length_map|].
  assert (Hsum : forall ps,
             count_status (str "success") (map parse_statement ps)
             + count_status (str "partial") (map parse_statement ps)
             + count_status (str "failed") (map parse_statement ps)
             + count_status (str "error") (map parse_statement ps)
             = List.length (map parse_statement ps)).
  { induction ps as [|p ps IH]; [reflexivity|].
    cbn [map List.length]. rewrite !count_status_cons, <- IH.
    destruct (record_status_shape p) as [E|[E|[E|E]]]; rewrite E;
      eval_status_eqb; cbv iota; lia. }
  split; [apply Hsum|].
  assert (Herr : count_status (str "error") (map parse_statement pdf_paths) = 0
                 <-> forall p, In p pdf_paths ->
                               exists text, extract_text_from_pdf p = Ok text).
  { clear st. induction pdf_paths as [|p ps IH]; cbn [map].
    - split; [intros _ p [] | reflexivity].
    - rewrite count_status_cons. split.
      + intros H p' [<-|Hin].
        * destruct (extract_text_from_pdf p) as [t|msg] eqn:E; [eauto|].
          assert (S : parsing_status (parse_statement p) = str "error")
            by (apply status_error_iff_raise; eauto).
          rewrite S in H. revert H. eval_status_eqb. discriminate.
        * apply IH; [|exact Hin].
          destruct (eqb _ _); [discriminate | exact H].
      + intros H.
        destruct (eqb (parsing_status (parse_statement p)) (str "error")) eqn:E.
        * apply pystr_eqb_eq, status_error_iff_raise in E.
          destruct E as (msg & E). destruct (H p (or_introl eq_refl)) as (t & T).
          congruence.
        * apply IH. intros p' Hin. apply H. now right. }
  split; [|reflexivity].
  specialize (Hsum pdf_paths). rewrite <- Herr. lia.
Qed.

End BatchOutput.

End Further.

(* ------------------------------------------------------------------ *)
(** ** What the engine can return

    Every group of a match, and the match itself, is a run of consecutive
    characters of the subject. *)

Section Substrings.

Import Re.

Variable whole : pystr.

Lemma ends_in_none : ends_in whole None.
Proof. intros s H. discriminate. Qed.

Lemma ends_in_orelse (a b : option mstate) :
  ends_in whole a -> ends_in whole b -> ends_in whole (orelse a b).
Proof. destruct a; simpl; auto. Qed.

Lemma position_advance (s : mstate) (x : N) (xs : pystr) :
  position_of whole s -> rest s = x :: xs ->
  position_of whole (advance s x xs).
Proof.
  intros [(pre & E & L) C] R. split; [|exact C].
  exists (pre ++ [x]). simpl. rewrite R in E. split.
  - now rewrite <- app_assoc.
  - rewrite length_app. simpl. lia.
Qed.

Lemma position_prefix_infix (s : mstate) (n : nat) :
  position_of whole s -> infix (firstn n (rest s)) whole.
Proof.
  intros [(pre & E & _) _]. exists pre, (skipn n (rest s)).
  now rewrite firstn_skipn.
Qed.

Lemma position_set_cap (s s' : mstate) (i n : nat) :
  position_of whole s -> position_of whole s' ->
  position_of whole (set_cap i (firstn n (rest s)) s').
Proof.
  intros Hs [P C]. split; [exact P|].
  intros j v [E|Hin]; [|now apply (C j)].
  inversion E; subst. now apply position_prefix_infix.
Qed.

Lemma one_keeps (p : N -> bool) : keeps_positions whole (one p).
Proof.
  intros s k Hs Hk. unfold one. destruct (rest s) as [|x xs] eqn:R.
  - apply ends_in_none.
  - destruct (p x); [|apply ends_in_none].
    apply Hk. now apply position_advance.
Qed.

Section Step.
Variable step : mstate -> (mstate -> option mstate) -> option mstate.
Hypothesis step_keeps : keeps_positions whole step.

Lemma rep_min_keeps (n : nat) : keeps_positions whole (rep_min step n).
Proof.
  induction n as [|n IH]; intros s k Hs Hk; simpl.
  - now apply Hk.
  - apply step_keeps; [exact Hs|]. intros s' Hs'. now apply IH.
Qed.

Lemma rep_opt_keeps (greedy : bool) (fuel : nat) (budget : option nat) :
  keeps_positions whole (rep_opt step greedy fuel budget).
Proof.
  revert budget. induction fuel as [|fuel IH]; intros budget s k Hs Hk; simpl.
  - now apply Hk.
  - destruct (spent budget); [now apply Hk|].
    assert (M : ends_in whole
                  (step s (fun s' =>
                             if pos s <? pos s'
                             then rep_opt step greedy fuel
                                          (option_map pred budget) s' k
                             else None))).
    { apply step_keeps; [exact Hs|]. intros s' Hs'.
      destruct (pos s <? pos s'); [now apply IH | apply ends_in_none]. }
    destruct greedy; apply ends_in_orelse; auto.
Qed.

End Step.

Lemma m_keeps (fl : N) (r : regex) : keeps_positions whole (m fl r).
Proof.
  induction r as [| c | | neg c | neg items | | | a IHa b IHb
                  | a IHa b IHb | a IHa lo hi greedy | i a IHa];
    simpl; try apply one_keeps.
  - intros s k Hs Hk. now apply Hk.
  - intros s k Hs Hk. destruct (at_bol fl s); [now apply Hk|].
    apply ends_in_none.
  - intros s k Hs Hk. destruct (at_eol fl s); [now apply Hk|].
    apply ends_in_none.
  - intros s k Hs Hk. apply IHa; [exact Hs|]. intros s' Hs'. now apply IHb.
  - intros s k Hs Hk. apply ends_in_orelse; [apply IHa | apply IHb]; auto.
  - intros s k Hs Hk. apply rep_min_keeps; auto.
    intros s' Hs'. now apply rep_opt_keeps.
  - intros s k Hs Hk. apply IHa; [exact Hs|]. intros s' Hs'.
    apply Hk. now apply position_set_cap.
Qed.

Lemma lookup_cap_in (i : nat) (cs : list (nat * pystr)) (v : pystr) :
  lookup_cap i cs = Some v -> In (i, v) cs.
Proof.
  induction cs as [|[j w] cs IH]; simpl; [discriminate|].
  destruct (i =? j) eqn:E.
  - intros [= ->]. apply Nat.eqb_eq in E. subst. now left.
  - intros H. right. now apply IH.
Qed.

Lemma search_from_infix (fl : N) (r : regex) (ngroups : nat)
      (text : pystr) (p : nat) (pv : option N) (pre : pystr) (mt : Match) :
  whole = pre ++ text -> List.length pre = p ->
  search_from fl r ngroups p pv text = Some mt ->
  infix (group0 mt) whole
  /\ forall g, In (Some g) (groups mt) -> infix g whole.
Proof.
  revert p pv pre. induction text as [|x xs IH]; intros p pv pre E L;
    cbn [search_from].
  - assert (Hs : position_of whole (mkState p pv [] []))
      by (split; [exists pre; auto | intros i v []]).
    pose proof (@m_keeps fl r (mkState p pv [] []) (fun s' => Some s') Hs) as K.
    destruct (m fl r (mkState p pv [] []) (fun s' => Some s')) as [s'|];
      [|discriminate].
    intros [= <-].
    assert (Hs' : position_of whole s')
      by (apply K; [intros t Ht u [= <-]; exact Ht | reflexivity]).
    split.
    + apply (position_prefix_infix _ Hs).
    + intros g Hin. apply in_map_iff in Hin. destruct Hin as (i & Hi & _).
      apply lookup_cap_in in Hi. destruct Hs' as [_ C]. now apply (C i).
  - assert (Hs : position_of whole (mkState p pv (x :: xs) []))
      by (split; [exists pre; auto | intros i v []]).
    pose proof (@m_keeps fl r (mkState p pv (x :: xs) [])
                  (fun s' => Some s') Hs) as K.
    destruct (m fl r (mkState p pv (x :: xs) []) (fun s' => Some s'))
      as [s'|].
    + intros [= <-].
      assert (Hs' : position_of whole s')
        by (apply K; [intros t Ht u [= <-]; exact Ht | reflexivity]).
      split.
      * apply (position_prefix_infix _ Hs).
      * intros g Hin. apply in_map_iff in Hin. destruct Hin as (i & Hi & _).
        apply lookup_cap_in in Hi. destruct Hs' as [_ C]. now apply (C i).
    + apply (IH (S p) (Some x) (pre ++ [x])).
      * now rewrite <- app_assoc.
      * rewrite length_app. simpl. lia.
Qed.

End Substrings.

Lemma search_infix (pattern text : pystr) (fl : N) (mt : Match) :
  Re.search pattern text fl = Some mt ->
  infix (group0 mt) text /\ forall g, In (Some g) (groups mt) -> infix g text.
Proof.
  unfold Re.search. destruct (Re.compile pattern) as [[r n]|]; [|discriminate].
  apply (@search_from_infix text fl r n text 0 None []); reflexivity.
Qed.

Lemma last_in {A} (l : list (option A)) (v : A) :
  last l None = Some v -> In (Some v) l.
Proof.
  induction l as [|a l IH]; simpl; [discriminate|].
  destruct l as [|b l]; [intros ->; now left|].
  intros H. right. now apply IH.
Qed.

Lemma extract_field_infix (text : pystr) (pats : list pystr) (v : pystr) :
  Parser.extract_field Re.search text pats = Some v -> infix v text.
Proof.
  intros H.
  destruct (extract_field_cases Re.search text pats)
    as [[_ E] | (pre & p & post & mt & _ & _ & Hp & E)]; [congruence|].
  rewrite E in H. apply search_infix in Hp. destruct Hp as [H0 Hg].
  unfold match_value in H. destruct (groups mt) as [|g gs] eqn:G.
  - now injection H as <-.
  - apply Hg. rewrite <- G in H. rewrite G in *. now apply last_in.
Qed.

(** Whatever the registry, as long as the search is the one of [Re]: a
    field value of a record is a run of consecutive characters of the
    text. *)
Lemma stored_value_infix_in
      (PARSERS : list (pystr * config))
      (Path Page : Type) (path_name : Path -> pystr)
      (pdfplumber_open : Path -> result (list Page))
      (page_extract_text : Page -> result (option pystr))
      (pdf_path : Path) (f : field) (v : pystr) :
  getattr (Parser.parse_statement Re.search PARSERS path_name pdfplumber_open
                                  page_extract_text pdf_path) f = Some v ->
  exists text,
    Parser.extract_text_from_pdf pdfplumber_open page_extract_text pdf_path
    = Ok text
    /\ infix v text.
Proof.
  intros H. apply record_value_source in H.
  destruct H as (text & name & cfg & pats & raw & Ht & _ & _ & _ & He & _ & ->).
  exists text. split; [exact Ht|].
  apply infix_trans with (b := raw); [apply strip_infix|].
  now apply extract_field_infix with (pats := pats).
Qed.

(** X11.  [parse_statement] of the program, over its registry [PARSERS]:
    every field value of a record is a run of consecutive characters of
    the text read from the document; the parser never stores a character
    that is not in the text, nor joins separate parts of it. *)
Theorem stored_value_is_substring_of_text
        (Path Page : Type) (path_name : Path -> pystr)
        (pdfplumber_open : Path -> result (list Page))
        (page_extract_text : Page -> result (option pystr))
        (pdf_path : Path) (f : field) (v : pystr) :
  getattr (Parser.parse_statement Re.search Main.PARSERS path_name
                                  pdfplumber_open page_extract_text pdf_path) f
  = Some v ->
  exists text,
    Parser.extract_text_from_pdf pdfplumber_open page_extract_text pdf_path
    = Ok text
    /\ infix v text.
Proof. apply stored_value_infix_in. Qed.

(** *** Documents without text *)

Lemma blank_pages_texts {Page : Type}
      (page_extract_text : Page -> result (option pystr)) (pages : list Page) :
  (forall pg, In pg pages ->
              page_extract_text pg = Ok None
              \/ page_extract_text pg = Ok (Some [])) ->
  exists ts, map page_extract_text pages = map Ok ts
             /\ List.concat (map text_of ts) = [].
Proof.
  induction pages as [|pg pages IH]; intros H.
  - now exists [].
  - destruct IH as (ts & E & C); [intros q Hq; apply H; now right|].
    destruct (H pg (or_introl eq_refl)) as [Hp|Hp].
    + exists (None :: ts). simpl. now rewrite Hp, E, C.
    + exists (Some [] :: ts). simpl. now rewrite Hp, E, C.
Qed.

(** X12.  With the registry of [main.py], a document that opens but whose
    pages carry no text (each gives [None] or the empty string, as a scanned
    statement does), however many pages it has, is not an error: its record
    is the unidentified one, with issuer "Unknown", status "failed" and the
    diagnostic "Could not identify credit card issuer". *)
Theorem document_without_text_is_unidentified
        (Path Page : Type) (path_name : Path -> pystr)
        (pdfplumber_open : Path -> result (list Page))
        (page_extract_text : Page -> result (option pystr))
        (pdf_path : Path) (pages : list Page) :
  pdfplumber_open pdf_path = Ok pages ->
  (forall pg, In pg pages ->
              page_extract_text pg = Ok None
              \/ page_extract_text pg = Ok (Some [])) ->
  Parser.parse_statement Re.search Main.PARSERS path_name pdfplumber_open
                         page_extract_text pdf_path
  = StatementData_init (path_name pdf_path) (str "Unknown") (str "failed")
      (Some [str "Could not identify credit card issuer"]).
Proof.
  intros Ho Hblank.
  destruct (blank_pages_texts page_extract_text pages Hblank) as (ts & E & C).
  assert (Ht : Parser.extract_text_from_pdf pdfplumber_open page_extract_text
                                            pdf_path = Ok []).
  { unfold Parser.extract_text_from_pdf. rewrite Ho. simpl bind.
    rewrite (@read_pages_ok Page page_extract_text pages ts [] E).
    now rewrite C. }
  rewrite parse_statement_read with (text := []) by exact Ht.
  rewrite parse_text_unidentified; [reflexivity|].
  vm_compute. reflexivity.
Qed.

Lemma document_without_text_witness :
  Main.parse_statement
    (Main.mkDocument (str "scan.pdf") (Ok [Ok None; Ok (Some []); Ok None]))
  = StatementData_init (str "scan.pdf") (str "Unknown") (str "failed")
      (Some [str "Could not identify credit card issuer"]).
Proof.
  refine (@document_without_text_is_unidentified
            _ _ Main.doc_name Main.doc_pages Main.page_text
            (Main.mkDocument (str "scan.pdf")
                             (Ok [Ok None; Ok (Some []); Ok None]))
            [Ok None; Ok (Some []); Ok None] _ _).
  - reflexivity.
  - intros pg [<-|[<-|[<-|[]]]]; auto.
Defined.

(** *** Registries whose profiles define the critical fields *)

Lemma getitem_ok_in (parsers : list (pystr * config)) (key : pystr)
      (c : config) :
  getitem parsers key = Ok c -> In (key, c) parsers.
Proof.
  induction parsers as [|[k c'] parsers IH]; simpl; [discriminate|].
  destruct (eqb k key) eqn:E.
  - intros [= <-]. apply pystr_eqb_eq in E. subst. now left.
  - intros H. right. now apply IH.
Qed.

(** X13.  When every profile of the registry defines the three critical
    fields, as every profile of [main.py] does, a record with status
    "success" has a card number, a total amount due and a payment due date,
    and its issuer is a name of the registry. *)
Theorem success_has_critical_fields
        (re_search : pystr -> pystr -> N -> option Match)
        (PARSERS : list (pystr * config))
        (Path Page : Type) (path_name : Path -> pystr)
        (pdfplumber_open : Path -> result (list Page))
        (page_extract_text : Page -> result (option pystr))
        (pdf_path : Path) :
  (forall name cfg f,
      In (name, cfg) PARSERS -> In f critical_fields ->
      In f (map fst (patterns cfg))) ->
  let r := Parser.parse_statement re_search PARSERS path_name pdfplumber_open
                                  page_extract_text pdf_path in
  parsing_status r = str "success" ->
  card_number r <> None /\ total_amount_due r <> None
  /\ payment_due_date r <> None /\ In (issuer r) (map fst PARSERS).
Proof.
  intros Hreg r Hs. subst r.
  destruct status_values_distinct as (SP & SF & SE & _).
  destruct (record_shape re_search PARSERS path_name pdfplumber_open
                         page_extract_text pdf_path)
    as [(msg & _ & _ & Hs' & _) | [(text & _ & _ & Hs' & _)
       | (text & cfg & _ & Hid & _ & Hc & He & Hattr & Hs')]];
    try congruence.
  set (r := Parser.parse_statement re_search PARSERS path_name pdfplumber_open
                                   page_extract_text pdf_path) in *.
  assert (Hclean : filter (Parser.missing re_search text) (patterns cfg) = []).
  { rewrite Hs' in Hs. destruct (errors r) as [|e es] eqn:Er.
    - symmetry in He. now apply map_eq_nil in He.
    - simpl in Hs. destruct (no_critical r); congruence. }
  assert (Hset : forall f, In f critical_fields -> getattr r f <> None).
  { intros f Hf N. apply getitem_ok_in in Hc.
    pose proof (Hreg _ _ f Hc Hf) as Hin. apply in_map_iff in Hin.
    destruct Hin as ([g pats] & E & Hin). simpl in E. subst g.
    pose proof (proj1 (Hattr f) N pats Hin) as M.
    assert (F : In (f, pats)
                   (filter (Parser.missing re_search text) (patterns cfg)))
      by (apply filter_In; auto).
    rewrite Hclean in F. destruct F. }
  repeat split.
  - apply (Hset CardNumber). simpl; auto.
  - apply (Hset TotalAmountDue). simpl; auto.
  - apply (Hset PaymentDueDate). simpl; auto.
  - apply identify_in_key in Hid. destruct Hid as (c & Hin & _).
    apply (in_map fst _ _ Hin).
Qed.

(** *** The further properties on concrete statements *)

Example unset_last_group_stops_the_chain :
  Main.extract_field (str "a") [str "(a)|(b)"; str "(a)"] = None
  /\ Main.extract_field (str "a") [str "(a)"] = Some (str "a").
Proof. split; vm_compute; reflexivity. Qed.

Example whitespace_value_is_stored_empty :
  let registry :=
      [(str "Bank", mkConfig [str "Bank"] [(CardNumber, [str "No:(\s+)"])])] in
  let r := Parser.parse_statement Re.search registry Main.doc_name
             Main.doc_pages Main.page_text
             (Main.text_document (str "a.pdf") (str "Bank No:   .")) in
  card_number r = Some [] /\ parsing_status r = str "success".
Proof. split; vm_compute; reflexivity. Qed.

Lemma first_failing_page_witness :
  Main.parse_statement
    (Main.mkDocument (str "torn.pdf")
       (Ok [Ok (Some (str "ICICI Bank")); Raise (str "bad xref");
            Ok (Some (str "Total Amount due: 5"))]))
  = StatementData_init (str "torn.pdf") (str "Error") (str "error")
      (Some [str "Failed to extract text from PDF: " ++ str "bad xref"]).
Proof.
  refine (proj2 (@first_failing_page_decides
                   Re.search Main.PARSERS _ _ Main.doc_name Main.doc_pages
                   Main.page_text
                   (Main.mkDocument
                      (str "torn.pdf")
                      (Ok [Ok (Some (str "ICICI Bank")); Raise (str "bad xref");
                           Ok (Some (str "Total Amount due: 5"))]))
                   [Ok (Some (str "ICICI Bank"))] (Raise (str "bad xref"))
                   [Ok (Some (str "Total Amount due: 5"))]
                   [Some (str "ICICI Bank")] (str "bad xref") _ _ _));
    reflexivity.
Defined.

(** Standard output encoded as UTF-8 and a file name with a lone
    surrogate, as [Path.glob] and [sys.argv] give for a name that is not
    valid UTF-8: the batch ends at the line announcing that document. *)
Lemma parse_multiple_ends_at_refused_line_witness :
  let december := Main.text_document (str "december.pdf") Main.icici_text in
  let scan :=
    Main.text_document (str "scan" ++ [56448%N] ++ str ".pdf")
                       Main.icici_text in
  let torn := Main.broken_document (str "torn.pdf") (str "No /Root object") in
  Main.parse_multiple Main.utf8_stdout [december; scan; torn] (mkParser [] [])
  = (Raise (str "'utf-8' codec can't encode character '\udc80' in position 16: surrogates not allowed"),
     mkParser [Main.parse_statement december]
              [str "Processing: december.pdf...";
               str "  ⚠ ICICI Bank - partial"]).
Proof.
  intros december scan torn.
  refine (eq_trans
            (proj1 (@parse_multiple_ends_at_refused_line
                      Re.search Main.PARSERS _ _ Main.doc_name Main.doc_pages
                      Main.page_text Main.utf8_stdout
                      [december] [torn] scan (mkParser [] [])
                      (str "'utf-8' codec can't encode character '\udc80' in position 16: surrogates not allowed")
                      _) _) _).
  - vm_compute. repeat split.
  - vm_compute. reflexivity.
  - vm_compute. reflexivity.
Defined.

Lemma main_counters_witness :
  let docs := [Main.broken_document (str "torn.pdf") (str "No /Root object");
               Main.text_document (str "december.pdf") Main.icici_text] in
  let '(total, success, partial, failed) :=
    main_statistics (map Main.parse_statement docs) in
  total = 2
  /\ success + partial + failed
     + count_status (str "error") (map Main.parse_statement docs) = total
  /\ (success + partial + failed = total <->
      forall p, In p docs ->
                exists text, Main.extract_text_from_pdf p = Ok text)
  /\ map Main.parse_statement docs = map Main.parse_statement docs.
Proof.
  refine (@main_counters_omit_error_records
            Re.search Main.PARSERS _ _ Main.doc_name Main.doc_pages
            Main.page_text Main.utf8_stdout
            [Main.broken_document (str "torn.pdf") (str "No /Root object");
             Main.text_document (str "december.pdf") Main.icici_text]
            (mkParser [] [])
            (mkParser
               (map Main.parse_statement
                    [Main.broken_document (str "torn.pdf")
                                          (str "No /Root object");
                     Main.text_document (str "december.pdf") Main.icici_text])
               [str "Processing: torn.pdf..."; str "  ✗ Error - error";
                str "Processing: december.pdf...";
                str "  ⚠ ICICI Bank - partial"])
            _ _).
  vm_compute. reflexivity.
Defined.

Lemma stored_value_witness :
  trimmed (str "12,345.67") /\ strip (str "12,345.67") = str "12,345.67".
Proof.
  refine (proj2 (@stored_value_is_stripped_extraction
                   Re.search Main.PARSERS _ _ Main.doc_name Main.doc_pages
                   Main.page_text
                   (Main.text_document (str "december.pdf") Main.icici_text)
                   TotalAmountDue (str "12,345.67") _)).
  vm_compute. reflexivity.
Defined.

Lemma field_set_or_reported_witness :
  let r := Main.parse_statement
             (Main.text_document (str "december.pdf") Main.icici_text) in
  (card_number r = None <-> In (diagnostic CardNumber) (errors r))
  /\ (total_amount_due r = None <-> In (diagnostic TotalAmountDue) (errors r)).
Proof.
  assert (Ht : Main.extract_text_from_pdf
                 (Main.text_document (str "december.pdf") Main.icici_text)
               = Ok Main.icici_text) by (vm_compute; reflexivity).
  assert (Hid : Main.identify_issuer Main.icici_text
                = Some (str "ICICI Bank")) by (vm_compute; reflexivity).
  assert (Hne : str "ICICI Bank" <> []) by (vm_compute; discriminate).
  assert (Hc : getitem Main.PARSERS (str "ICICI Bank") = Ok Main.ICICI_Bank)
    by (vm_compute; reflexivity).
  assert (Hnd : NoDup (map fst (patterns Main.ICICI_Bank)))
    by (simpl; repeat constructor; simpl; intuition discriminate).
  pose proof (@field_set_or_reported
                Re.search Main.PARSERS _ _ Main.doc_name Main.doc_pages
                Main.page_text _ _ _ _ Ht Hid Hne Hc Hnd) as H.
  split.
  - apply (H CardNumber). simpl. auto.
  - apply (H TotalAmountDue). simpl. auto 6.
Defined.

Lemma registry_names_distinct : NoDup (map fst Main.PARSERS).
Proof.
  vm_compute. repeat constructor; simpl; intuition discriminate.
Qed.

Lemma lookup_returns_recognised_profile_witness :
  exists pre cfg post,
    Main.PARSERS = pre ++ (str "Axis Bank", cfg) :: post
    /\ getitem Main.PARSERS (str "Axis Bank") = Ok cfg
    /\ Parser.recognised Re.search cfg
                         (str "AMEX card, billed through axisbank.com")
    /\ forall e, In e pre ->
                 ~ Parser.recognised Re.search (snd e)
                     (str "AMEX card, billed through axisbank.com").
Proof.
  refine (@lookup_returns_recognised_profile
            Re.search Main.PARSERS
            (str "AMEX card, billed through axisbank.com")
            (str "Axis Bank") _ _).
  - vm_compute. repeat constructor; simpl; intuition discriminate.
  - vm_compute. reflexivity.
Defined.

Lemma stored_value_is_substring_witness :
  exists text,
    Main.extract_text_from_pdf
      (Main.text_document
         (str "decembre.pdf")
         (str "ICICI Bank" ++ Main.nl
          ++ str "PAYMENT DUE DATE: 05 Décembre, 2025" ++ Main.nl))
    = Ok text
    /\ infix (str "05 Décembre, 2025") text.
Proof.
  refine (@stored_value_is_substring_of_text
            _ _ Main.doc_name Main.doc_pages Main.page_text
            (Main.text_document
               (str "decembre.pdf")
               (str "ICICI Bank" ++ Main.nl
                ++ str "PAYMENT DUE DATE: 05 Décembre, 2025" ++ Main.nl))
            PaymentDueDate (str "05 Décembre, 2025") _).
  vm_compute. reflexivity.
Defined.

Lemma registry_defines_critical_fields (name : pystr) (cfg : config)
      (f : field) :
  In (name, cfg) Main.PARSERS -> In f critical_fields ->
  In f (map fst (patterns cfg)).
Proof.
  intros Hin Hf. simpl in Hin.
  repeat (destruct Hin as [E|Hin];
          [inversion E; subst cfg; clear E;
           simpl in Hf; destruct Hf as [<-|[<-|[<-|[]]]];
           simpl; auto 8|]).
  destruct Hin.
Qed.

Lemma success_has_critical_fields_witness :
  card_number
    (Main.parse_statement
       (Main.text_document (str "a.pdf") Main.icici_full_text)) <> None.
Proof.
  refine (proj1 (@success_has_critical_fields
                   Re.search Main.PARSERS _ _ Main.doc_name Main.doc_pages
                   Main.page_text
                   (Main.text_document (str "a.pdf") Main.icici_full_text)
                   _ _)).
  - intros name cfg f. apply registry_defines_critical_fields.
  - vm_compute. reflexivity.
Defined.

(* ------------------------------------------------------------------ *)
(** ** Extending a pattern list or the registry *)

Section Extension.

Variable re_search : pystr -> pystr -> N -> option Match.
Variables Path Page : Type.
Variable path_name : Path -> pystr.
Variable pdfplumber_open : Path -> result (list Page).
Variable page_extract_text : Page -> result (option pystr).

Local Abbreviation identify_in := (Parser.identify_in re_search).
Local Abbreviation extract_field := (Parser.extract_field re_search).
Local Abbreviation extract_text_from_pdf :=
  (Parser.extract_text_from_pdf pdfplumber_open page_extract_text).
Local Abbreviation flags := (N.lor IGNORECASE MULTILINE).

(** X14.  Patterns appended to a list are fallbacks only: when some pattern
    of [pats] is found in the text, [extract_field] on [pats ++ more] gives
    what it gives on [pats], even when that is [None]; when none is found
    it gives what it gives on [more]. *)
Theorem appended_patterns_are_fallbacks (text : pystr)
        (pats more : list pystr) :
  ((exists p, In p pats /\ re_search p text flags <> None) ->
   extract_field text (pats ++ more) = extract_field text pats)
  /\ ((forall p, In p pats -> re_search p text flags = None) ->
      extract_field text (pats ++ more) = extract_field text more).
Proof.
  split.
  - intros (p & Hin & Hp).
    destruct (extract_field_cases re_search text pats)
      as [[Hnone _] | (pre & q & post & mt & -> & Hpre & Hq & Hv)].
    + elim Hp. now apply Hnone.
    + rewrite Hv, <- app_assoc. cbn [app].
      rewrite (@extract_field_skip re_search text pre (q :: post ++ more) Hpre).
      now apply extract_field_hit.
  - intros Hnone. now apply extract_field_skip.
Qed.

Lemma identify_in_app (reg more : list (pystr * config)) (text : pystr) :
  identify_in (reg ++ more) text
  = match identify_in reg text with
    | Some name => Some name
    | None => identify_in more text
    end.
Proof.
  induction reg as [|[k c] reg IH]; simpl; [reflexivity|].
  now destruct (Parser.any_identifier re_search (identifier c) text).
Qed.

Lemma getitem_app_ok (reg more : list (pystr * config)) (key : pystr)
      (c : config) :
  getitem reg key = Ok c -> getitem (reg ++ more) key = Ok c.
Proof.
  induction reg as [|[k c'] reg IH]; simpl; [discriminate|].
  destruct (eqb k key); auto.
Qed.

(** X15.  Profiles appended to the registry do not change the record of a
    document that the registry already identifies, nor of one whose text
    cannot be read: issuer, fields, status and diagnostics stay the same.
    Only documents that were unidentified can get a different record. *)
Theorem appended_profiles_keep_identified_records
        (PARSERS more : list (pystr * config)) (pdf_path : Path) :
  (forall text, extract_text_from_pdf pdf_path = Ok text ->
                identify_in PARSERS text <> None) ->
  Parser.parse_statement re_search (PARSERS ++ more) path_name pdfplumber_open
                         page_extract_text pdf_path
  = Parser.parse_statement re_search PARSERS path_name pdfplumber_open
                           page_extract_text pdf_path.
Proof.
  intros Hid. unfold Parser.parse_statement, Parser.parse_body.
  destruct (extract_text_from_pdf pdf_path) as [text|msg] eqn:Ht;
    [|reflexivity].
  simpl bind. f_equal. unfold Parser.parse_text, Parser.identify_issuer.
  rewrite identify_in_app. specialize (Hid text eq_refl).
  destruct (identify_in PARSERS text) as [[|c cs]|] eqn:E;
    [reflexivity | | congruence].
  destruct (@getitem_identified re_search PARSERS text (c :: cs) E)
    as (cfg & Hc).
  now rewrite Hc, (getitem_app_ok _ more _ Hc).
Qed.

End Extension.

Lemma appended_patterns_witness :
  Main.extract_field (str "12-34") ([str "(\d+)-"] ++ [str "-(\d+)"])
  = Main.extract_field (str "12-34") [str "(\d+)-"].
Proof.
  refine (proj1 (@appended_patterns_are_fallbacks
                   Re.search (str "12-34") [str "(\d+)-"] [str "-(\d+)"]) _).
  exists (str "(\d+)-"). split; [now left|]. vm_compute. discriminate.
Defined.

Lemma appended_profiles_witness :
  Parser.parse_statement
    Re.search
    (Main.PARSERS ++ [(str "Any Bank", mkConfig [str "Bank"] [])])
    Main.doc_name Main.doc_pages Main.page_text
    (Main.text_document (str "december.pdf") Main.icici_text)
  = Main.parse_statement
      (Main.text_document (str "december.pdf") Main.icici_text).
Proof.
  refine (@appended_profiles_keep_identified_records
            Re.search _ _ Main.doc_name Main.doc_pages Main.page_text
            Main.PARSERS [(str "Any Bank", mkConfig [str "Bank"] [])]
            (Main.text_document (str "december.pdf") Main.icici_text) _).
  intros text Ht. vm_compute in Ht. injection Ht as <-.
  vm_compute. discriminate.
Defined.

(* ------------------------------------------------------------------ *)
(** ** Letter case and issuer detection

    Under [IGNORECASE] the engine finds a pattern in a text exactly when it
    finds it in any text that differs only in the case of ASCII letters. *)

Section LetterCase.

Import Re.

Lemma upper_forall (P : N -> bool) :
  forallb P (map N.of_nat (seq 65 26)) = true ->
  forall x, is_upper x = true -> P x = true.
Proof.
  intros H x Hx. rewrite forallb_forall in H. apply H.
  unfold is_upper in Hx. apply andb_true_iff in Hx. destruct Hx as [A B].
  apply N.leb_le in A. apply N.leb_le in B.
  rewrite <- (N2Nat.id x). apply in_map, in_seq. lia.
Qed.

Lemma upper_shift (x : N) :
  is_upper x = true ->
  lower x = (x + 32)%N /\ upper x = x
  /\ lower (x + 32) = (x + 32)%N /\ upper (x + 32) = x
  /\ is_nl (x + 32) = is_nl x
  /\ forall k, in_class k (x + 32) = in_class k x.
Proof.
  intros Hx.
  assert (H : ((lower x =? x + 32)%N && (upper x =? x)%N
               && (lower (x + 32) =? x + 32)%N && (upper (x + 32) =? x)%N
               && Bool.eqb (is_nl (x + 32)) (is_nl x)
               && Bool.eqb (in_class 0 (x + 32)) (in_class 0 x)
               && Bool.eqb (in_class 1 (x + 32)) (in_class 1 x)
               && Bool.eqb (in_class 2 (x + 32)) (in_class 2 x)) = true).
  { revert x Hx.
    apply (upper_forall
             (fun x => (lower x =? x + 32)%N && (upper x =? x)%N
                       && (lower (x + 32) =? x + 32)%N
                       && (upper (x + 32) =? x)%N
                       && Bool.eqb (is_nl (x + 32)) (is_nl x)
                       && Bool.eqb (in_class 0 (x + 32)) (in_class 0 x)
                       && Bool.eqb (in_class 1 (x + 32)) (in_class 1 x)
                       && Bool.eqb (in_class 2 (x + 32)) (in_class 2 x))).
    vm_compute. reflexivity. }
  repeat (apply andb_true_iff in H; destruct H as [H ?]).
  repeat match goal with
         | E : (_ =? _)%N = true |- _ => apply N.eqb_eq in E
         | E : Bool.eqb _ _ = true |- _ => apply Bool.eqb_prop in E
         end.
  repeat split; auto.
  intros [|[p|p|]]; auto.
Qed.

Lemma same_letter_lower (x y : N) : same_letter x y -> lower x = lower y.
Proof.
  intros [->|[[U ->]|[U ->]]]; [reflexivity| |];
    destruct (@upper_shift _ U) as (A & _ & C & _); congruence.
Qed.

Lemma blind_shift (p : N -> bool) :
  (forall x, is_upper x = true -> p (x + 32)%N = p x) -> blind p.
Proof.
  intros H x y [->|[[U ->]|[U ->]]]; auto.
  symmetry. auto.
Qed.

Lemma is_nl_blind : blind is_nl.
Proof. apply blind_shift. intros x Hx. apply (@upper_shift x Hx). Qed.

Lemma class_blind (neg : bool) (k : N) :
  blind (fun x => xorb neg (in_class k x)).
Proof.
  apply blind_shift. intros x Hx. f_equal. apply (@upper_shift x Hx).
Qed.

Lemma any_blind : blind (fun x => negb (is_nl x)).
Proof. intros x y S. f_equal. now apply is_nl_blind. Qed.

Variable fl : N.
Hypothesis fl_ignorecase : ignorecase fl = true.

Lemma chr_blind (c : N) : blind (chr_match fl c).
Proof.
  intros x y S. unfold chr_match. rewrite fl_ignorecase.
  now rewrite (same_letter_lower S).
Qed.

Lemma item_blind (it : set_item) : blind (item_match fl it).
Proof.
  destruct it as [c|lo hi|neg k].
  - apply chr_blind.
  - assert (B : blind (fun x => in_range lo hi x || in_range lo hi (lower x)
                                || in_range lo hi (upper (lower x)))).
    { apply blind_shift. intros x Hx.
      destruct (@upper_shift x Hx) as (A & B & C & D & _).
      rewrite A, C, D.
      destruct (in_range lo hi x), (in_range lo hi (x + 32)); reflexivity. }
    intros x y S. simpl. rewrite fl_ignorecase. now apply B.
  - apply class_blind.
Qed.

Lemma set_blind (neg : bool) (items : list set_item) :
  blind (set_match fl neg items).
Proof.
  intros x y S. unfold set_match. f_equal.
  induction items as [|it items IH]; simpl; [reflexivity|].
  now rewrite IH, (item_blind it S).
Qed.

Lemma same_position_advance (s s' : mstate) (x y : N) (xs ys : pystr) :
  same_position s s' -> same_letter x y -> same_ignoring_case xs ys ->
  same_position (advance s x xs) (advance s' y ys).
Proof.
  intros (P & _ & _) L R. unfold same_position, advance. simpl. auto.
Qed.

Lemma same_position_set_cap (s s' : mstate) (i : nat) (v v' : pystr) :
  same_position s s' -> same_position (set_cap i v s) (set_cap i v' s').
Proof. unfold same_position, set_cap. simpl. auto. Qed.

Lemma same_position_length (s s' : mstate) :
  same_position s s' -> List.length (rest s) = List.length (rest s').
Proof. intros (_ & _ & R). induction R; simpl; auto. Qed.

Lemma is_none_orelse (a b : option mstate) :
  is_none (orelse a b) = is_none a && is_none b.
Proof. destruct a; reflexivity. Qed.

Lemma one_together (p : N -> bool) : blind p -> steps_together (one p) (one p).
Proof.
  intros B s s' k k' S K. unfold one.
  pose proof S as (_ & _ & R).
  destruct R as [|x y xs ys L R]; [reflexivity|].
  rewrite (B x y L). destruct (p y); [|reflexivity].
  apply K. now apply same_position_advance.
Qed.

Lemma at_bol_together (s s' : mstate) :
  same_position s s' -> at_bol fl s = at_bol fl s'.
Proof.
  intros (_ & P & _). unfold at_bol.
  destruct (prev s), (prev s'); try tauto.
  now rewrite (is_nl_blind P).
Qed.

Lemma at_eol_together (s s' : mstate) :
  same_position s s' -> at_eol fl s = at_eol fl s'.
Proof.
  intros (_ & _ & R). unfold at_eol.
  destruct R as [|x y xs ys L R]; [reflexivity|].
  rewrite (is_nl_blind L). now destruct R.
Qed.

Section Steps.
Variables step step' : mstate -> (mstate -> option mstate) -> option mstate.
Hypothesis together : steps_together step step'.

Lemma rep_min_together (n : nat) :
  steps_together (rep_min step n) (rep_min step' n).
Proof.
  induction n as [|n IH]; intros s s' k k' S K; simpl.
  - now apply K.
  - apply together; [exact S|]. intros t t' T. now apply IH.
Qed.

Lemma rep_opt_together (greedy : bool) (fuel : nat) (budget : option nat) :
  steps_together (rep_opt step greedy fuel budget)
                 (rep_opt step' greedy fuel budget).
Proof.
  revert budget. induction fuel as [|fuel IH]; intros budget s s' k k' S K;
    simpl.
  - now apply K.
  - destruct (spent budget); [now apply K|].
    assert (M : is_none (step s (fun t =>
                                   if pos s <? pos t
                                   then rep_opt step greedy fuel
                                                (option_map pred budget) t k
                                   else None))
                = is_none (step' s' (fun t =>
                                       if pos s' <? pos t
                                       then rep_opt step' greedy fuel
                                                    (option_map pred budget) t k'
                                       else None))).
    { apply together; [exact S|]. intros t t' T.
      destruct S as (P & _), T as (P' & Q').
      rewrite P, P'. destruct (pos s' <? pos t'); [|reflexivity].
      apply IH; [|exact K]. split; auto. }
    destruct greedy; rewrite !is_none_orelse, M, (K s s' S); reflexivity.
Qed.

End Steps.

Lemma m_together (r : regex) : steps_together (m fl r) (m fl r).
Proof.
  induction r as [| c | | neg c | neg items | | | a IHa b IHb
                  | a IHa b IHb | a IHa lo hi greedy | i a IHa]; simpl.
  - intros s s' k k' S K. now apply K.
  - apply one_together, chr_blind.
  - apply one_together, any_blind.
  - apply one_together, class_blind.
  - apply one_together, set_blind.
  - intros s s' k k' S K. rewrite (at_bol_together S).
    destruct (at_bol fl s'); [now apply K | reflexivity].
  - intros s s' k k' S K. rewrite (at_eol_together S).
    destruct (at_eol fl s'); [now apply K | reflexivity].
  - intros s s' k k' S K. apply IHa; [exact S|].
    intros t t' T. now apply IHb.
  - intros s s' k k' S K. rewrite !is_none_orelse.
    now rewrite (IHa s s' k k' S K), (IHb s s' k k' S K).
  - intros s s' k k' S K. apply rep_min_together; auto.
    intros t t' T. rewrite (same_position_length T).
    now apply rep_opt_together.
  - intros s s' k k' S K. apply IHa; [exact S|].
    intros t t' T. apply K. now apply same_position_set_cap.
Qed.

Lemma search_from_together (r : regex) (ngroups : nat) (text text' : pystr) :
  same_ignoring_case text text' ->
  forall (p : nat) (pv pv' : option N),
    match pv, pv' with
    | Some x, Some y => same_letter x y
    | None, None => True
    | _, _ => False
    end ->
    is_none (search_from fl r ngroups p pv text)
    = is_none (search_from fl r ngroups p pv' text').
Proof.
  intros R. induction R as [|x y xs ys L R IH]; intros p pv pv' P;
    cbn [search_from].
  - assert (S : same_position (mkState p pv [] []) (mkState p pv' [] []))
      by (repeat split; [exact P | constructor]).
    pose proof (@m_together r _ _ (fun t => Some t) (fun t => Some t) S
                  (fun _ _ _ => eq_refl)) as M.
    destruct (m fl r (mkState p pv [] []) (fun t => Some t)),
             (m fl r (mkState p pv' [] []) (fun t => Some t));
      simpl in M; try discriminate; reflexivity.
  - assert (S : same_position (mkState p pv (x :: xs) [])
                              (mkState p pv' (y :: ys) []))
      by (repeat split; [exact P | now constructor]).
    pose proof (@m_together r _ _ (fun t => Some t) (fun t => Some t) S
                  (fun _ _ _ => eq_refl)) as M.
    destruct (m fl r (mkState p pv (x :: xs) []) (fun t => Some t)),
             (m fl r (mkState p pv' (y :: ys) []) (fun t => Some t));
      simpl in M; try discriminate; try reflexivity.
    now apply IH.
Qed.

Lemma search_together (pattern text text' : pystr) :
  same_ignoring_case text text' ->
  is_none (Re.search pattern text fl) = is_none (Re.search pattern text' fl).
Proof.
  intros R. unfold Re.search.
  destruct (compile pattern) as [[r n]|]; [|reflexivity].
  now apply search_from_together.
Qed.

End LetterCase.

(** Whatever the registry, as long as the search is the one of [Re]:
    texts that differ only in the case of ASCII letters are identified
    alike.  (For identifiers [Re] does not parse, such as one with an
    inline flag group, this says nothing about the program: see X16 for
    the registry of the program.) *)
Lemma identify_in_ignores_letter_case
      (PARSERS : list (pystr * config)) (text text' : pystr) :
  same_ignoring_case text text' ->
  Parser.identify_issuer Re.search PARSERS text
  = Parser.identify_issuer Re.search PARSERS text'.
Proof.
  intros R. unfold Parser.identify_issuer.
  assert (A : forall idents,
             Parser.any_identifier Re.search idents text
             = Parser.any_identifier Re.search idents text').
  { induction idents as [|p idents IH]; simpl; [reflexivity|].
    rewrite (@search_together IGNORECASE eq_refl p text text' R).
    now rewrite IH. }
  induction PARSERS as [|[k c] reg IH]; simpl; [reflexivity|].
  now rewrite A, IH.
Qed.

(** X16.  [identify_issuer] of the program, over its registry [PARSERS]:
    two texts that differ only in the case of ASCII letters ([A]-[Z]
    against [a]-[z], every other character equal) are identified as the
    same issuer, since every identifier is searched with
    [re.IGNORECASE]. *)
Theorem identify_issuer_ignores_letter_case (text text' : pystr) :
  same_ignoring_case text text' ->
  Main.identify_issuer text = Main.identify_issuer text'.
Proof.
  intros R. unfold Main.identify_issuer.
  now apply identify_in_ignores_letter_case.
Qed.

Lemma identify_issuer_ignores_letter_case_witness :
  Main.identify_issuer (str "RBL BANK LTD")
  = Main.identify_issuer (str "rbl Bank ltd").
Proof.
  refine (@identify_issuer_ignores_letter_case
            (str "RBL BANK LTD") (str "rbl Bank ltd") _).
  vm_compute.
  repeat (constructor;
          [first [ left; reflexivity
                 | right; left; split; reflexivity
                 | right; right; split; reflexivity ] | ]).
  constructor.
Defined.

(* ------------------------------------------------------------------ *)
(** ** The streak counter *)

Section Streak.

Import App.

Local Open Scope Z_scope.

Lemma date_eqb_eq (a b : date) : date_eqb a b = true <-> a = b.
Proof.
  destruct a as [ya ma da], b as [yb mb db]. unfold date_eqb. simpl.
  rewrite !andb_true_iff, !Z.eqb_eq.
  split; [intros [[-> ->] ->]; reflexivity | intros [= -> -> ->]; auto].
Qed.

Lemma date_ltb_lt (a b : date) :
  date_ltb a b = true <->
  year a < year b
  \/ (year a = year b
      /\ (month a < month b \/ (month a = month b /\ day a < day b))).
Proof.
  unfold date_ltb.
  rewrite !orb_true_iff, !andb_true_iff, !orb_true_iff, !andb_true_iff,
    !Z.ltb_lt, !Z.eqb_eq.
  tauto.
Qed.

Lemma date_ltb_ge (a b : date) :
  date_ltb a b = false <->
  year b < year a
  \/ (year a = year b
      /\ (month b < month a \/ (month a = month b /\ day b <= day a))).
Proof.
  rewrite <- Bool.not_true_iff_false, date_ltb_lt. lia.
Qed.

Lemma date_trichotomy (a b : date) :
  a = b \/ date_ltb a b = true \/ date_ltb b a = true.
Proof.
  rewrite !date_ltb_lt. destruct a as [ya ma da], b as [yb mb db]. simpl.
  destruct (Z.eq_dec ya yb) as [->|]; [|lia].
  destruct (Z.eq_dec ma mb) as [->|]; [|lia].
  destruct (Z.eq_dec da db) as [->|]; [auto | lia].
Qed.

Lemma date_ltb_neq (a b : date) : date_ltb a b = true -> date_eqb a b = false.
Proof.
  intros H. destruct (date_eqb a b) eqn:E; [|reflexivity].
  apply date_eqb_eq in E. subst. apply date_ltb_lt in H. lia.
Qed.

Lemma date_ltb_asym (a b : date) : date_ltb a b = true -> date_ltb b a = false.
Proof. rewrite date_ltb_lt, date_ltb_ge. lia. Qed.

Lemma date_lt_ge_trans (a b c : date) :
  date_ltb a b = true -> date_ltb a c = false -> date_ltb b c = false.
Proof. rewrite date_ltb_lt, !date_ltb_ge. lia. Qed.

(** *** Sorting *)

Lemma insert_desc_in (x y : date) (l : list date) :
  In y (insert_desc x l) <-> y = x \/ In y l.
Proof.
  induction l as [|z l IH]; simpl.
  - intuition.
  - destruct (date_ltb z x); simpl; [intuition|]. rewrite IH. intuition.
Qed.

Lemma sorted_desc_in (y : date) (l : list date) :
  In y (sorted_desc l) <-> In y l.
Proof.
  induction l as [|x l IH]; simpl; [tauto|].
  rewrite insert_desc_in, IH. intuition.
Qed.

Lemma insert_desc_descending (x : date) (l : list date) :
  descending l -> descending (insert_desc x l).
Proof.
  unfold descending. induction l as [|y l IH]; intros H; simpl.
  - repeat constructor.
  - inversion H as [|? ? Hl Hy]; subst.
    destruct (date_ltb y x) eqn:E.
    + constructor; [exact H|]. constructor.
      * now apply date_ltb_asym.
      * apply Forall_forall. intros z Hz. rewrite Forall_forall in Hy.
        apply date_lt_ge_trans with (a := y); auto.
    + constructor; [now apply IH|].
      apply Forall_forall. intros z Hz. apply insert_desc_in in Hz.
      destruct Hz as [->|Hz]; [exact E|].
      rewrite Forall_forall in Hy. auto.
Qed.

Lemma sorted_desc_descending (l : list date) : descending (sorted_desc l).
Proof.
  induction l as [|x l IH]; simpl; [constructor|].
  now apply insert_desc_descending.
Qed.

(** *** Stepping back *)

Lemma valid_bounds (d : date) :
  valid d ->
  1 <= year d <= 9999 /\ 1 <= month d <= 12
  /\ 1 <= day d <= days_in_month (year d) (month d).
Proof.
  unfold valid, new_date.
  destruct ((1 <=? year d) && (year d <=? 9999) && (1 <=? month d)
            && (month d <=? 12) && (1 <=? day d)
            && (day d <=? days_in_month (year d) (month d))) eqn:E;
    [|discriminate].
  intros _. rewrite !andb_true_iff, !Z.leb_le in E. lia.
Qed.

Lemma new_date_ok (y m d : Z) :
  1 <= y <= 9999 -> 1 <= m <= 12 -> 1 <= d <= days_in_month y m ->
  new_date y m d = Some (mkDate y m d).
Proof.
  intros Hy Hm Hd. unfold new_date.
  replace ((1 <=? y) && (y <=? 9999) && (1 <=? m) && (m <=? 12)
           && (1 <=? d) && (d <=? days_in_month y m)) with true;
    [reflexivity|].
  symmetry. rewrite !andb_true_iff, !Z.leb_le. lia.
Qed.

Lemma valid_new_date (y m d : Z) :
  1 <= y <= 9999 -> 1 <= m <= 12 -> 1 <= d <= days_in_month y m ->
  valid (mkDate y m d).
Proof. intros. unfold valid. simpl. now apply new_date_ok. Qed.

Lemma days_in_month_bounds (y m : Z) : 28 <= days_in_month y m <= 31.
Proof.
  unfold days_in_month.
  destruct m as [|p|p]; try lia;
    repeat (destruct p as [p|p|]; try lia); destruct (isleap y); lia.
Qed.

Lemma step_back_inside (c : date) :
  valid c -> 1 < day c ->
  step_back c = Some (mkDate (year c) (month c) (day c - 1))
  /\ valid (mkDate (year c) (month c) (day c - 1)).
Proof.
  intros V H. apply valid_bounds in V. unfold step_back.
  replace (day c >? 1) with true by (symmetry; apply Z.gtb_lt; lia).
  split; [apply new_date_ok | apply valid_new_date]; lia.
Qed.

Lemma step_back_first (c : date) :
  valid c -> day c = 1 ->
  let pm := if month c >? 1 then month c - 1 else 12 in
  step_back c = Some (mkDate (year c) pm (days_in_month (year c) pm))
  /\ valid (mkDate (year c) pm (days_in_month (year c) pm)).
Proof.
  intros V H pm. apply valid_bounds in V. unfold step_back.
  replace (day c >? 1) with false by (rewrite H; reflexivity).
  fold pm.
  assert (Hpm : 1 <= pm <= 12).
  { subst pm. destruct (month c >? 1) eqn:E; [|lia].
    apply Z.gtb_lt in E. lia. }
  unfold monthrange_days.
  replace ((1 <=? pm) && (pm <=? 12)) with true
    by (symmetry; rewrite andb_true_iff, !Z.leb_le; lia).
  pose proof (days_in_month_bounds (year c) pm).
  split; [apply new_date_ok | apply valid_new_date]; lia.
Qed.

Lemma step_back_total (c : date) :
  valid c -> exists c', step_back c = Some c' /\ valid c'.
Proof.
  intros V. pose proof (@valid_bounds c V) as B.
  destruct (Z.eq_dec (day c) 1) as [E|N].
  - destruct (@step_back_first c V E) as [A B']. eauto.
  - destruct (@step_back_inside c V) as [A B']; [lia | eauto].
Qed.

(** *** The loop *)

Lemma streak_loop_absent (l : list date) (c : date) (n : nat) :
  ~ In c l -> streak_loop l c n = Some n.
Proof.
  induction l as [|d l IH]; simpl; intros H; [reflexivity|].
  destruct (date_eqb d c) eqn:E.
  - apply date_eqb_eq in E. elim H. auto.
  - destruct (date_ltb d c); [reflexivity|]. apply IH. tauto.
Qed.

Lemma streak_loop_skip (later rest : list date) (c : date) (n : nat) :
  (forall x, In x later -> date_ltb c x = true) ->
  streak_loop (later ++ rest) c n = streak_loop rest c n.
Proof.
  induction later as [|d later IH]; simpl; intros H; [reflexivity|].
  pose proof (H d (or_introl eq_refl)) as Hd.
  assert (E : date_eqb d c = false).
  { destruct (date_eqb d c) eqn:E; [|reflexivity].
    apply date_eqb_eq in E. subst. apply date_ltb_neq in Hd.
    rewrite (proj2 (date_eqb_eq c c) eq_refl) in Hd. discriminate. }
  rewrite E, (@date_ltb_asym c d Hd). apply IH. auto.
Qed.

Lemma descending_split (l : list date) (c : date) :
  descending l -> In c l ->
  exists later rest,
    l = later ++ c :: rest
    /\ (forall x, In x later -> date_ltb c x = true)
    /\ (forall x, In x rest -> date_ltb c x = false)
    /\ descending rest.
Proof.
  unfold descending. induction l as [|d l IH]; intros S Hin; [destruct Hin|].
  inversion S as [|? ? Sl Fd]; subst. rewrite Forall_forall in Fd.
  destruct (date_eqb d c) eqn:E.
  - apply date_eqb_eq in E. subst d. exists [], l.
    repeat split; auto; intros x [].
  - destruct Hin as [->|Hin];
      [rewrite (proj2 (date_eqb_eq c c) eq_refl) in E; discriminate|].
    destruct (IH Sl Hin) as (later & rest & -> & Hl & Hr & Sr).
    exists (d :: later), rest. repeat split; auto.
    intros x [<-|Hx]; [|auto].
    destruct (date_trichotomy d c) as [->|[L|L]]; auto.
    + rewrite (proj2 (date_eqb_eq c c) eq_refl) in E. discriminate.
    + rewrite Fd in L by (apply in_or_app; right; now left). discriminate.
Qed.

(** Counting [c], found in a list sorted latest first: the loop goes on
    with the dates after the first [c], none of which is later than [c]. *)
Lemma streak_loop_hit (l : list date) (c c' : date) (n : nat) :
  descending l -> In c l -> step_back c = Some c' ->
  exists rest,
    streak_loop l c n = streak_loop rest c' (S n)
    /\ descending rest
    /\ (forall x, In x rest -> In x l /\ date_ltb c x = false)
    /\ (forall x, In x l -> date_ltb x c = true -> In x rest).
Proof.
  intros S Hin Hb.
  destruct (@descending_split l c S Hin) as (later & rest & -> & Hl & Hr & Sr).
  exists rest. rewrite (@streak_loop_skip later (c :: rest) c n Hl). simpl.
  rewrite (proj2 (date_eqb_eq c c) eq_refl), Hb.
  repeat split; auto.
  - apply in_or_app. right. now right.
  - intros x Hx Lx. apply in_app_or in Hx. destruct Hx as [Hx|[<-|Hx]]; auto.
    + apply Hl in Hx. apply date_ltb_asym in Lx. congruence.
    + apply date_ltb_lt in Lx. lia.
Qed.

Lemma streak_loop_total (l : list date) (c : date) (n : nat) :
  valid c ->
  exists k, streak_loop l c n = Some k
            /\ (n <= k <= n + List.length l)%nat.
Proof.
  revert c n. induction l as [|d l IH]; intros c n V; simpl.
  - exists n. split; [reflexivity | lia].
  - destruct (date_eqb d c).
    + destruct (@step_back_total c V) as (c' & -> & V').
      destruct (IH c' (S n) V') as (k & -> & Hk). exists k. split; [auto|lia].
    + destruct (date_ltb d c).
      * exists n. split; [reflexivity | lia].
      * destruct (IH c n V) as (k & -> & Hk). exists k. split; [auto|lia].
Qed.

Lemma sorted_desc_length (l : list date) :
  List.length (sorted_desc l) = List.length l.
Proof.
  assert (I : forall x l, List.length (insert_desc x l) = S (List.length l)).
  { intros x l0. induction l0 as [|y l0 IH]; simpl; [reflexivity|].
    destruct (date_ltb y x); simpl; auto. }
  induction l as [|x l IH]; simpl; [reflexivity|]. now rewrite I, IH.
Qed.

Variable strptime_date : pystr -> option date.

Local Abbreviation parse_keys := (App.parse_keys strptime_date).
Local Abbreviation calculate_streak := (App.calculate_streak strptime_date).

Lemma parse_keys_some (keys : list pystr) (ds : list date) :
  parse_keys keys = Some ds <-> map strptime_date keys = map Some ds.
Proof.
  revert ds. induction keys as [|k keys IH]; intros ds; simpl.
  - split; [intros [= <-]; reflexivity | destruct ds; [auto | discriminate]].
  - destruct (strptime_date k) as [d|].
    + destruct (parse_keys keys) as [ds'|].
      * split.
        -- intros [= <-]. simpl. f_equal. now apply IH.
        -- destruct ds as [|d0 ds0]; [discriminate|]. simpl. intros [= <- H].
           apply IH in H. congruence.
      * split; [discriminate|].
        destruct ds as [|d0 ds0]; [discriminate|]. simpl. intros [= _ H].
        apply IH in H. discriminate.
    + split; [discriminate | destruct ds; discriminate].
Qed.

Lemma parse_keys_none (keys : list pystr) :
  parse_keys keys = None <-> exists k, In k keys /\ strptime_date k = None.
Proof.
  induction keys as [|k keys IH]; simpl.
  - split; [discriminate | intros (k & [] & _)].
  - destruct (strptime_date k) as [d|] eqn:E.
    + destruct (parse_keys keys) as [ds|].
      * split; [discriminate|].
        intros (k' & [<-|Hin] & Hk); [congruence|].
        assert (N : (None : option (list date)) = None) by reflexivity.
        destruct IH as [_ IH]. discriminate IH. eauto.
      * split; [|reflexivity]. intros _.
        destruct IH as [IH _]. destruct (IH eq_refl) as (k' & Hin & Hk). eauto.
    + split; [|reflexivity]. intros _. exists k. auto.
Qed.

Lemma calculate_streak_parsed (keys : list pystr) (ds : list date)
      (end_date : date) :
  parse_keys keys = Some ds ->
  calculate_streak keys end_date = streak_loop (sorted_desc ds) end_date 0.
Proof.
  intros H. unfold App.calculate_streak. rewrite H.
  destruct (sorted_desc ds); reflexivity.
Qed.

(** X17.  For a valid [end_date], [calculate_streak] raises exactly when
    one of the keys is not a date; otherwise it returns a streak that is at
    most the number of keys. *)
Theorem calculate_streak_raises_only_on_bad_key
        (keys : list pystr) (end_date : date) :
  valid end_date ->
  (calculate_streak keys end_date = None <->
   exists k, In k keys /\ strptime_date k = None)
  /\ forall n, calculate_streak keys end_date = Some n ->
               (n <= List.length keys)%nat.
Proof.
  intros V.
  destruct (parse_keys keys) as [ds|] eqn:P.
  - rewrite (@calculate_streak_parsed keys ds _ P).
    destruct (@streak_loop_total (sorted_desc ds) end_date 0 V) as (k & E & Hk).
    rewrite E, sorted_desc_length in *.
    assert (L : List.length ds = List.length keys).
    { apply parse_keys_some in P.
      rewrite <- (length_map strptime_date keys), P. symmetry. apply length_map. }
    split.
    + split; [discriminate|]. intros B. apply parse_keys_none in B. congruence.
    + intros n [= <-]. lia.
  - unfold App.calculate_streak. rewrite P. split.
    + split; [intros _; now apply parse_keys_none | reflexivity].
    + discriminate.
Qed.

(** X18.  When [end_date] itself is not among the dates of the keys, the
    streak is 0, however many earlier days in a row are there. *)
Theorem streak_is_zero_without_end_date
        (keys : list pystr) (ds : list date) (end_date : date) :
  map strptime_date keys = map Some ds ->
  ~ In end_date ds ->
  calculate_streak keys end_date = Some 0%nat.
Proof.
  intros P H. apply parse_keys_some in P.
  rewrite (@calculate_streak_parsed keys ds _ P).
  apply streak_loop_absent. now rewrite sorted_desc_in.
Qed.

(** X19.  On a first of January the streak is 1 when that day is among the
    dates and 0 otherwise, whatever days of December are there: stepping
    back from 1 January gives 31 December of the same year, which is later
    than every date left in the list, so the loop stops. *)
Theorem streak_stops_at_new_year
        (keys : list pystr) (ds : list date) (y : Z) :
  map strptime_date keys = map Some ds ->
  1 <= y <= 9999 ->
  (In (mkDate y 1 1) ds ->
   calculate_streak keys (mkDate y 1 1) = Some 1%nat)
  /\ (~ In (mkDate y 1 1) ds ->
      calculate_streak keys (mkDate y 1 1) = Some 0%nat).
Proof.
  intros P Hy. apply parse_keys_some in P.
  rewrite (@calculate_streak_parsed keys ds _ P). split.
  - intros Hin.
    assert (V : valid (mkDate y 1 1))
      by (apply valid_new_date; simpl; lia).
    destruct (@step_back_first (mkDate y 1 1) V eq_refl) as [Hb _]. simpl in Hb.
    destruct (@streak_loop_hit (sorted_desc ds) (mkDate y 1 1)
                (mkDate y 12 31) 0 (sorted_desc_descending ds)
                (proj2 (sorted_desc_in _ _) Hin) Hb)
      as (rest & -> & _ & Hr & _).
    apply streak_loop_absent. intros Hd. apply Hr in Hd.
    destruct Hd as [_ Hd]. apply date_ltb_ge in Hd. simpl in Hd. lia.
  - intros Hin. apply streak_loop_absent. now rewrite sorted_desc_in.
Qed.

(** Counting a run of [k + 1] days that ends at [d] and stays in the
    month; [c'] is the date the loop compares after the run. *)
Lemma streak_loop_run (k : nat) :
  forall (l : list date) (y m d : Z) (n : nat) (c' : date),
    descending l -> valid (mkDate y m d) -> Z.of_nat k < d ->
    (forall i, 0 <= i <= Z.of_nat k -> In (mkDate y m (d - i)) l) ->
    step_back (mkDate y m (d - Z.of_nat k)) = Some c' ->
    ~ In c' l ->
    streak_loop l (mkDate y m d) n = Some (n + S k)%nat.
Proof.
  induction k as [|k IH]; intros l y m d n c' Hs V Hk Hin Hb Hout.
  - assert (H0 : In (mkDate y m d) l)
      by (rewrite <- (Z.sub_0_r d); apply Hin; simpl; lia).
    simpl in Hb. rewrite Z.sub_0_r in Hb.
    destruct (@streak_loop_hit l (mkDate y m d) c' n Hs H0 Hb)
      as (rest & -> & _ & Hr & _).
    rewrite streak_loop_absent; [f_equal; lia|].
    intros Hx. apply Hr in Hx. tauto.
  - assert (Hd : 1 < day (mkDate y m d)) by (simpl; lia).
    destruct (@step_back_inside (mkDate y m d) V Hd) as [Hi V'].
    simpl in Hi, V'.
    assert (H0 : In (mkDate y m d) l)
      by (rewrite <- (Z.sub_0_r d); apply Hin; lia).
    destruct (@streak_loop_hit l (mkDate y m d) (mkDate y m (d - 1)) n
                Hs H0 Hi) as (rest & -> & Sr & Hr & Hl).
    rewrite (IH rest y m (d - 1) (S n) c' Sr V'); [f_equal; lia | lia | | |].
    + intros i Hi'. apply Hl.
      * replace (d - 1 - i) with (d - (i + 1)) by lia. apply Hin. lia.
      * apply date_ltb_lt. simpl. lia.
    + replace (d - 1 - Z.of_nat k) with (d - Z.of_nat (S k)) by lia.
      exact Hb.
    + intros Hx. apply Hr in Hx. tauto.
Qed.

(** X20.  A run that stays inside a month is counted right, up to and
    including the 1st: when the dates hold [end_date] and the [k - 1] days
    before it, all in [end_date]'s month, and not the date [c'] that the
    loop compares next (the day before the run or, when the run starts on
    the 1st, the last day of the month before in the same year, December
    when the month is January), the streak is [k]; dates later than
    [end_date], repeated dates and older dates do not change it. *)
Theorem streak_counts_run_inside_month
        (keys : list pystr) (ds : list date) (y m d : Z) (k : nat)
        (c' : date) :
  map strptime_date keys = map Some ds ->
  valid (mkDate y m d) -> (1 <= k)%nat -> Z.of_nat k <= d ->
  (forall i, 0 <= i < Z.of_nat k -> In (mkDate y m (d - i)) ds) ->
  step_back (mkDate y m (d - Z.of_nat k + 1)) = Some c' ->
  ~ In c' ds ->
  calculate_streak keys (mkDate y m d) = Some k.
Proof.
  intros P V Hk1 Hk Hin Hb Hout. apply parse_keys_some in P.
  rewrite (@calculate_streak_parsed keys ds _ P).
  destruct k as [|k]; [lia|].
  apply (@streak_loop_run k (sorted_desc ds) y m d 0%nat c').
  - apply sorted_desc_descending.
  - exact V.
  - lia.
  - intros i Hi. apply sorted_desc_in. apply Hin. lia.
  - replace (d - Z.of_nat k) with (d - Z.of_nat (S k) + 1) by lia. exact Hb.
  - now rewrite sorted_desc_in.
Qed.

End Streak.

(** *** The streak counter on concrete keys *)

Example streak_across_months :
  App.calculate_streak App.iso_date
    [str "2024-03-01"; str "2024-02-28"; str "2024-02-29"; str "2024-02-26"]
    (App.mkDate 2024 3 1)
  = Some 3.
Proof. vm_compute. reflexivity. Qed.

Example streak_cut_at_new_year :
  App.calculate_streak App.iso_date
    [str "2024-12-30"; str "2024-12-31"; str "2025-01-01"]
    (App.mkDate 2025 1 1)
  = Some 1
  /\ App.calculate_streak App.iso_date
       [str "2024-12-30"; str "2024-12-31"; str "2025-01-01";
        str "2025-01-02"]
       (App.mkDate 2025 1 2)
     = Some 2.
Proof. split; vm_compute; reflexivity. Qed.

Lemma calculate_streak_bad_key_witness :
  App.calculate_streak App.iso_date [str "2025-01-01"; str "yesterday"]
                       (App.mkDate 2025 1 1)
  = None.
Proof.
  refine (proj2 (proj1 (@calculate_streak_raises_only_on_bad_key
                          App.iso_date [str "2025-01-01"; str "yesterday"]
                          (App.mkDate 2025 1 1) _)) _).
  - vm_compute. reflexivity.
  - exists (str "yesterday"). split; [right; now left|].
    vm_compute. reflexivity.
Defined.

Lemma streak_is_zero_witness :
  App.calculate_streak App.iso_date [str "2025-03-09"; str "2025-03-08"]
                       (App.mkDate 2025 3 10)
  = Some 0.
Proof.
  refine (@streak_is_zero_without_end_date
            App.iso_date [str "2025-03-09"; str "2025-03-08"]
            [App.mkDate 2025 3 9; App.mkDate 2025 3 8]
            (App.mkDate 2025 3 10) _ _).
  - vm_compute. reflexivity.
  - simpl. intuition discriminate.
Defined.

Lemma streak_stops_at_new_year_witness :
  App.calculate_streak App.iso_date
    [str "2024-12-30"; str "2024-12-31"; str "2025-01-01"]
    (App.mkDate 2025 1 1)
  = Some 1.
Proof.
  refine (proj1 (@streak_stops_at_new_year
                   App.iso_date
                   [str "2024-12-30"; str "2024-12-31"; str "2025-01-01"]
                   [App.mkDate 2024 12 30; App.mkDate 2024 12 31;
                    App.mkDate 2025 1 1]
                   2025%Z _ _) _).
  - vm_compute. reflexivity.
  - lia.
  - simpl. auto.
Defined.

Lemma streak_counts_run_witness :
  App.calculate_streak App.iso_date
    [str "2025-03-02"; str "2025-03-03"; str "2025-03-01"; str "2025-02-27"]
    (App.mkDate 2025 3 3)
  = Some 3.
Proof.
  refine (@streak_counts_run_inside_month
            App.iso_date
            [str "2025-03-02"; str "2025-03-03"; str "2025-03-01";
             str "2025-02-27"]
            [App.mkDate 2025 3 2; App.mkDate 2025 3 3; App.mkDate 2025 3 1;
             App.mkDate 2025 2 27]
            2025%Z 3%Z 3%Z 3 (App.mkDate 2025 2 28) _ _ _ _ _ _ _).
  - vm_compute. reflexivity.
  - vm_compute. reflexivity.
  - lia.
  - simpl. lia.
  - intros i Hi. simpl in Hi.
    assert (C : i = 0%Z \/ i = 1%Z \/ i = 2%Z) by lia.
    destruct C as [-> | [-> | ->]]; simpl; auto.
  - vm_compute. reflexivity.
  - simpl. intuition discriminate.
Defined.
